(** * City relocation advisor: orchestration and data-fusion core

    A shallow embedding of the TypeScript modules

    - [utils/api-integrations]  the response cache, [getFromCache] and
                                [storeInCache], [getCachedCityData],
                                [getCacheStats], [clearApiCache],
                                [getSerperData];
    - [utils/rate-limiter]      the per-model quota tracker, [canMakeRequest],
                                [registerRequest], [handleRateLimitError],
                                [getWaitTime];
    - [utils/RateLimiter]       the token bucket, [refillTokens] and
                                [acquireToken];
    - [utils/RetryUtil]         [calculateDelay] and [executeWithRetry];
    - [APIExecutor]             [calculateBackoff] and [executeWithRetry];
    - [utils/api-tools]         [withRetry], [searchWeb], [summarizeWebpage],
                                [getHousingMarketData], [getFallbackCityInfo],
                                [executeInParallel];
    - [app/api/chat/route]      [getUrlsForCity] and [getSummaryForCity];
    - [modules/intent/IntentParser]           [QueryIntent], [ParsedIntent],
                                [determineIntent], the rule-based [parse];
    - [modules/orchestration/APIOrchestrator] [getRequiredApis],
                                [buildApiQueries], [callApi],
                                [callMultipleApis], [fetch];
    - [modules/fusion/DataFusionEngine]       the extractors,
                                [processCityData], [compareCities], [merge];

    of the properties that the specification states of them (C1 to C10),
    and of further properties that the code has (X1 to X30).

    Modelling conventions.

    - Provider payloads have the TypeScript type [any]; they are modelled by
      the type [value] of JSON-shaped JavaScript values.  Numbers are exact
      rationals (IEEE rounding, NaN and the infinities, none of which JSON can
      carry, are not modelled); what C1 and C2 say of a rounded score and
      of a difference of scores is said for whole numbers, or up to the
      rounding.  Objects are association lists in insertion order, read
      with "first binding wins".
    - A property read [v.k] throws a [TypeError] on [undefined] and [null],
      gives the own property on an object and [undefined] otherwise.  The
      property names the modelled code reads are not members of
      [Object.prototype].  The object literals that serve as tables are
      finite maps, which is what they are for every key that plain objects
      do not inherit ([Names.inherited]); where a property holds of the
      code for such keys only, that is a hypothesis of it.
      [String.prototype.link] (a legacy method) is not modelled, so a string
      is taken to have no [link]; what C1 says of search results is said of
      objects.
    - [toLowerCase] and the regular expression class [\s] are modelled on
      ASCII.
    - Exceptions are explicit: code that can throw returns an [outcome].
    - The clock ([Date.now()]) is an explicit argument; one call of an
      exported function reads one instant.
    - Asynchronous code is modelled by its sequential result; the outcome of
      the [n]-th invocation of an external operation is given by a function
      of [n]. *)

From Stdlib Require Import ZArith QArith Qabs Qround Lqa String Ascii List.
From stdpp Require Import base gmap strings list pretty.

Set Warnings "-register-all".

(** ** JavaScript values *)

Module Js.

Inductive value :=
| VUndefined
| VNull
| VBool (b : bool)
| VNum (q : Q)
| VStr (s : string)
| VArr (xs : list value)
| VObj (fields : list (string * value)).

(** What a [throw] carries: an [Error] instance (with its [message]) or any
    other value. *)
Inductive exn :=
| ErrorObj (message : string)
| Thrown (v : value).

Inductive outcome (A : Type) :=
| Ok (a : A)
| Throw (e : exn).
Arguments Ok {A} a.
Arguments Throw {A} e.

Definition bind {A B} (m : outcome A) (k : A → outcome B) : outcome B :=
  match m with
  | Ok a => k a
  | Throw e => Throw e
  end.

(** [try { body } catch (e) { handler e }] *)
Definition try_catch {A} (body : outcome A) (handler : exn → outcome A) : outcome A :=
  match body with
  | Ok a => Ok a
  | Throw e => handler e
  end.

Definition is_ok {A} (m : outcome A) : bool :=
  match m with Ok _ => true | Throw _ => false end.

(** The message of the engine's [TypeError]s is never inspected by the code. *)
Definition TypeError : exn := ErrorObj "TypeError".

(** [error instanceof Error ? error.message : 'Unknown error'] *)
Definition message_or_unknown (e : exn) : string :=
  match e with
  | ErrorObj m => m
  | Thrown _ => "Unknown error"
  end.

(** The caught error used as a value ([details: error]). *)
Definition exn_value (e : exn) : value :=
  match e with
  | ErrorObj m => VObj [("message", VStr m)]
  | Thrown v => v
  end.

Definition num_is_zero (q : Q) : bool := Qeq_bool q 0.

(** ToBoolean *)
Definition truthy (v : value) : bool :=
  match v with
  | VUndefined | VNull => false
  | VBool b => b
  | VNum q => negb (num_is_zero q)
  | VStr s => negb (String.eqb s "")
  | VArr _ | VObj _ => true
  end.

(** [a || b] on already evaluated operands. *)
Definition or_else (a b : value) : value := if truthy a then a else b.

Definition nullish (v : value) : bool :=
  match v with VUndefined | VNull => true | _ => false end.

Fixpoint obj_get (fields : list (string * value)) (k : string) : value :=
  match fields with
  | [] => VUndefined
  | (k', v) :: rest => if String.eqb k' k then v else obj_get rest k
  end.

Fixpoint obj_has (fields : list (string * value)) (k : string) : bool :=
  match fields with
  | [] => false
  | (k', _) :: rest => String.eqb k' k || obj_has rest k
  end.

(** [o[k] = v]: overwrite in place, or append a new property. *)
Fixpoint obj_set (fields : list (string * value)) (k : string) (v : value)
  : list (string * value) :=
  match fields with
  | [] => [(k, v)]
  | (k', v') :: rest =>
      if String.eqb k' k then (k, v) :: rest else (k', v') :: obj_set rest k v
  end.

(** [v.k] *)
Definition get (v : value) (k : string) : outcome value :=
  match v with
  | VUndefined | VNull => Throw TypeError
  | VObj fields => Ok (obj_get fields k)
  | _ => Ok VUndefined
  end.

(** [v?.k] *)
Definition get_opt (v : value) (k : string) : value :=
  match v with
  | VObj fields => obj_get fields k
  | _ => VUndefined
  end.

(** ASCII [toLowerCase]. *)
Definition lower_ascii (c : ascii) : ascii :=
  let n := nat_of_ascii c in
  if (65 <=? n)%nat && (n <=? 90)%nat then ascii_of_nat (n + 32) else c.

Fixpoint toLowerCase (s : string) : string :=
  match s with
  | EmptyString => EmptyString
  | String c rest => String (lower_ascii c) (toLowerCase rest)
  end.

(** The ASCII members of [\s]: tab, line feed, vertical tab, form feed,
    carriage return, space. *)
Definition is_space (c : ascii) : bool :=
  let n := nat_of_ascii c in
  ((9 <=? n)%nat && (n <=? 13)%nat) || (n =? 32)%nat.

(** [s.replace(/\s+/g, '')] *)
Fixpoint strip_spaces (s : string) : string :=
  match s with
  | EmptyString => EmptyString
  | String c rest =>
      if is_space c then strip_spaces rest else String c (strip_spaces rest)
  end.

(** [s.replace(/\s+/g, '_')]: every maximal run of white space becomes one
    underscore.  [in_run] tells whether the previous character was white
    space. *)
Fixpoint underscore_spaces_from (in_run : bool) (s : string) : string :=
  match s with
  | EmptyString => EmptyString
  | String c rest =>
      if is_space c then
        if in_run then underscore_spaces_from true rest
        else String "_" (underscore_spaces_from true rest)
      else String c (underscore_spaces_from false rest)
  end.

Definition underscore_spaces (s : string) : string := underscore_spaces_from false s.

(** Rounding to one decimal as [Number.prototype.toFixed(1)] does it: the
    integer [n] closest to [10 * |x|], the larger one on a tie. *)
Definition tenths (x : Q) : Z := Qfloor (Qabs x * 10 + (1 # 2))%Q.

Definition is_negative (x : Q) : bool :=
  match Qcompare x 0 with Lt => true | _ => false end.

(** [x.toFixed(1)] (for [|x| < 1e21], where the result is in fixed notation). *)
Definition toFixed1 (x : Q) : string :=
  let n := tenths x in
  (if is_negative x then "-" else "")
    +:+ pretty (n / 10)%Z +:+ "." +:+ pretty (n mod 10)%Z.

(** [parseFloat(x.toFixed(1))] *)
Definition round1 (x : Q) : Q :=
  let n := tenths x in
  Qred (if is_negative x then Qopp (n # 10) else n # 10).

(** [a > b] on numbers. *)
Definition num_gt (a b : Q) : bool :=
  match Qcompare a b with Gt => true | _ => false end.

Definition join_strings (sep : string) (parts : list string) : string :=
  match parts with
  | [] => ""
  | p :: rest => fold_left (λ acc q, acc +:+ sep +:+ q) rest p
  end.

Section ToString.
(** [Number::toString], the shortest decimal that reads back as the same
    double, is a primitive of the language and is left abstract. *)
Variable num_to_string : Q → string.

(** ToString.  An array is joined with commas, [undefined] and [null]
    elements giving the empty string; a plain object gives
    ["[object Object]"] unless an own, not callable, [toString] property
    hides the inherited method, in which case the conversion throws. *)
Fixpoint to_string (v : value) : outcome string :=
  match v with
  | VUndefined => Ok "undefined"
  | VNull => Ok "null"
  | VBool true => Ok "true"
  | VBool false => Ok "false"
  | VNum q => Ok (num_to_string q)
  | VStr s => Ok s
  | VArr xs =>
      let fix elems (xs : list value) : outcome (list string) :=
        match xs with
        | [] => Ok []
        | x :: rest =>
            bind (if nullish x then Ok "" else to_string x) (λ s,
            bind (elems rest) (λ ss, Ok (s :: ss)))
        end in
      bind (elems xs) (λ ss, Ok (join_strings "," ss))
  | VObj fields =>
      if obj_has fields "toString" then Throw TypeError
      else Ok "[object Object]"
  end.

(** One element of [Array.prototype.join]. *)
Definition join_elem (v : value) : outcome string :=
  if nullish v then Ok "" else to_string v.

Fixpoint join_elems (xs : list value) : outcome (list string) :=
  match xs with
  | [] => Ok []
  | x :: rest =>
      bind (join_elem x) (λ s, bind (join_elems rest) (λ ss, Ok (s :: ss)))
  end.

(** [xs.join(sep)] *)
Definition join (sep : string) (xs : list value) : outcome string :=
  bind (join_elems xs) (λ ss, Ok (join_strings sep ss)).
End ToString.

End Js.

(** [outcome] is an error monad; stdpp's [x ← m; k] is its sequencing. *)
#[global] Instance outcome_ret : MRet Js.outcome := λ A a, Js.Ok a.
#[global] Instance outcome_bind : MBind Js.outcome := λ A B k m, Js.bind m k.

(** ** Property names that plain objects inherit *)

Module Names.

(** The members of [Object.prototype]. *)
Definition prototype_members : list string :=
  ["constructor"; "__proto__"; "__defineGetter__"; "__defineSetter__";
   "__lookupGetter__"; "__lookupSetter__"; "hasOwnProperty"; "isPrototypeOf";
   "propertyIsEnumerable"; "toLocaleString"; "toString"; "valueOf"].

(** The properties that the quota tracker writes on [Object.prototype] when
    it is called with the model name [__proto__]. *)
Definition tracker_fields : list string :=
  ["requestCount"; "lastReset"; "isBackingOff"; "nextAvailable"].

(** A name under which a plain object of the program can have an inherited
    property.  The tables of the program ([rateLimits], [QUOTA_LIMITS],
    [categoryMapping], score maps) are plain objects read with [table[key]];
    they are modelled by finite maps, which is what they are for every key
    that is not such a name. *)
Definition inherited (key : string) : bool :=
  existsb (String.eqb key) (prototype_members ++ tracker_fields).

End Names.

(** ** Response cache ([utils/api-integrations.ts]) *)

Module Cache.
Import Js.

Record CacheEntry := {
  data : value;
  timestamp : Z;
  expiry : Z
}.

(** [24 * 60 * 60 * 1000]: 24 hours in milliseconds. *)
Definition CACHE_TTL : Z := 24 * 60 * 60 * 1000.

(** [getFromCache]: the value found ([null] on a miss) and the cache after
    the call, which has lost the entry when it had expired. *)
Definition getFromCache (cacheKey : string) (now : Z)
    (apiCache : gmap string CacheEntry) : value * gmap string CacheEntry :=
  match apiCache !! cacheKey with
  | None => (VNull, apiCache)
  | Some cachedItem =>
      if (CACHE_TTL <? now - timestamp cachedItem)%Z
      then (VNull, delete cacheKey apiCache)
      else (data cachedItem, apiCache)
  end.

Definition storeInCache (cacheKey : string) (d : value) (now : Z)
    (apiCache : gmap string CacheEntry) : gmap string CacheEntry :=
  <[cacheKey := {| data := d; timestamp := now; expiry := (now + CACHE_TTL)%Z |}]>
    apiCache.

Definition city_cache_key (cityName : string) : string :=
  "city_data_" +:+ underscore_spaces (toLowerCase cityName).

Definition getCachedCityData (cityName : string) (now : Z)
    (apiCache : gmap string CacheEntry) : value * gmap string CacheEntry :=
  getFromCache (city_cache_key cityName) now apiCache.

End Cache.

(** ** Quota tracker ([utils/rate-limiter.ts])

    The functions [canMakeRequest], [registerRequest], [handleRateLimitError]
    and [getWaitTime] over the table [rateLimits].  The class of
    [utils/RateLimiter.ts] is another limiter, one token bucket for the whole
    process whose [acquireToken] waits and never refuses; of it only the call
    made by [executeWithRetry] appears below, as the event [Acquire]. *)

Module RateLimit.

Record RateLimitInfo := {
  requestCount : Z;
  lastReset : Z;
  isBackingOff : bool;
  nextAvailable : Z
}.

(** [QUOTA_LIMITS], calls per minute. *)
Definition QUOTA_LIMITS (modelName : string) : option Z :=
  if String.eqb modelName "gemini-1.5-pro" then Some 10%Z
  else if String.eqb modelName "embedding-001" then Some 20%Z
  else if String.eqb modelName "default" then Some 5%Z
  else None.

(** [QUOTA_LIMITS[modelName] || QUOTA_LIMITS.default]; no entry of the table
    is zero. *)
Definition quota (modelName : string) : Z :=
  match QUOTA_LIMITS modelName with
  | Some q => q
  | None => 5%Z
  end.

(** [model || 'default'] *)
Definition modelKey (model : string) : string :=
  if String.eqb model "" then "default" else model.

Definition initializeModelLimit (now : Z) : RateLimitInfo :=
  {| requestCount := 0; lastReset := now; isBackingOff := false;
     nextAvailable := now |}.

(** The entry of a model, created on first use. *)
Definition tracked (modelName : string) (now : Z)
    (rateLimits : gmap string RateLimitInfo) : RateLimitInfo :=
  match rateLimits !! modelName with
  | Some info => info
  | None => initializeModelLimit now
  end.

(** The first half of [canMakeRequest]: the end of a backoff period clears
    the counter and starts a new window.  [None] stands for [return false]. *)
Definition after_backoff (now : Z) (limitInfo : RateLimitInfo) : option RateLimitInfo :=
  if isBackingOff limitInfo then
    if (now <? nextAvailable limitInfo)%Z then None
    else Some {| requestCount := 0; lastReset := now; isBackingOff := false;
                 nextAvailable := nextAvailable limitInfo |}
  else Some limitInfo.

(** The counter is cleared when more than a minute has passed. *)
Definition after_window (now : Z) (limitInfo : RateLimitInfo) : RateLimitInfo :=
  if (60000 <? now - lastReset limitInfo)%Z then
    {| requestCount := 0; lastReset := now;
       isBackingOff := isBackingOff limitInfo;
       nextAvailable := nextAvailable limitInfo |}
  else limitInfo.

Definition canMakeRequest (model : string) (now : Z)
    (rateLimits : gmap string RateLimitInfo) : bool * gmap string RateLimitInfo :=
  let modelName := modelKey model in
  let limitInfo := tracked modelName now rateLimits in
  match after_backoff now limitInfo with
  | None => (false, <[modelName := limitInfo]> rateLimits)
  | Some limitInfo =>
      let limitInfo := after_window now limitInfo in
      ((requestCount limitInfo <? quota modelName)%Z,
       <[modelName := limitInfo]> rateLimits)
  end.

Definition registerRequest (model : string) (now : Z)
    (rateLimits : gmap string RateLimitInfo) : gmap string RateLimitInfo :=
  let modelName := modelKey model in
  let limitInfo := tracked modelName now rateLimits in
  <[modelName := {| requestCount := (requestCount limitInfo + 1)%Z;
                    lastReset := lastReset limitInfo;
                    isBackingOff := isBackingOff limitInfo;
                    nextAvailable := nextAvailable limitInfo |}]> rateLimits.

Definition handleRateLimitError (model : string) (retryAfterSec : Z) (now : Z)
    (rateLimits : gmap string RateLimitInfo) : gmap string RateLimitInfo :=
  let modelName := modelKey model in
  let limitInfo := tracked modelName now rateLimits in
  <[modelName := {| requestCount := requestCount limitInfo;
                    lastReset := lastReset limitInfo;
                    isBackingOff := true;
                    nextAvailable := (now + retryAfterSec * 1000)%Z |}]> rateLimits.

Definition getWaitTime (model : string) (now : Z)
    (rateLimits : gmap string RateLimitInfo) : Z :=
  let modelName := modelKey model in
  match rateLimits !! modelName with
  | None => 0%Z
  | Some limitInfo =>
      if isBackingOff limitInfo then Z.max 0 (nextAvailable limitInfo - now)
      else if (quota modelName <=? requestCount limitInfo)%Z
           then Z.max 0 (lastReset limitInfo + 60000 - now)
           else 0%Z
  end.

(** A caller's use of the tracker, as in [utils/gemini-tools.ts]: a request is
    made, and registered, only when the check admits it. *)
Definition guarded_request (model : string) (now : Z)
    (rateLimits : gmap string RateLimitInfo) : bool * gmap string RateLimitInfo :=
  let '(ok, rateLimits) := canMakeRequest model now rateLimits in
  if ok then (true, registerRequest model now rateLimits) else (false, rateLimits).

(** Calls of the exported functions, each at its instant. *)
Inductive call :=
| CanMakeRequest (model : string) (now : Z)
| RegisterRequest (model : string) (now : Z)
| HandleRateLimitError (model : string) (retryAfterSec : Z) (now : Z).

Definition call_time (c : call) : Z :=
  match c with
  | CanMakeRequest _ t | RegisterRequest _ t | HandleRateLimitError _ _ t => t
  end.

(** A run of calls: the answers of the admission checks, in order, each with
    the model it was asked for, and the final table. *)
Fixpoint run (calls : list call) (rateLimits : gmap string RateLimitInfo)
  : list (string * bool) * gmap string RateLimitInfo :=
  match calls with
  | [] => ([], rateLimits)
  | CanMakeRequest m t :: rest =>
      let '(ok, rateLimits) := canMakeRequest m t rateLimits in
      let '(answers, final) := run rest rateLimits in
      ((modelKey m, ok) :: answers, final)
  | RegisterRequest m t :: rest => run rest (registerRequest m t rateLimits)
  | HandleRateLimitError m s t :: rest => run rest (handleRateLimitError m s t rateLimits)
  end.

(** [n] guarded requests for one model at the given instants. *)
Fixpoint guarded_requests (model : string) (times : list Z)
    (rateLimits : gmap string RateLimitInfo) : list bool :=
  match times with
  | [] => []
  | t :: rest =>
      let '(ok, rateLimits) := guarded_request model t rateLimits in
      ok :: guarded_requests model rest rateLimits
  end.

(** The end of the backoff that is pending for a model, if there is one. *)
Definition pending_backoff (info : RateLimitInfo) : option Z :=
  if isBackingOff info then Some (nextAvailable info) else None.

Definition before (now : Z) (pending : option Z) : Prop :=
  match pending with
  | Some until => (now < until)%Z
  | None => True
  end.

(** Every admission check that a run makes for [modelName] comes before the
    end of the backoff that is pending for the model at that point of the
    run; [pending] is the backoff pending at the start. *)
Fixpoint before_backoff_end (modelName : string) (pending : option Z)
    (calls : list call) : Prop :=
  match calls with
  | [] => True
  | CanMakeRequest m t :: rest =>
      (modelKey m = modelName → before t pending)
      ∧ before_backoff_end modelName pending rest
  | RegisterRequest _ _ :: rest => before_backoff_end modelName pending rest
  | HandleRateLimitError m s t :: rest =>
      before_backoff_end modelName
        (if decide (modelKey m = modelName) then Some (t + s * 1000)%Z else pending)
        rest
  end.

End RateLimit.

(** ** Retry executors ([utils/RetryUtil.ts], [withRetry] of [utils/api-tools.ts]) *)

Module Retry.
Import Js.

(** What an execution does, in order: a token is taken from the rate
    limiter, the operation is invoked for the [n]-th time (from 0), the
    executor sleeps. *)
Inductive event :=
| Acquire
| Attempt (n : nat)
| Sleep (ms : Z).

Fixpoint attempts (trace : list event) : list nat :=
  match trace with
  | [] => []
  | Attempt n :: rest => n :: attempts rest
  | _ :: rest => attempts rest
  end.

Fixpoint sleeps (trace : list event) : list Z :=
  match trace with
  | [] => []
  | Sleep ms :: rest => ms :: sleeps rest
  | _ :: rest => sleeps rest
  end.

(** [lastError] before any attempt has failed is [undefined]. *)
Definition thrown_last (lastError : option exn) : exn :=
  match lastError with
  | Some e => e
  | None => Thrown VUndefined
  end.

(** The configuration read by the constructor of [RetryUtil]. *)
Record RetryUtil := {
  maxRetries : nat;
  baseDelay : Z;
  maxDelay : Z
}.

(** [apiConfig.retry] *)
Definition apiConfig_retry : RetryUtil :=
  {| maxRetries := 3; baseDelay := 1000; maxDelay := 10000 |}.

Definition calculateDelay (self : RetryUtil) (retryCount : nat) : Z :=
  let exponentialDelay := (baseDelay self * 2 ^ Z.of_nat retryCount)%Z in
  Z.min exponentialDelay (maxDelay self).

Section Executors.
Context {T : Type}.
(** The outcome of the [n]-th invocation of the wrapped operation. *)
Variable operation : nat → outcome T.

(** The loop of [executeWithRetry], from the iteration [retryCount];
    [fuel] is the number of iterations left, [maxRetries + 1 - retryCount].
    [rateLimiter.acquireToken()] neither throws nor refuses. *)
Fixpoint executeWithRetry_from (self : RetryUtil) (shouldRetry : exn → bool)
    (fuel retryCount : nat) (lastError : option exn) : outcome T * list event :=
  match fuel with
  | O => (Throw (thrown_last lastError), [])
  | S fuel =>
      match operation retryCount with
      | Ok r => (Ok r, [Acquire; Attempt retryCount])
      | Throw error =>
          if (retryCount =? maxRetries self)%nat || negb (shouldRetry error)
          then (Throw error, [Acquire; Attempt retryCount])
          else
            let delay := calculateDelay self retryCount in
            let '(r, trace) :=
              executeWithRetry_from self shouldRetry fuel (S retryCount) (Some error) in
            (r, Acquire :: Attempt retryCount :: Sleep delay :: trace)
      end
  end.

Definition executeWithRetry (self : RetryUtil) (shouldRetry : exn → bool)
  : outcome T * list event :=
  executeWithRetry_from self shouldRetry (S (maxRetries self)) 0 None.

(** The default second argument, [() => true]. *)
Definition always_retry (e : exn) : bool := true.

(** The loop of [withRetry], from the iteration [attempt] (counted from 1)
    with the current [options.delay]. *)
Fixpoint withRetry_from (retries : nat) (fuel attempt : nat) (delay : Z)
    (lastError : option exn) : outcome T * list event :=
  match fuel with
  | O => (Throw (thrown_last lastError), [])
  | S fuel =>
      match operation (attempt - 1)%nat with
      | Ok r => (Ok r, [Attempt (attempt - 1)])
      | Throw error =>
          if (attempt <=? retries)%nat then
            let '(r, trace) :=
              withRetry_from retries fuel (S attempt) (delay * 2)%Z (Some error) in
            (r, Attempt (attempt - 1) :: Sleep delay :: trace)
          else
            let '(r, trace) :=
              withRetry_from retries fuel (S attempt) delay (Some error) in
            (r, Attempt (attempt - 1) :: trace)
      end
  end.

Definition withRetry (retries : nat) (delay : Z) : outcome T * list event :=
  withRetry_from retries (S retries) 1 delay None.
End Executors.

(** The delay that the specification gives for the wait before the [n]-th
    retry ([n] from 1): [min(maxDelayMs, baseDelayMs * 2^(n-1))]. *)
Definition spec_delay (maxDelayMs baseDelayMs : Z) (n : nat) : Z :=
  Z.min maxDelayMs (baseDelayMs * 2 ^ (Z.of_nat n - 1)).

End Retry.

(** ** Tools ([utils/api-tools.ts]) *)

Module Tools.
Import Js.

(** [searchWeb]: [api_key] is [process.env.SERPER_API_KEY], [response] the
    outcome of the HTTP call, its [data] when it succeeds.  Every exception
    is caught, so the function returns in all cases. *)
Definition searchWeb (api_key : value) (response : outcome value) : value :=
  if negb (truthy api_key) then
    VObj [("error", VStr "Configuration error");
          ("details", VStr "Serper API key is not configured")]
  else
    match
      data ← response;
      organic ← get data "organic";
      knowledgeGraph ← get data "knowledgeGraph";
      answerBox ← get data "answerBox";
      mret (VObj [("organic", or_else organic (VArr []));
                  ("knowledgeGraph", or_else knowledgeGraph (VObj []));
                  ("answerBox", or_else answerBox (VObj []))])
    with
    | Ok result => result
    | Throw error =>
        VObj [("error", VStr "Failed to search the web");
              ("details", exn_value error)]
    end.

(** [summarizeWebpage]: [response] is the outcome of the request to the
    reader service for the given url. *)
Definition summarizeWebpage (response : outcome value) : value :=
  match
    data ← response;
    summary ← get data "summary";
    key_points ← get data "key_points";
    mret (VObj [("summary", or_else summary (VStr ""));
                ("keyPoints", or_else key_points (VArr []))])
  with
  | Ok result => result
  | Throw error =>
      VObj [("error", VStr "Failed to summarize webpage");
            ("details", exn_value error)]
  end.

(** [organic.length > 0 ? organic.length : 0], for the values [organic] can
    be: an array, a string, or any other value, whose [length] is then taken
    not to be a positive number. *)
Definition length_of (v : value) : nat :=
  match v with
  | VArr xs => length xs
  | VStr s => String.length s
  | _ => 0
  end.

(** [organic[i]] *)
Definition index (v : value) (i : nat) : value :=
  match v with
  | VArr xs => default VUndefined (xs !! i)
  | VStr s => match String.get i s with
              | Some c => VStr (String c EmptyString)
              | None => VUndefined
              end
  | _ => VUndefined
  end.

Section Summaries.
(** The reader service: the outcome of the request made in iteration [i]
    of the loop for the url [link]. *)
Variable reader : nat → value → outcome value.

(** One iteration of the loop, past the test of [organic[i].link]: the
    inner [try] block, which pushes a summary that has no [error]. *)
Definition summarize_one (organic : value) (i : nat) (link : value)
    (summaries : list value) : list value :=
  let summary := summarizeWebpage (reader i link) in
  match
    error ← get summary "error";
    if negb (truthy error) then
      title ← get (index organic i) "title";
      text ← get summary "summary";
      keyPoints ← get summary "keyPoints";
      mret (summaries ++
              [VObj [("title", title); ("source", link);
                     ("summary", text); ("keyPoints", keyPoints)]])
    else mret summaries
  with
  | Ok summaries => summaries
  | Throw _ => summaries
  end.

(** The loop [for (let i = 0; i < Math.min(3, organic.length); i++)] from
    iteration [i], with [fuel] iterations left.  The result is the array
    [summaries] and the urls handed to [summarizeWebpage], in order; [Throw]
    is an exception that leaves the loop. *)
Fixpoint summarize_from (organic : value) (fuel i : nat)
    (summaries : list value) (requested : list value)
  : outcome (list value) * list value :=
  match fuel with
  | O => (Ok summaries, requested)
  | S fuel =>
      match get (index organic i) "link" with
      | Throw e => (Throw e, requested)
      | Ok link =>
          if truthy link then
            summarize_from organic fuel (S i)
              (summarize_one organic i link summaries) (requested ++ [link])
          else summarize_from organic fuel (S i) summaries requested
      end
  end.

(** [getHousingMarketData], given what [searchWeb] returned: its result
    and the urls that were summarized. *)
Definition getHousingMarketData (searchResults : value) : value * list value :=
  match get searchResults "organic" with
  | Throw error =>
      (VObj [("error", VStr "Failed to get housing market data");
             ("details", exn_value error)], [])
  | Ok organic =>
      let '(summaries, requested) :=
        if truthy organic && (0 <? length_of organic)%nat
        then summarize_from organic (Nat.min 3 (length_of organic)) 0 [] []
        else (Ok [], []) in
      match summaries with
      | Ok summaries =>
          (VObj [("searchResults", or_else organic (VArr []));
                 ("summaries", VArr summaries)], requested)
      | Throw error =>
          (VObj [("error", VStr "Failed to get housing market data");
                 ("details", exn_value error)], requested)
      end
  end.

(** What one search result contributes to [summaries] when the loop visits
    it in iteration [i]: nothing when it has no link or when its summary
    carries an [error]. *)
Definition summary_entry (i : nat) (result : value) : option value :=
  let link := get_opt result "link" in
  if truthy link then
    let summary := summarizeWebpage (reader i link) in
    if truthy (get_opt summary "error") then None
    else Some (VObj [("title", get_opt result "title"); ("source", link);
                     ("summary", get_opt summary "summary");
                     ("keyPoints", get_opt summary "keyPoints")])
  else None.

Fixpoint summary_entries (i : nat) (results : list value) : list value :=
  match results with
  | [] => []
  | result :: rest =>
      match summary_entry i result with
      | Some entry => entry :: summary_entries (S i) rest
      | None => summary_entries (S i) rest
      end
  end.

(** The links of search results, those that are truthy. *)
Definition links (results : list value) : list value :=
  filter (λ link, truthy link = true) ((λ result, get_opt result "link") <$> results).

End Summaries.

End Tools.

(** ** Parsed requests ([modules/intent/IntentParser.ts]) *)

Module Intent.

Inductive QueryIntent :=
| CITY_INFO
| CITY_COMPARISON
| NEIGHBORHOOD_RECOMMENDATION
| HOUSING_MARKET
| JOB_OPPORTUNITIES
| SCHOOL_DISTRICTS
| TRANSPORTATION
| COST_OF_LIVING
| LIFESTYLE_MATCH
| RELOCATION_LOGISTICS
| GENERAL_ADVICE
| OTHER.

(** The parts of [ParsedIntent] that orchestration and fusion read;
    [cities] is [locations.cities || []]. *)
Record ParsedIntent := {
  intent : QueryIntent;
  cities : list string;
  originalQuery : string
}.

End Intent.

(** The per-provider result map, [APIResults] or [Record<string, any>]. *)
Definition field (results : gmap string Js.value) (k : string) : Js.value :=
  default Js.VUndefined (results !! k).

(** ** Fusion ([modules/fusion/DataFusionEngine.ts]) *)

Module Fusion.
Import Js.

(** The object built for [housingMarket], [jobMarket], [transportation] and
    [schools]: [summary] is a string or [undefined], [sources] an array or
    [undefined]. *)
Module Summary.
Record t := {
  summary : option string;
  sources : option (list value);
  highlights : list value
}.
End Summary.

(** [CityData].  An optional field that was not assigned, or was assigned
    [undefined], is [None] ([VUndefined] for [fullName]).  The field
    [highlights] of the interface is never assigned. *)
Record CityData := {
  name : string;
  fullName : value;
  scores : option (gmap string Q);
  summary : option string;
  neighborhoods : option (list value);
  housingMarket : option Summary.t;
  jobMarket : option Summary.t;
  transportation : option Summary.t;
  schools : option Summary.t;
  news : option (list value);
  webResults : option (list value)
}.

Record CategoryResult := {
  best : string;
  difference : string
}.

Record Comparison := {
  winner : string;
  categories : gmap string CategoryResult
}.

Record FusedData := {
  cities : list CityData;
  comparison : option Comparison;
  generalInfo : option (list value);
  originalQuery : string;
  intent : Intent.QueryIntent;
  error : option string
}.

(** The table [categoryMapping] of [extractScores]. *)
Definition categoryMapping (key : string) : option string :=
  if String.eqb key "Housing" then Some "housing"
  else if String.eqb key "Cost of Living" then Some "costOfLiving"
  else if String.eqb key "Safety" then Some "safety"
  else if String.eqb key "Education" then Some "education"
  else if String.eqb key "Economy" then Some "economy"
  else if String.eqb key "Environmental Quality" then Some "environment"
  else if String.eqb key "Healthcare" then Some "healthcare"
  else if String.eqb key "Business Freedom" then Some "business"
  else if String.eqb key "Outdoors" then Some "outdoors"
  else if String.eqb key "Commute" then Some "commute"
  else if String.eqb key "Leisure & Culture" then Some "culture"
  else if String.eqb key "Tolerance" then Some "tolerance"
  else if String.eqb key "Internet Access" then Some "internet"
  else if String.eqb key "Startups" then Some "startups"
  else None.

(** [Array.prototype.flatMap]: an array result is spliced in, any other
    result is one element. *)
Definition flatten_one (v : value) : list value :=
  match v with
  | VArr xs => xs
  | _ => [v]
  end.

Section WithToString.
Variable num_to_string : Q → string.

(** [categoryMapping[name] || name.toLowerCase().replace(/\s+/g, '')] *)
Definition mappedName (name : value) : outcome string :=
  key ← to_string num_to_string name;
  match categoryMapping key with
  | Some mapped => mret mapped
  | None =>
      match name with
      | VStr s => mret (strip_spaces (toLowerCase s))
      | _ => Throw TypeError
      end
  end.

(** The callback of [categories.forEach]. *)
Definition add_score (scores : gmap string Q) (category : value)
  : outcome (gmap string Q) :=
  name ← get category "name";
  mapped ← mappedName name;
  score ← get category "score_out_of_10";
  match score with
  | VNum q => mret (<[mapped := round1 q]> scores)
  | _ => Throw TypeError
  end.

Fixpoint add_scores (scores : gmap string Q) (categories : list value)
  : outcome (gmap string Q) :=
  match categories with
  | [] => mret scores
  | category :: rest =>
      scores ← add_score scores category;
      add_scores scores rest
  end.

Definition extractScores (cityInfo : value) : option (gmap string Q) :=
  let urbanArea := get_opt cityInfo "urbanArea" in
  if negb (truthy cityInfo) || negb (truthy urbanArea)
     || negb (truthy (get_opt urbanArea "scores"))
  then None
  else
    match or_else (get_opt (get_opt urbanArea "scores") "categories") (VArr []) with
    | VArr categories =>
        match add_scores ∅ categories with
        | Ok scores => Some scores
        | Throw _ => None
        end
    | _ => None
    end.

Definition neighborhood_of (feature : value) : outcome value :=
  properties ← get feature "properties";
  geometry ← get feature "geometry";
  mret (VObj
    [("name", or_else (or_else (get_opt properties "neighborhood")
                               (get_opt properties "name")) (VStr "Unknown"));
     ("city", or_else (get_opt properties "city") (VStr "Unknown"));
     ("state", or_else (get_opt properties "state") (VStr "Unknown"));
     ("country", or_else (get_opt properties "country") (VStr "Unknown"));
     ("coordinates", or_else (get_opt geometry "coordinates") VNull)]).

(** The common shape of the three list extractors: [[]] when the guard
    fails, when [items] is not an array (it has no [map]) and when the
    callback throws. *)
Definition extract_list (container : value) (key : string)
    (callback : value → outcome value) : list value :=
  if negb (truthy container) || negb (truthy (get_opt container key)) then []
  else
    match get_opt container key with
    | VArr items =>
        match mapM callback items with
        | Ok result => result
        | Throw _ => []
        end
    | _ => []
    end.

Definition extractNeighborhoods (neighborhoodInfo : value) : list value :=
  extract_list neighborhoodInfo "features" neighborhood_of.

Definition article_of (article : value) : outcome value :=
  title ← get article "title";
  description ← get article "description";
  url ← get article "url";
  source ← get article "source";
  source_name ← get source "name";
  publishedAt ← get article "publishedAt";
  mret (VObj [("title", title); ("description", description); ("url", url);
              ("source", source_name); ("publishedAt", publishedAt)]).

Definition extractNews (newsInfo : value) : list value :=
  extract_list newsInfo "articles" article_of.

Definition web_result_of (result : value) : outcome value :=
  title ← get result "title";
  snippet ← get result "snippet";
  link ← get result "link";
  mret (VObj [("title", title); ("description", snippet); ("url", link)]).

Definition extractWebResults (webSearch : value) : list value :=
  extract_list webSearch "organic" web_result_of.

(** The object literal that [processCityData] builds, four times over, from
    a truthy result: for [housingMarket], [jobOpportunities],
    [transportation] and [schoolDistricts]. *)
Definition summary_block (result : value) : outcome Summary.t :=
  let summaries := get_opt result "summaries" in
  if truthy summaries then
    match summaries with
    | VArr items =>
        texts ← mapM (λ s, get s "summary") items;
        text ← join num_to_string " " texts;
        sources ← mapM (λ s, get s "source") items;
        keyPoints ← mapM (λ s, k ← get s "keyPoints"; mret (or_else k (VArr []))) items;
        mret {| Summary.summary := Some text;
                Summary.sources := Some sources;
                Summary.highlights := concat (flatten_one <$> keyPoints) |}
    | _ => Throw TypeError
    end
  else
    mret {| Summary.summary := None; Summary.sources := None;
            Summary.highlights := [] |}.

Definition optional_block (result : value) : outcome (option Summary.t) :=
  if truthy result then block ← summary_block result; mret (Some block)
  else mret None.

(** The numbers among the own properties of [estimatedScores]. *)
Definition own_properties (v : value) : list (string * value) :=
  match v with
  | VObj fields => (λ k, (k, obj_get fields k)) <$> (fst <$> fields)
  | VArr xs => imap (λ i x, (pretty i, x)) xs
  | VStr s => imap (λ i c, (pretty i, VStr (String c EmptyString))) (list_ascii_of_string s)
  | _ => []
  end.

Definition add_estimated (scores : gmap string Q) (entry : string * value)
  : gmap string Q :=
  match entry.2 with
  | VNum q => <[entry.1 := q]> scores
  | _ => scores
  end.

(** The part of [processCityData] that reads [apiResults.cityInfo]: the
    fields [fullName], [scores] and [summary]. *)
Definition city_info_fields (cityName : string) (cityInfo : value)
  : value * option (gmap string Q) * option string :=
  if truthy cityInfo then
    let urbanArea := get_opt cityInfo "urbanArea" in
    let city := get_opt cityInfo "city" in
    let '(fullName, scores) :=
      if truthy urbanArea then
        (or_else (get_opt urbanArea "fullName") (get_opt urbanArea "name"),
         extractScores cityInfo)
      else if truthy city then
        (or_else (get_opt city "full_name") (get_opt city "name"), None)
      else (VUndefined, None) in
    let fallbackData := get_opt cityInfo "fallbackData" in
    if truthy fallbackData then
      let estimatedScores := get_opt fallbackData "estimatedScores" in
      (fullName,
       Some (if truthy estimatedScores
             then fold_left add_estimated (own_properties estimatedScores) ∅
             else ∅),
       Some ("Information about " +:+ cityName +:+ " (using fallback data)"))
    else (fullName, scores, None)
  else (VUndefined, None, None).

Definition optional_list (result : value) (extract : value → list value)
  : option (list value) :=
  if truthy result then Some (extract result) else None.

Definition processCityData (cityName : string) (apiResults : gmap string value)
  : outcome CityData :=
  let '(fullName, scores, summary) :=
    city_info_fields cityName (field apiResults "cityInfo") in
  let neighborhoods :=
    optional_list (field apiResults "neighborhoods") extractNeighborhoods in
  let news := optional_list (field apiResults "news") extractNews in
  let webResults := optional_list (field apiResults "webSearch") extractWebResults in
  housingMarket ← optional_block (field apiResults "housingMarket");
  jobMarket ← optional_block (field apiResults "jobOpportunities");
  transportation ← optional_block (field apiResults "transportation");
  schools ← optional_block (field apiResults "schoolDistricts");
  mret {| name := cityName; fullName := fullName; scores := scores;
          summary := summary; neighborhoods := neighborhoods;
          housingMarket := housingMarket; jobMarket := jobMarket;
          transportation := transportation; schools := schools;
          news := news; webResults := webResults |}.
End WithToString.

(** [city.scores?.[category] || 0] *)
Definition score_or_zero (scores : gmap string Q) (category : string) : Q :=
  default 0%Q (scores !! category).

(** The state of the loop of [compareCities]: the object [categories] and the
    counters [city1Wins] and [city2Wins]. *)
Record Tally := {
  tally_categories : gmap string CategoryResult;
  city1Wins : nat;
  city2Wins : nat
}.

(** The callback of [allCategories.forEach]. *)
Definition compare_category (name1 name2 : string) (scores1 scores2 : gmap string Q)
    (category : string) (acc : Tally) : Tally :=
  let score1 := score_or_zero scores1 category in
  let score2 := score_or_zero scores2 category in
  if num_gt score1 score2 then
    {| tally_categories :=
         <[category := {| best := name1; difference := toFixed1 (score1 - score2) |}]>
           (tally_categories acc);
       city1Wins := S (city1Wins acc); city2Wins := city2Wins acc |}
  else if num_gt score2 score1 then
    {| tally_categories :=
         <[category := {| best := name2; difference := toFixed1 (score2 - score1) |}]>
           (tally_categories acc);
       city1Wins := city1Wins acc; city2Wins := S (city2Wins acc) |}
  else
    {| tally_categories :=
         <[category := {| best := "tie"; difference := "0.0" |}]> (tally_categories acc);
       city1Wins := city1Wins acc; city2Wins := city2Wins acc |}.

(** [new Set([...Object.keys(city1.scores), ...Object.keys(city2.scores)])] *)
Definition allCategories (scores1 scores2 : gmap string Q) : gset string :=
  dom scores1 ∪ dom scores2.

Definition tally (name1 name2 : string) (scores1 scores2 : gmap string Q) : Tally :=
  set_fold (compare_category name1 name2 scores1 scores2)
    {| tally_categories := ∅; city1Wins := 0; city2Wins := 0 |}
    (allCategories scores1 scores2).

Definition compareCities (cities : list CityData) : option Comparison :=
  match cities with
  | city1 :: city2 :: _ =>
      match scores city1, scores city2 with
      | Some scores1, Some scores2 =>
          let t := tally (name city1) (name city2) scores1 scores2 in
          Some {| winner :=
                    if (city2Wins t <? city1Wins t)%nat then name city1
                    else if (city1Wins t <? city2Wins t)%nat then name city2
                    else "tie";
                  categories := tally_categories t |}
      | _, _ => None
      end
  | _ => None
  end.

(** The entry that the loop writes for a category. *)
Definition category_entry (name1 name2 : string) (scores1 scores2 : gmap string Q)
    (category : string) : CategoryResult :=
  let score1 := score_or_zero scores1 category in
  let score2 := score_or_zero scores2 category in
  if num_gt score1 score2 then
    {| best := name1; difference := toFixed1 (score1 - score2) |}
  else if num_gt score2 score1 then
    {| best := name2; difference := toFixed1 (score2 - score1) |}
  else {| best := "tie"; difference := "0.0" |}.

(** The first scores beat the second in a category; a missing score counts
    as 0. *)
Definition beats (scores1 scores2 : gmap string Q) (category : string) : Prop :=
  num_gt (score_or_zero scores1 category) (score_or_zero scores2 category) = true.

#[global] Instance beats_dec scores1 scores2 category :
  Decision (beats scores1 scores2 category).
Proof. unfold beats. apply _. Defined.

(** The number of categories, among those of either score map, that the
    first scores win. *)
Definition category_wins (scores1 scores2 : gmap string Q) : nat :=
  size (filter (beats scores1 scores2) (allCategories scores1 scores2)).

(** The comparison that the specification words, for comparison with the
    code: only the categories present in both score maps are compared, and a
    city is the overall winner when it wins more than half of them. *)
Definition spec_compared (scores1 scores2 : gmap string Q) : gset string :=
  dom scores1 ∩ dom scores2.

Definition spec_wins (scores1 scores2 : gmap string Q) : nat :=
  size (filter (beats scores1 scores2) (spec_compared scores1 scores2)).

Definition spec_winner (name1 name2 : string) (scores1 scores2 : gmap string Q) : string :=
  let compared := size (spec_compared scores1 scores2) in
  if (compared <? 2 * spec_wins scores1 scores2)%nat then name1
  else if (compared <? 2 * spec_wins scores2 scores1)%nat then name2
  else "tie".

Section Merge.
Variable num_to_string : Q → string.

(** The [try] block of [merge]. *)
Definition merge_body (parsedIntent : Intent.ParsedIntent)
    (apiResults : gmap string value) : outcome FusedData :=
  let cities := Intent.cities parsedIntent in
  requested ← mapM (λ cityName, processCityData num_to_string cityName apiResults) cities;
  fallback ←
    (if (length cities =? 0)%nat
        && (truthy (field apiResults "cityInfo")
            || truthy (field apiResults "neighborhoods"))
     then cityData ← processCityData num_to_string "New York" apiResults;
          mret [cityData]
     else mret []);
  let fused := requested ++ fallback in
  mret {| cities := fused;
          comparison := if (2 <=? length fused)%nat then compareCities fused else None;
          generalInfo :=
            if (length fused =? 0)%nat && truthy (field apiResults "webSearch")
            then Some (extractWebResults (field apiResults "webSearch"))
            else None;
          originalQuery := Intent.originalQuery parsedIntent;
          intent := Intent.intent parsedIntent;
          error := None |}.

Definition merge (parsedIntent : Intent.ParsedIntent)
    (apiResults : gmap string value) : FusedData :=
  match merge_body parsedIntent apiResults with
  | Ok fusedData => fusedData
  | Throw _ =>
      {| cities := []; comparison := None; generalInfo := None;
         originalQuery := Intent.originalQuery parsedIntent;
         intent := Intent.intent parsedIntent;
         error := Some "Failed to process API data" |}
  end.
End Merge.

End Fusion.

(** ** Orchestration ([modules/orchestration/APIOrchestrator.ts]) *)

Module Orchestrator.
Import Js.
Import Intent.

(** The functions that [callApi] wraps. *)
Inductive Provider :=
| GetCityInfo
| GetSerperData
| GetNewsData
| GetRadarData
| GetHousingMarketData
| GetJobOpportunitiesData
| GetSchoolDistrictInfo
| GetPublicTransportationInfo
| CompareCostOfLiving
| GetReliableCityData
| SummarizeWebpage.

Definition getRequiredApis (intent : QueryIntent) : list string :=
  let baseApis := ["webSearch"] in
  match intent with
  | CITY_INFO => baseApis ++ ["cityInfo"; "news"]
  | CITY_COMPARISON => baseApis ++ ["cityInfo"; "costOfLiving"; "housingMarket"]
  | NEIGHBORHOOD_RECOMMENDATION => baseApis ++ ["cityInfo"; "neighborhoods"]
  | HOUSING_MARKET => baseApis ++ ["cityInfo"; "housingMarket"; "neighborhoods"]
  | JOB_OPPORTUNITIES => baseApis ++ ["cityInfo"; "jobOpportunities"]
  | SCHOOL_DISTRICTS => baseApis ++ ["cityInfo"; "schoolDistricts"]
  | TRANSPORTATION => baseApis ++ ["cityInfo"; "transportation"]
  | COST_OF_LIVING => baseApis ++ ["cityInfo"; "costOfLiving"; "housingMarket"]
  | LIFESTYLE_MATCH => baseApis ++ ["cityInfo"; "neighborhoods"; "news"]
  | RELOCATION_LOGISTICS => baseApis ++ ["cityInfo"]
  | GENERAL_ADVICE | OTHER => baseApis
  end.

(** The object [queries]. *)
Definition buildApiQueries (parsedIntent : ParsedIntent) : list (string * value) :=
  match cities parsedIntent with
  | primaryCity :: others =>
      let city := VObj [("city", VStr primaryCity)] in
      let queries :=
        [("cityInfo", city); ("news", city); ("neighborhoods", city);
         ("housingMarket", city); ("jobOpportunities", city);
         ("schoolDistricts", city); ("transportation", city);
         ("costOfLiving", city);
         ("webSearch",
          VObj [("query",
                 VStr (primaryCity +:+ " city information living cost housing jobs schools"))])] in
      match others with
      | secondCity :: _ =>
          obj_set queries "costOfLiving"
            (VObj [("cityA", VStr primaryCity); ("cityB", VStr secondCity)])
      | [] => queries
      end
  | [] => [("webSearch", VObj [("query", VStr (originalQuery parsedIntent))])]
  end.

Definition error_result (apiName : string) (error : exn) : value :=
  VObj [("error", VStr ("Error calling " +:+ apiName));
        ("details", VStr (message_or_unknown error))].

(** The names that the [switch] of [callApi] knows. *)
Definition known_apis : list string :=
  ["cityInfo"; "webSearch"; "news"; "neighborhoods"; "housingMarket";
   "jobOpportunities"; "schoolDistricts"; "transportation"; "costOfLiving";
   "summaries"].

Section World.
(** The outside world: the outcome of the [n]-th invocation (from 0, within
    one retried call) of a provider function on its arguments. *)
Variable world : Provider → list value → nat → outcome value.

(** [withRetry(() => provider(...args), { retries: 2, delay: 1000, ... })];
    the arguments are evaluated by the arrow function, at each attempt. *)
Definition retried (provider : Provider) (args : outcome (list value)) : outcome value :=
  (Retry.withRetry (λ n, a ← args; world provider a n) 2 1000).1.

Definition radar_search (params : value) : outcome (list value) :=
  latitude ← get params "latitude";
  longitude ← get params "longitude";
  mret [VObj [("type", VStr "search"); ("latitude", latitude);
              ("longitude", longitude); ("radius", VNum 5000);
              ("categories", VArr [VStr "residential"; VStr "neighborhood"]);
              ("limit", VNum 20)]].

Definition one_arg (params : value) (k : string) : outcome (list value) :=
  a ← get params k; mret [a].

Definition two_args (params : value) (k1 k2 : string) : outcome (list value) :=
  a ← get params k1; b ← get params k2; mret [a; b].

(** The [switch] of [callApi]. *)
Definition callApi_switch (apiName : string) (params : value) : outcome value :=
  if String.eqb apiName "cityInfo" then retried GetCityInfo (one_arg params "city")
  else if String.eqb apiName "webSearch" then retried GetSerperData (one_arg params "query")
  else if String.eqb apiName "news" then retried GetNewsData (one_arg params "city")
  else if String.eqb apiName "neighborhoods" then retried GetRadarData (radar_search params)
  else if String.eqb apiName "housingMarket" then
    retried GetHousingMarketData (one_arg params "city")
  else if String.eqb apiName "jobOpportunities" then
    retried GetJobOpportunitiesData (two_args params "city" "industry")
  else if String.eqb apiName "schoolDistricts" then
    retried GetSchoolDistrictInfo (one_arg params "city")
  else if String.eqb apiName "transportation" then
    retried GetPublicTransportationInfo (one_arg params "city")
  else if String.eqb apiName "costOfLiving" then
    cityB ← get params "cityB";
    if truthy cityB then retried CompareCostOfLiving (two_args params "cityA" "cityB")
    else retried GetReliableCityData (one_arg params "city")
  else if String.eqb apiName "summaries" then
    retried SummarizeWebpage (one_arg params "url")
  else mret (VObj [("error", VStr ("Unknown API: " +:+ apiName))]).

Definition callApi (apiName : string) (params : value) : outcome value :=
  try_catch (callApi_switch apiName params)
    (λ error, mret (error_result apiName error)).

(** [callMultipleApis]: the calls run concurrently and each writes its own
    key of [results]; they are taken here in the order of [apiNames]. *)
Fixpoint callMultipleApis_into (results : gmap string value)
    (apiNames : list string) (params : value) : outcome (gmap string value) :=
  match apiNames with
  | [] => mret results
  | apiName :: rest =>
      own ← get params apiName;
      let result :=
        match callApi apiName (or_else own params) with
        | Ok result => result
        | Throw error => error_result apiName error
        end in
      callMultipleApis_into (<[apiName := result]> results) rest params
  end.

Definition callMultipleApis (apiNames : list string) (params : value)
  : outcome (gmap string value) :=
  callMultipleApis_into ∅ apiNames params.

(** [results.k = cachedData.source] when the cached part is truthy and the
    result is not. *)
Definition fill_from_cache (cachedData : value) (source k : string)
    (results : gmap string value) : gmap string value :=
  if truthy (get_opt cachedData source) && negb (truthy (field results k))
  then <[k := get_opt cachedData source]> results
  else results.

(** [fetch]: the results and the cache after the lookup.  When nothing is
    cached for the city, [getAllCityData] is started and not awaited; it
    does not take part in the result. *)
Definition fetch (parsedIntent : ParsedIntent) (now : Z)
    (apiCache : gmap string Cache.CacheEntry)
  : outcome (gmap string value) * gmap string Cache.CacheEntry :=
  let requiredApis := getRequiredApis (intent parsedIntent) in
  let queries := buildApiQueries parsedIntent in
  match callMultipleApis requiredApis (VObj queries) with
  | Throw error => (Throw error, apiCache)
  | Ok results =>
      match cities parsedIntent with
      | primaryCity :: _ =>
          let '(cachedData, apiCache) :=
            Cache.getCachedCityData primaryCity now apiCache in
          if truthy cachedData then
            (Ok (fill_from_cache cachedData "news" "news"
                   (fill_from_cache cachedData "serper" "webSearch"
                      (fill_from_cache cachedData "radar" "neighborhoods" results))),
             apiCache)
          else (Ok results, apiCache)
      | [] => (Ok results, apiCache)
      end
  end.
End World.

End Orchestrator.

(** ** Shapes of provider results *)

Module Shapes.
Import Js Fusion.

(** The properties of a provider result that fusion reads. *)
Definition data_keys : list string :=
  ["urbanArea"; "city"; "fallbackData"; "features"; "articles"; "organic";
   "summaries"].

(** The result of a provider that failed, by the convention of the code: an
    object with an [error] property, as [callApi] and the tools build it, and
    with no data. *)
Definition error_shaped (v : value) : bool :=
  match v with
  | VObj fields =>
      obj_has fields "error" && forallb (λ k, negb (obj_has fields k)) data_keys
  | _ => false
  end.

(** What [processCityData] builds from a truthy result without [summaries]. *)
Definition empty_block : Summary.t :=
  {| Summary.summary := None; Summary.sources := None; Summary.highlights := [] |}.

Definition primitive (v : value) : bool :=
  match v with
  | VArr _ | VObj _ => false
  | _ => true
  end.

(** A result for which the [summaries.map(...)] and [join] of
    [processCityData] do not throw: its [summaries], when truthy, is an array
    of values other than [undefined] and [null] whose [summary] is a
    primitive value, as the tools build it from the text of a summary. *)
Definition summaries_safe (result : value) : Prop :=
  match get_opt result "summaries" with
  | VArr items =>
      Forall (λ s, nullish s = false ∧ primitive (get_opt s "summary") = true) items
  | summaries => truthy summaries = false
  end.

(** The keys of the result map from which [processCityData] builds summary
    objects. *)
Definition block_keys : list string :=
  ["housingMarket"; "jobOpportunities"; "transportation"; "schoolDistricts"].

Definition results_safe (apiResults : gmap string value) : Prop :=
  ∀ k, k ∈ block_keys → summaries_safe (field apiResults k).

(** The provider functions whose results [processCityData] turns into
    summary objects. *)
Definition block_provider (provider : Orchestrator.Provider) : bool :=
  match provider with
  | Orchestrator.GetHousingMarketData | Orchestrator.GetJobOpportunitiesData
  | Orchestrator.GetSchoolDistrictInfo | Orchestrator.GetPublicTransportationInfo => true
  | _ => false
  end.

(** The parameters that [callMultipleApis] hands to [callApi] for a provider,
    [params[apiName] || params], and what it stores under the provider's
    name. *)
Definition params_for (queries : list (string * value)) (apiName : string) : value :=
  or_else (obj_get queries apiName) (VObj queries).

Definition api_result (world : Orchestrator.Provider → list value → nat → outcome value)
    (queries : list (string * value)) (apiName : string) : value :=
  match Orchestrator.callApi world apiName (params_for queries apiName) with
  | Ok result => result
  | Throw error => Orchestrator.error_result apiName error
  end.

End Shapes.

(** ** What a record shows of the data of a provider *)

Module Shown.
Import Js Fusion.

(** An object, as opposed to a primitive value or an array; a string has
    methods of its own, among them the legacy [link]. *)
Definition object (v : value) : bool :=
  match v with
  | VObj _ => true
  | _ => false
  end.

(** The object literals of [extractWebResults], [extractNews] and
    [extractNeighborhoods], for an element that is neither [null] nor
    [undefined] (and, for an article, has a [source]). *)
Definition web_result (result : value) : value :=
  VObj [("title", get_opt result "title");
        ("description", get_opt result "snippet");
        ("url", get_opt result "link")].

Definition article (article : value) : value :=
  VObj [("title", get_opt article "title");
        ("description", get_opt article "description");
        ("url", get_opt article "url");
        ("source", get_opt (get_opt article "source") "name");
        ("publishedAt", get_opt article "publishedAt")].

Definition neighborhood (feature : value) : value :=
  let properties := get_opt feature "properties" in
  let geometry := get_opt feature "geometry" in
  VObj [("name", or_else (or_else (get_opt properties "neighborhood")
                                  (get_opt properties "name")) (VStr "Unknown"));
        ("city", or_else (get_opt properties "city") (VStr "Unknown"));
        ("state", or_else (get_opt properties "state") (VStr "Unknown"));
        ("country", or_else (get_opt properties "country") (VStr "Unknown"));
        ("coordinates", or_else (get_opt geometry "coordinates") VNull)].

(** The key under which [extractScores] records a category of the given
    name: [categoryMapping[name] || name.toLowerCase().replace(/\s+/g, '')]. *)
Definition category_key (name : string) : string :=
  default (strip_spaces (toLowerCase name)) (categoryMapping name).

Definition ascii_only (s : string) : bool :=
  forallb (λ c, (nat_of_ascii c <? 128)%nat) (list_ascii_of_string s).

(** The name and the score of a category that has a text as its name and a
    number as its score. *)
Definition scored (category : value) : option (string * Q) :=
  match get_opt category "name", get_opt category "score_out_of_10" with
  | VStr name, VNum score => Some (name, score)
  | _, _ => None
  end.

(** A scored category whose name is made of ASCII characters and is, like
    its key, no name that plain objects inherit: for these the finite maps
    and the ASCII functions of this development are the tables and the
    string functions of the code. *)
Definition plain_category (category : value) : bool :=
  match scored category with
  | Some (name, _) =>
      ascii_only name && negb (Names.inherited name)
      && negb (Names.inherited (category_key name))
  | None => false
  end.

(** The summary object that [processCityData] builds from an array of
    summaries: the texts joined with spaces, the sources, and the key
    points of all summaries in one array. *)
Definition block (num_to_string : Q → string) (items : list value)
    (block : Summary.t) : Prop :=
  ∃ text,
    join num_to_string " " ((λ s, get_opt s "summary") <$> items) = Ok text
    ∧ Summary.summary block = Some text
    ∧ Summary.sources block = Some ((λ s, get_opt s "source") <$> items)
    ∧ Summary.highlights block
      = concat ((λ s, flatten_one (or_else (get_opt s "keyPoints") (VArr []))) <$> items).

End Shown.

(** ** Concrete inputs *)

Module Examples.
Import Js Fusion.

(** A record that has its name and, possibly, scores. *)
Definition city (cityName : string) (cityScores : option (gmap string Q)) : CityData :=
  {| name := cityName; fullName := VUndefined; scores := cityScores;
     summary := None; neighborhoods := None; housingMarket := None;
     jobMarket := None; transportation := None; schools := None;
     news := None; webResults := None |}.

(** The end-to-end scenario of the specification: a 1-1 split. *)
Definition austin_scores : gmap string Q := {[ "housing" := 7%Q; "costOfLiving" := 6%Q ]}.
Definition denver_scores : gmap string Q := {[ "housing" := 5%Q; "costOfLiving" := 8%Q ]}.

(** One win, two categories with equal scores. *)
Definition one_win_scores : gmap string Q :=
  {[ "housing" := 7%Q; "safety" := 5%Q; "economy" := 5%Q ]}.
Definition no_win_scores : gmap string Q :=
  {[ "housing" := 5%Q; "safety" := 5%Q; "economy" := 5%Q ]}.

(** Scores for one category only, against the empty score map that the
    fallback data of [getFallbackCityInfo] produces. *)
Definition housing_only : gmap string Q := {[ "housing" := 7%Q ]}.

(** What [callApi] returns for a provider that failed. *)
Definition failed (apiName : string) : value :=
  VObj [("error", VStr ("Error calling " +:+ apiName));
        ("details", VStr "Request failed with status code 500")].

(** Two search results with links, and a reader service that summarizes
    every page with a text that is not empty. *)
Definition two_results : value :=
  VObj [("organic",
         VArr [VObj [("title", VStr "Market report"); ("link", VStr "https://a.example/report")];
               VObj [("title", VStr "Price trends"); ("link", VStr "https://b.example/trends")]])].

Definition good_reader (i : nat) (url : value) : outcome value :=
  Ok (VObj [("summary", VStr "Prices rose."); ("key_points", VArr [VStr "up 3%"])]).

(** The scenario of the specification: of the three providers that a
    [CITY_INFO] request for Austin requires, the web search succeeds and the
    two others fail with a server error at every attempt. *)
Definition austin_request : Intent.ParsedIntent :=
  {| Intent.intent := Intent.CITY_INFO; Intent.cities := ["Austin"];
     Intent.originalQuery := "tell me about Austin" |}.

Definition only_search_works (provider : Orchestrator.Provider) (args : list value)
    (n : nat) : outcome value :=
  match provider with
  | Orchestrator.GetSerperData =>
      Ok (VObj [("organic",
                 VArr [VObj [("title", VStr "Austin, Texas");
                             ("snippet", VStr "Capital of Texas");
                             ("link", VStr "https://austin.example")]])])
  | _ => Throw (ErrorObj "Request failed with status code 500")
  end.

(** [Number::toString] on the integers, enough for the inputs here. *)
Definition show_number (q : Q) : string := pretty (Qfloor q).

End Examples.

(** ** Runs of the quota tracker, seen from one model *)

Module Protocol.
Import RateLimit.

(** The model that a call concerns, as the tracker names it. *)
Definition call_model (c : call) : string :=
  match c with
  | CanMakeRequest m _ | RegisterRequest m _ | HandleRateLimitError m _ _ => modelKey m
  end.

(** The calls of a run that concern one model, and the answers given for it. *)
Definition calls_for (modelName : string) (calls : list call) : list call :=
  filter (λ c, call_model c = modelName) calls.

Definition answers_for (modelName : string) (answers : list (string * bool))
  : list (string * bool) :=
  filter (λ answer, answer.1 = modelName) answers.

End Protocol.

(** ** Cache statistics and the cached providers ([utils/api-integrations.ts]) *)

Module CacheStats.
Import Js Cache.

(** [stats.byApi] *)
Record ByApi := {
  radar : nat;
  serper : nat;
  news : nat;
  city : nat
}.

Record Stats := {
  total : nat;
  expired : nat;
  active : nat;
  byApi : ByApi
}.

(** [key.startsWith(prefix)] *)
Definition startsWith (key prefix : string) : bool := String.prefix prefix key.

(** The [if] cascade on the key of an active entry. *)
Definition count_api (key : string) (counts : ByApi) : ByApi :=
  if startsWith key "radar:" then
    {| radar := S (radar counts); serper := serper counts; news := news counts;
       city := city counts |}
  else if startsWith key "serper:" then
    {| radar := radar counts; serper := S (serper counts); news := news counts;
       city := city counts |}
  else if startsWith key "news:" then
    {| radar := radar counts; serper := serper counts; news := S (news counts);
       city := city counts |}
  else if startsWith key "city:" then
    {| radar := radar counts; serper := serper counts; news := news counts;
       city := S (city counts) |}
  else counts.

(** The callback of [Object.entries(apiCache).forEach]. *)
Definition count_entry (now : Z) (key : string) (value : CacheEntry) (stats : Stats)
  : Stats :=
  if (expiry value <=? now)%Z then
    {| total := total stats; expired := S (expired stats); active := active stats;
       byApi := byApi stats |}
  else
    {| total := total stats; expired := expired stats; active := S (active stats);
       byApi := count_api key (byApi stats) |}.

(** [getCacheStats].  The entries are visited in the order of the keys of the
    map; the counters do not depend on the order. *)
Definition getCacheStats (now : Z) (apiCache : gmap string CacheEntry) : Stats :=
  map_fold (count_entry now)
    {| total := size apiCache; expired := 0; active := 0;
       byApi := {| radar := 0; serper := 0; news := 0; city := 0 |} |}
    apiCache.

(** [clearApiCache]: every key of the cache is deleted. *)
Definition clearApiCache (apiCache : gmap string CacheEntry) : gmap string CacheEntry :=
  set_fold (λ key cache, delete key cache) apiCache (dom apiCache).

(** The cache keys that the module builds; [params] and [options] stand for
    the text that [JSON.stringify] gives for these arguments. *)
Inductive Resource :=
| Radar (params : string)
| Serper (query options : string)
| News (query options : string)
| City (cityName : string).

Definition cacheKey (resource : Resource) : string :=
  match resource with
  | Radar params => "radar_" +:+ params
  | Serper query options => "serper_" +:+ query +:+ "_" +:+ options
  | News query options => "news_" +:+ query +:+ "_" +:+ options
  | City cityName => city_cache_key cityName
  end.

(** What the functions of the module do to the cache: they store a response
    under one of their keys, look one of their keys up, or clear the cache. *)
Inductive operation :=
| Store (resource : Resource) (d : value) (now : Z)
| Lookup (resource : Resource) (now : Z)
| Clear.

Definition apply_operation (apiCache : gmap string CacheEntry) (op : operation)
  : gmap string CacheEntry :=
  match op with
  | Store resource d now => storeInCache (cacheKey resource) d now apiCache
  | Lookup resource now => (getFromCache (cacheKey resource) now apiCache).2
  | Clear => clearApiCache apiCache
  end.

(** The cache after a history of operations, starting with the empty cache
    of a new process. *)
Definition cache_after (history : list operation) : gmap string CacheEntry :=
  fold_left apply_operation history ∅.

(** Every key of the cache is one that the module builds. *)
Definition module_keys (apiCache : gmap string CacheEntry) : Prop :=
  ∀ key entry, apiCache !! key = Some entry → ∃ resource, key = cacheKey resource.

End CacheStats.

Module Integrations.
Import Js Cache Retry.

Definition configuration_error (api : string) : value :=
  VObj [("error", VStr "Configuration error");
        ("details", VStr (api +:+ " API key is not configured"))].

Definition api_error (error : exn) : value :=
  VObj [("error", VStr "API error"); ("details", VStr (message_or_unknown error))].

Section Serper.
(** The outcome of the [n]-th invocation of [client.post]: the response of
    the HTTP client, or the error it throws. *)
Variable post : nat → outcome value.

(** [getSerperData(query, options)].  [api_key] is
    [process.env.SERPER_API_KEY], [options] the text of
    [JSON.stringify(options)], [now] the instant of the lookup and [later]
    the instant at which the response is stored.  The proxy is taken not to
    be configured, so that [createAxiosInstance] does not throw, and the
    text of the message of an engine [TypeError] is not modelled.  The result
    is the value returned, the trace of the retried request and the cache
    after the call. *)
Definition getSerperData (api_key : value) (query options : string) (now later : Z)
    (apiCache : gmap string CacheEntry)
  : value * list event * gmap string CacheEntry :=
  let cacheKey := "serper_" +:+ query +:+ "_" +:+ options in
  let '(cachedData, apiCache) := getFromCache cacheKey now apiCache in
  if truthy cachedData then (cachedData, [], apiCache)
  else if negb (truthy api_key) then (configuration_error "Serper", [], apiCache)
  else
    let '(response, trace) := withRetry post 2 1000 in
    match response ≫= (λ r, get r "data") with
    | Ok responseData =>
        (responseData, trace, storeInCache cacheKey responseData later apiCache)
    | Throw error => (api_error error, trace, apiCache)
    end.
End Serper.

End Integrations.

(** ** The retry loop of the class [APIExecutor] *)

Module Executor.
Import Js Retry.

(** [RetryConfig]; the numbers are integers, [maxRetries] is not negative. *)
Record RetryConfig := {
  maxRetries : nat;
  initialDelay : Z;
  maxDelay : Z;
  backoffFactor : Z
}.

Definition defaultRetryConfig : RetryConfig :=
  {| maxRetries := 3; initialDelay := 1000; maxDelay := 10000; backoffFactor := 2 |}.

Definition calculateBackoff (retryCount : nat) (config : RetryConfig) : Z :=
  Z.min (initialDelay config * backoffFactor config ^ Z.of_nat retryCount)
    (maxDelay config).

(** ToBoolean of what a [catch] clause receives; an [Error] is an object. *)
Definition truthy_exn (e : exn) : bool :=
  match e with
  | ErrorObj _ => true
  | Thrown v => truthy v
  end.

(** [lastError || new Error('Operation failed after retries')]; [lastError]
    is [null] before the first failure. *)
Definition last_or_failed (lastError : option exn) : exn :=
  match lastError with
  | Some e => if truthy_exn e then e else ErrorObj "Operation failed after retries"
  | None => ErrorObj "Operation failed after retries"
  end.

Section Loop.
Context {T : Type}.
Variable operation : nat → outcome T.

(** The loop [for (let attempt = 0; attempt <= config.maxRetries; attempt++)]
    from the iteration [attempt], with [fuel] iterations left, and the
    [throw] that follows it. *)
Fixpoint executeWithRetry_from (config : RetryConfig) (fuel attempt : nat)
    (lastError : option exn) : outcome T * list event :=
  match fuel with
  | O => (Throw (last_or_failed lastError), [])
  | S fuel =>
      match operation attempt with
      | Ok r => (Ok r, [Attempt attempt])
      | Throw error =>
          if (attempt =? maxRetries config)%nat
          then (Throw (last_or_failed (Some error)), [Attempt attempt])
          else
            let '(r, trace) :=
              executeWithRetry_from config fuel (S attempt) (Some error) in
            (r, Attempt attempt :: Sleep (calculateBackoff attempt config) :: trace)
      end
  end.

Definition executeWithRetry (config : RetryConfig) : outcome T * list event :=
  executeWithRetry_from config (S (maxRetries config)) 0 None.
End Loop.

(** The [RetryUtil] that has the numbers of a configuration. *)
Definition as_RetryUtil (config : RetryConfig) : Retry.RetryUtil :=
  {| Retry.maxRetries := maxRetries config; Retry.baseDelay := initialDelay config;
     Retry.maxDelay := maxDelay config |}.

End Executor.

(** ** More of the tools ([utils/api-tools.ts]) *)

Module MoreTools.
Import Js.

(** [getFallbackCityInfo], given what [searchWeb] returned. *)
Definition getFallbackCityInfo (cityName : value) (searchResult : value) : value :=
  VObj [("note", VStr "Using fallback data source due to Teleport API unavailability");
        ("searchResults", searchResult);
        ("fallbackData",
         VObj [("name", cityName);
               ("source", VStr "Generated from search results");
               ("estimatedScores",
                VObj [("housing", VStr "N/A - Teleport API unavailable");
                      ("costOfLiving", VStr "N/A - Teleport API unavailable");
                      ("safety", VStr "N/A - Teleport API unavailable");
                      ("healthcare", VStr "N/A - Teleport API unavailable");
                      ("education", VStr "N/A - Teleport API unavailable");
                      ("economy", VStr "N/A - Teleport API unavailable")])])].

(** What a call contributes to the results of [executeInParallel]: nothing
    when it throws or runs into the timeout (the callback returns [null]) and
    nothing when it returns [null]; the [null]s are filtered out. *)
Definition settled (call : outcome value) : option value :=
  match call with
  | Ok VNull => None
  | Ok v => Some v
  | Throw _ => None
  end.

(** The loop [for (let i = 0; i < functions.length; i += maxConcurrent)] of
    [executeInParallel] over the calls that are left, with [fuel] iterations
    left.  A call is given by its outcome, [Throw] when it is timed out.
    With [maxConcurrent = 0] the loop of the source does not terminate. *)
Fixpoint executeInParallel_from (maxConcurrent fuel : nat)
    (functions : list (outcome value)) (results : list value) : list value :=
  match fuel with
  | O => results
  | S fuel =>
      match functions with
      | [] => results
      | _ =>
          let chunk := take maxConcurrent functions in
          executeInParallel_from maxConcurrent fuel (drop maxConcurrent functions)
            (results ++ omap settled chunk)
      end
  end.

Definition executeInParallel (maxConcurrent : nat) (functions : list (outcome value))
  : list value :=
  executeInParallel_from maxConcurrent (length functions) functions [].

End MoreTools.

(** ** Rule-based intent parsing ([modules/intent/IntentParser.ts]) *)

Module Rules.
Import Js Intent.

(** [text.includes(pattern)] *)
Fixpoint includes (text pattern : string) : bool :=
  String.prefix pattern text
  || match text with
     | EmptyString => false
     | String _ rest => includes rest pattern
     end.

(** [/a|b|.../i.test(text)] for a regular expression whose alternatives are
    plain lower-case texts: one of them occurs in the text, letter case
    ignored (on ASCII, as for [toLowerCase]). *)
Definition mentions (text : string) (alternatives : list string) : bool :=
  existsb (includes (toLowerCase text)) alternatives.

(** [determineIntent].  [/compar(e|ing|ison)/] is written out as its three
    alternatives and [/vs\.?|versus/] as ["vs"] and ["versus"], the optional
    full stop making no difference to whether the expression matches. *)
Definition determineIntent (text : string) (locations : list string) : QueryIntent :=
  if (mentions text ["compare"; "comparing"; "comparison"]
      || mentions text ["vs"; "versus"])
     && (1 <? length locations)%nat
  then CITY_COMPARISON
  else if mentions text ["neighborhood"; "area"; "district"; "part of town"]
  then NEIGHBORHOOD_RECOMMENDATION
  else if mentions text ["housing"; "home"; "apartment"; "rent"; "buy"; "price";
                         "real estate"; "property"]
  then HOUSING_MARKET
  else if mentions text ["job"; "work"; "career"; "employment"; "hire"; "hiring";
                         "salary"; "wage"; "industry"]
  then JOB_OPPORTUNITIES
  else if mentions text ["school"; "education"; "college"; "university"; "academic";
                         "student"]
  then SCHOOL_DISTRICTS
  else if mentions text ["transport"; "transit"; "commute"; "traffic"; "drive"; "bus";
                         "train"; "subway"; "bike"; "walk"]
  then TRANSPORTATION
  else if mentions text ["cost of living"; "expense"; "affordable"; "cheap"; "budget";
                         "price"]
  then COST_OF_LIVING
  else if mentions text ["lifestyle"; "culture"; "entertainment"; "food"; "restaurant";
                         "outdoor"; "activity"; "hobby"]
  then LIFESTYLE_MATCH
  else if mentions text ["move"; "moving"; "relocate"; "relocation"; "logistics";
                         "process"; "paperwork"; "visa"]
  then RELOCATION_LOGISTICS
  else if (0 <? length locations)%nat then CITY_INFO
  else if mentions text ["advice"; "suggest"; "recommendation"; "should i"; "where";
                         "what"]
  then GENERAL_ADVICE
  else OTHER.

(** The rule-based branch of [parse], taken when the language model gives no
    result; [locations] is what [extractLocationNames] found in the query. *)
Definition parse_by_rules (query : string) (locations : list string) : ParsedIntent :=
  {| intent := determineIntent query locations;
     cities := locations;
     originalQuery := query |}.

End Rules.

(** ** The token bucket ([utils/RateLimiter.ts]) *)

Module TokenBucket.

(** The numbers of the bucket: exact rationals and [NaN].  [undefined] in
    an arithmetic position converts to [NaN], so a field that was read from
    a property that does not exist is [NaN] here.  The infinities, which
    arise only for a refill rate of zero, are not modelled. *)
Inductive number :=
| NaN
| Num (q : Q).

Definition lift (op : Q → Q → Q) (a b : number) : number :=
  match a, b with
  | Num x, Num y => Num (op x y)
  | _, _ => NaN
  end.

Definition add : number → number → number := lift Qplus.
Definition sub : number → number → number := lift Qminus.
Definition mul : number → number → number := lift Qmult.
Definition div : number → number → number := lift Qdiv.

(** [Math.min(a, b)] *)
Definition min : number → number → number :=
  lift (λ x y, if Qle_bool x y then x else y).

(** [a < b], false when an operand is [NaN]. *)
Definition lt (a b : number) : bool :=
  match a, b with
  | Num x, Num y => match Qcompare x y with Lt => true | _ => false end
  | _, _ => false
  end.

Record RateLimiter := {
  tokens : number;
  lastRefill : Z;
  maxTokens : number;
  refillRate : number;
  refillInterval : number
}.

(** The constructor, given [apiConfig.rateLimit.burstSize] and
    [apiConfig.rateLimit.refillRate]. *)
Definition new (burstSize refillRate : number) (now : Z) : RateLimiter :=
  {| tokens := burstSize; lastRefill := now; maxTokens := burstSize;
     refillRate := refillRate; refillInterval := Num 1000 |}.

(** [apiConfig.rateLimit] has the properties [maxTokens], [refillRate] and
    [refillInterval]; it has no [burstSize]. *)
Definition apiConfig_burstSize : number := NaN.
Definition apiConfig_refillRate : number := Num 1.

Definition refillTokens (now : Z) (self : RateLimiter) : RateLimiter :=
  let timePassed := Num (inject_Z (now - lastRefill self)) in
  let tokensToAdd := mul (div timePassed (refillInterval self)) (refillRate self) in
  {| tokens := min (maxTokens self) (add (tokens self) tokensToAdd);
     lastRefill := now; maxTokens := maxTokens self;
     refillRate := refillRate self; refillInterval := refillInterval self |}.

Definition take_token (self : RateLimiter) : RateLimiter :=
  {| tokens := sub (tokens self) (Num 1); lastRefill := lastRefill self;
     maxTokens := maxTokens self; refillRate := refillRate self;
     refillInterval := refillInterval self |}.

(** [acquireToken] at the instant [now].  When it waits, [woken] is the
    instant at which the timer fires.  The result is the time waited, if
    the call waits, and the limiter after the call. *)
Definition acquireToken (now woken : Z) (self : RateLimiter)
  : option number * RateLimiter :=
  let self := refillTokens now self in
  if lt (tokens self) (Num 1) then
    let waitTime :=
      mul (sub (Num 1) (tokens self)) (div (refillInterval self) (refillRate self)) in
    (Some waitTime, take_token (refillTokens woken self))
  else (None, take_token self).

(** A run of calls of [acquireToken], each with its two instants: the waits,
    in order. *)
Fixpoint acquisitions (calls : list (Z * Z)) (self : RateLimiter)
  : list (option number) :=
  match calls with
  | [] => []
  | (now, woken) :: rest =>
      let '(waited, self) := acquireToken now woken self in
      waited :: acquisitions rest self
  end.

End TokenBucket.

(** ** Content summaries of the chat route ([app/api/chat/route.ts]) *)

Module Chat.
Import Js.

(** [getUrlsForCity]: the candidate pages for a city, in the order in which
    they are tried. *)
Definition getUrlsForCity (city : string) : list string :=
  ["https://www.bestplaces.net/city/" +:+ city;
   "https://www.areavibes.com/" +:+ city;
   "https://www.city-data.com/city/" +:+ city +:+ ".html";
   "https://www.niche.com/places-to-live/" +:+ city;
   "https://www.neighborhoodscout.com/" +:+ city;
   "https://www.realtor.com/local/" +:+ city;
   "https://www.zillow.com/" +:+ city;
   "https://www.trulia.com/city/" +:+ city;
   "https://www.walkscore.com/" +:+ city;
   "https://www.greatschools.org/search/search.page?q=" +:+ city;
   "https://www.numbeo.com/cost-of-living/in/" +:+ city;
   "https://www.payscale.com/cost-of-living-calculator/" +:+ city;
   "https://www.apartments.com/" +:+ city].

(** The own enumerable properties that [{...v}] copies. *)
Definition spread (v : value) : list (string * value) :=
  match v with
  | VObj fields => fields
  | VArr xs => imap (λ i x, (pretty i, x)) xs
  | VStr s => imap (λ i c, (pretty i, VStr (String c EmptyString))) (list_ascii_of_string s)
  | _ => []
  end.

(** [{ ...data, source: url, success: true }] *)
Definition found (url : string) (data : value) : value :=
  VObj (obj_set (obj_set (spread data) "source" (VStr url)) "success" (VBool true)).

(** The object returned when the loop ends without a summary;
    [urls[0]] is [undefined] for an empty list. *)
Definition not_found (urls : list string) : value :=
  VObj [("summary", VNull);
        ("source", match urls with url :: _ => VStr url | [] => VUndefined end);
        ("success", VBool false)].

Section Reader.
(** The reader service: the outcome of [axios.post] for the url tried in
    iteration [i] of the loop, the response or the exception thrown. *)
Variable post : nat → string → outcome value.

(** The [try] block for one url: [Some result] when the function returns
    from inside the loop, [None] when the test fails. *)
Definition try_url (i : nat) (url : string) : outcome (option value) :=
  response ← post i url;
  data ← get response "data";
  if truthy data then
    summary ← get data "summary";
    if truthy summary then mret (Some (found url data)) else mret None
  else mret None.

(** The loop [for (const url of urls)] from iteration [i]: the value
    returned from inside the loop, if any, and the urls requested, in
    order.  The [catch] block goes on with the next url. *)
Fixpoint try_urls (i : nat) (urls : list string) : option value * list string :=
  match urls with
  | [] => (None, [])
  | url :: rest =>
      match try_catch (try_url i url) (λ _, Ok None) with
      | Ok (Some result) => (Some result, [url])
      | _ =>
          let '(result, requested) := try_urls (S i) rest in
          (result, url :: requested)
      end
  end.

(** [getSummaryForCity]: its result and the urls requested, in order. *)
Definition getSummaryForCity (urls : list string) : value * list string :=
  let '(result, requested) := try_urls 0 urls in
  (default (not_found urls) result, requested).

(** The data and the summary that the outcome of a request carries, if
    any. *)
Definition data_of (response : outcome value) : value :=
  match response with
  | Ok response => get_opt response "data"
  | Throw _ => VUndefined
  end.

Definition summary_of (response : outcome value) : value :=
  get_opt (data_of response) "summary".

(** The request yields a summary that is not empty: for a text, any but
    the empty one. *)
Definition yields_summary (response : outcome value) : bool :=
  truthy (summary_of response).
End Reader.

End Chat.

(** ** Further concrete inputs *)

Module Scenarios.
Import Js.

(** An HTTP client whose requests all succeed with the same search payload,
    and one whose requests all fail with a server error. *)
Definition serper_payload : value :=
  VObj [("organic", VArr [VObj [("title", VStr "Austin, Texas");
                                ("link", VStr "https://austin.example")]])].

Definition post_ok (n : nat) : outcome value := Ok (VObj [("data", serper_payload)]).

Definition post_fails (n : nat) : outcome value :=
  Throw (ErrorObj "Request failed with status code 500").

(** A client that answers with an empty body. *)
Definition post_empty (n : nat) : outcome value := Ok (VObj [("data", VStr "")]).

(** An operation that fails twice with a server error and then succeeds,
    and one that always fails with an error that must not be retried. *)
Definition third_time_lucky (n : nat) : outcome value :=
  if (n <? 2)%nat then Throw (ErrorObj "Request failed with status code 503")
  else Ok (VStr "done").

Definition not_found (n : nat) : outcome value := Throw (ErrorObj "Resource not found").

Definition retry_server_errors (e : exn) : bool :=
  negb (String.eqb (message_or_unknown e) "Resource not found").

(** The provider results of a request for which the city service was not
    reachable and answered with its fallback. *)
Definition fallback_results : gmap string value :=
  {[ "cityInfo" := MoreTools.getFallbackCityInfo (VStr "Austin") (VObj []) ]}.

(** Parsed requests: a question about housing that names no city, and a
    comparison of two cities. *)
Definition housing_without_city : Intent.ParsedIntent :=
  {| Intent.intent := Intent.HOUSING_MARKET; Intent.cities := [];
     Intent.originalQuery := "how are rents these days" |}.

Definition austin_or_denver : Intent.ParsedIntent :=
  {| Intent.intent := Intent.CITY_COMPARISON; Intent.cities := ["austin"; "denver"];
     Intent.originalQuery := "compare Austin vs Denver" |}.

(** Provider results in which the city service scored one category. *)
Definition scored_results : gmap string value :=
  {[ "cityInfo" :=
       VObj [("urbanArea",
              VObj [("fullName", VStr "Austin, Texas");
                    ("scores",
                     VObj [("categories",
                            VArr [VObj [("name", VStr "Housing");
                                        ("score_out_of_10", VNum 7)]])])])] ]}.

(** News of which the second article has no source. *)
Definition news_with_anonymous_article : value :=
  VObj [("articles",
         VArr [VObj [("title", VStr "Rents fall");
                     ("source", VObj [("name", VStr "Gazette")])];
               VObj [("title", VStr "New transit line")]])].

(** Provider results in which the housing summaries hold a [null]. *)
Definition results_with_null_summary : gmap string value :=
  {[ "cityInfo" := VObj [("city", VObj [("name", VStr "Austin")])];
     "housingMarket" :=
       VObj [("searchResults", VArr []);
             ("summaries",
              VArr [VObj [("summary", VStr "Prices rose."); ("source", VStr "a")];
                    VNull])] ]}.

(** A request about the housing market of Austin in which the city service
    and the housing tool succeed while the web search and the place search
    fail with a server error at every attempt. *)
Definition housing_request : Intent.ParsedIntent :=
  {| Intent.intent := Intent.HOUSING_MARKET; Intent.cities := ["Austin"];
     Intent.originalQuery := "housing market in Austin" |}.

Definition city_and_housing_work (provider : Orchestrator.Provider) (args : list value)
    (n : nat) : outcome value :=
  match provider with
  | Orchestrator.GetCityInfo =>
      Ok (VObj [("urbanArea",
                 VObj [("fullName", VStr "Austin, Texas");
                       ("scores",
                        VObj [("categories",
                               VArr [VObj [("name", VStr "Housing");
                                           ("score_out_of_10", VNum 7)];
                                     VObj [("name", VStr "Travel Connectivity");
                                           ("score_out_of_10", VNum 3)]])])])])
  | Orchestrator.GetHousingMarketData =>
      Ok (VObj [("searchResults", VArr []);
                ("summaries",
                 VArr [VObj [("title", VStr "Market report");
                             ("source", VStr "https://a.example/report");
                             ("summary", VStr "Prices rose.");
                             ("keyPoints", VArr [VStr "up 3%"])];
                       VObj [("title", VStr "Price trends");
                             ("source", VStr "https://b.example/trends");
                             ("summary", VStr "Rents are stable.");
                             ("keyPoints", VArr [])]])])
  | _ => Throw (ErrorObj "Request failed with status code 500")
  end.

(** A reader service that has no summary for the first candidate page,
    fails for the second and summarizes all others. *)
Definition third_page_works (i : nat) (url : string) : outcome value :=
  match i with
  | 0 => Ok (VObj [("status", VNum 200); ("data", VObj [("summary", VStr "")])])
  | 1 => Throw (ErrorObj "Request failed with status code 404")
  | _ => Ok (VObj [("status", VNum 200);
                   ("data", VObj [("summary", VStr "A growing city.");
                                  ("title", VStr url)])])
  end.

End Scenarios.

(** * Properties *)

(** ** The response cache *)

Section CacheProperties.
Import Js Cache.

Lemma getFromCache_miss (key : string) (now : Z) (apiCache : gmap string CacheEntry) :
  apiCache !! key = None → getFromCache key now apiCache = (VNull, apiCache).
Proof. intros Hnone. unfold getFromCache. by rewrite Hnone. Qed.

Lemma getFromCache_fresh (key : string) (now : Z) (entry : CacheEntry)
    (apiCache : gmap string CacheEntry) :
  apiCache !! key = Some entry →
  (now - timestamp entry ≤ CACHE_TTL)%Z →
  getFromCache key now apiCache = (data entry, apiCache).
Proof.
  intros Hsome Hfresh. unfold getFromCache. rewrite Hsome.
  destruct (Z.ltb_spec CACHE_TTL (now - timestamp entry)); [lia | done].
Qed.

Lemma getFromCache_expired (key : string) (now : Z) (entry : CacheEntry)
    (apiCache : gmap string CacheEntry) :
  apiCache !! key = Some entry →
  (CACHE_TTL < now - timestamp entry)%Z →
  getFromCache key now apiCache = (VNull, delete key apiCache).
Proof.
  intros Hsome Hold. unfold getFromCache. rewrite Hsome.
  destruct (Z.ltb_spec CACHE_TTL (now - timestamp entry)); [done | lia].
Qed.

(** C8.  A value stored at instant [stored_at] is returned by a lookup at
    any instant [early] at which the time to live has not elapsed, in
    particular at once; a lookup at an instant [late] after the time to live
    has elapsed returns [null] and leaves a cache without the entry, so that
    the entry is gone for every lookup that follows, and the other entries
    are untouched. *)
Theorem cache_store_then_lookup (key : string) (v : value)
    (stored_at early late : Z) (apiCache : gmap string CacheEntry)
    (Hearly : (early - stored_at ≤ CACHE_TTL)%Z)
    (Hlate : (CACHE_TTL < late - stored_at)%Z) :
  let stored := storeInCache key v stored_at apiCache in
  getFromCache key stored_at stored = (v, stored)
  ∧ getFromCache key early stored = (v, stored)
  ∧ (getFromCache key late stored).1 = VNull
  ∧ (getFromCache key late stored).2 !! key = None
  ∧ (∀ other, other ≠ key →
       (getFromCache key late stored).2 !! other = apiCache !! other)
  ∧ (∀ next, (getFromCache key next (getFromCache key late stored).2).1 = VNull).
Proof.
  intros stored.
  set (entry := {| data := v; timestamp := stored_at;
                   expiry := (stored_at + CACHE_TTL)%Z |}).
  assert (Hentry : stored !! key = Some entry) by apply lookup_insert_eq.
  assert (Hexp : getFromCache key late stored = (VNull, delete key stored))
    by (apply (getFromCache_expired _ _ entry); [done | simpl; lia]).
  split; [|split; [|split; [|split; [|split]]]].
  - rewrite (getFromCache_fresh _ _ entry); [done | done | ].
    simpl. unfold CACHE_TTL. lia.
  - rewrite (getFromCache_fresh _ _ entry); done.
  - by rewrite Hexp.
  - rewrite Hexp. apply lookup_delete_eq.
  - intros other Hother. rewrite Hexp. simpl.
    rewrite lookup_delete_ne by done. by apply lookup_insert_ne.
  - intros next. rewrite Hexp. simpl.
    rewrite getFromCache_miss; [done | apply lookup_delete_eq].
Qed.

Lemma cache_store_then_lookup_witness :
  let stored := storeInCache "serper_austin_{}" (VStr "payload") 1000 ∅ in
  getFromCache "serper_austin_{}" 1000 stored = (VStr "payload", stored)
  ∧ getFromCache "serper_austin_{}" 86401000 stored = (VStr "payload", stored)
  ∧ (getFromCache "serper_austin_{}" 86401001 stored).1 = VNull
  ∧ (getFromCache "serper_austin_{}" 86401001 stored).2 !! "serper_austin_{}" = None.
Proof.
  pose proof (cache_store_then_lookup "serper_austin_{}" (VStr "payload")
                1000 86401000 86401001 ∅) as H.
  destruct H as (H1 & H2 & H3 & H4 & _).
  - unfold CACHE_TTL. lia.
  - unfold CACHE_TTL. lia.
  - repeat split; assumption.
Defined.
End CacheProperties.

(** ** The quota tracker *)

Section RateLimitProperties.
Import RateLimit.

Lemma tracked_lookup (modelName : string) (now : Z) (info : RateLimitInfo)
    (rateLimits : gmap string RateLimitInfo) :
  rateLimits !! modelName = Some info → tracked modelName now rateLimits = info.
Proof. intros H. unfold tracked. by rewrite H. Qed.

Lemma canMakeRequest_refused (model : string) (now start : Z) (info : RateLimitInfo)
    (rateLimits : gmap string RateLimitInfo) :
  rateLimits !! modelKey model = Some info →
  lastReset info = start →
  (quota (modelKey model) ≤ requestCount info)%Z →
  (now - start ≤ 60000)%Z →
  before now (pending_backoff info) →
  canMakeRequest model now rateLimits = (false, rateLimits).
Proof.
  intros Hlook Hstart Hquota Hnow Hbefore.
  unfold canMakeRequest. rewrite (tracked_lookup _ _ info) by done.
  unfold after_backoff. unfold pending_backoff in Hbefore.
  destruct (isBackingOff info); cbn [before] in Hbefore.
  - destruct (Z.ltb_spec now (nextAvailable info)); [|lia].
    by rewrite insert_id.
  - unfold after_window. rewrite Hstart.
    destruct (Z.ltb_spec 60000 (now - start)); [lia|].
    rewrite insert_id by done. f_equal. by apply Z.ltb_ge.
Qed.

Lemma canMakeRequest_other (model other : string) (now : Z)
    (rateLimits : gmap string RateLimitInfo) :
  modelKey model ≠ other →
  (canMakeRequest model now rateLimits).2 !! other = rateLimits !! other.
Proof.
  intros Hne. unfold canMakeRequest.
  destruct (after_backoff _ _); simpl; by rewrite lookup_insert_ne.
Qed.

Lemma run_refused (modelName : string) (start : Z) (calls : list call) :
  ∀ (rateLimits : gmap string RateLimitInfo) (info : RateLimitInfo),
    rateLimits !! modelName = Some info →
    lastReset info = start →
    (quota modelName ≤ requestCount info)%Z →
    Forall (λ c, (call_time c - start ≤ 60000)%Z) calls →
    before_backoff_end modelName (pending_backoff info) calls →
    ∀ ok, (modelName, ok) ∈ (run calls rateLimits).1 → ok = false.
Proof.
  induction calls as [|c calls IH];
    intros rateLimits info Hlook Hstart Hquota Htimes Hbackoff ok Hin.
  - simpl in Hin. by apply elem_of_nil in Hin.
  - apply Forall_cons in Htimes as [Htime Htimes].
    destruct c as [m t | m t | m s t]; cbn [run before_backoff_end call_time] in *.
    + destruct Hbackoff as [Hbefore Hbackoff].
      destruct (decide (modelKey m = modelName)) as [Heq | Hne].
      * subst modelName.
        rewrite (canMakeRequest_refused m t start info) in Hin by auto.
        destruct (run calls rateLimits) as [answers final] eqn:Hrun. simpl in Hin.
        apply elem_of_cons in Hin as [Hhead | Htail].
        -- by inversion Hhead.
        -- apply (IH rateLimits info); try done. by rewrite Hrun.
      * destruct (canMakeRequest m t rateLimits) as [ok' rateLimits'] eqn:Hcan.
        destruct (run calls rateLimits') as [answers final] eqn:Hrun. simpl in Hin.
        apply elem_of_cons in Hin as [Hhead | Htail].
        -- inversion Hhead. congruence.
        -- apply (IH rateLimits' info); try done; [|by rewrite Hrun].
           pose proof (canMakeRequest_other m modelName t rateLimits Hne) as Ho.
           rewrite Hcan in Ho. simpl in Ho. by rewrite Ho.
    + destruct (decide (modelKey m = modelName)) as [Heq | Hne].
      * subst modelName. unfold registerRequest in Hin.
        rewrite (tracked_lookup _ _ info) in Hin by done.
        apply (IH _ _ (lookup_insert_eq _ _ _)) in Hin; simpl; try done. lia.
      * apply (IH _ info) in Hin; try done.
        unfold registerRequest. by rewrite lookup_insert_ne.
    + destruct (decide (modelKey m = modelName)) as [Heq | Hne].
      * subst modelName. unfold handleRateLimitError in Hin.
        rewrite (tracked_lookup _ _ info) in Hin by done.
        apply (IH _ _ (lookup_insert_eq _ _ _)) in Hin; simpl; done.
      * apply (IH _ info) in Hin; try done.
        unfold handleRateLimitError. by rewrite lookup_insert_ne.
Qed.

End RateLimitProperties.

Section RateLimitProtocol.
Import RateLimit.

Lemma quota_positive (modelName : string) : (0 < quota modelName)%Z.
Proof.
  unfold quota, QUOTA_LIMITS.
  repeat (destruct (String.eqb modelName _); [lia|]). lia.
Qed.

Lemma guarded_request_in_window (model : string) (now start : Z)
    (info : RateLimitInfo) (rateLimits : gmap string RateLimitInfo) :
  rateLimits !! modelKey model = Some info →
  isBackingOff info = false →
  lastReset info = start →
  (now - start ≤ 60000)%Z →
  guarded_request model now rateLimits =
    if (requestCount info <? quota (modelKey model))%Z
    then (true,
          <[modelKey model :=
              {| requestCount := (requestCount info + 1)%Z; lastReset := start;
                 isBackingOff := false; nextAvailable := nextAvailable info |}]>
            rateLimits)
    else (false, rateLimits).
Proof.
  intros Hlook Hback Hstart Hnow.
  unfold guarded_request, canMakeRequest.
  rewrite (tracked_lookup _ _ info) by done.
  unfold after_backoff. rewrite Hback. unfold after_window. rewrite Hstart.
  destruct (Z.ltb_spec 60000 (now - start)); [lia|].
  rewrite (insert_id rateLimits) by done.
  destruct (requestCount info <? quota (modelKey model))%Z; [|done].
  unfold registerRequest. rewrite (tracked_lookup _ _ info) by done.
  by rewrite Hback, Hstart.
Qed.

Lemma guarded_requests_in_window (model : string) (start : Z) (times : list Z) :
  ∀ (rateLimits : gmap string RateLimitInfo) (info : RateLimitInfo),
    rateLimits !! modelKey model = Some info →
    isBackingOff info = false →
    lastReset info = start →
    Forall (λ t, (t - start ≤ 60000)%Z) times →
    guarded_requests model times rateLimits =
      (λ i : nat, (requestCount info + Z.of_nat i <? quota (modelKey model))%Z)
        <$> seq 0 (length times).
Proof.
  induction times as [|t times IH]; intros rateLimits info Hlook Hback Hstart Htimes.
  - done.
  - apply Forall_cons in Htimes as [Ht Htimes].
    cbn [guarded_requests length seq fmap list_fmap].
    rewrite (guarded_request_in_window model t start info) by done.
    rewrite Z.add_0_r.
    destruct (Z.ltb_spec (requestCount info) (quota (modelKey model))) as [Hlt | Hge].
    + f_equal.
      erewrite IH; [ | apply lookup_insert_eq | done | done | done ].
      rewrite <- fmap_S_seq, <- list_fmap_compose.
      apply list_fmap_ext. intros _ i _. simpl. f_equal. lia.
    + f_equal. rewrite (IH rateLimits info) by done.
      rewrite <- fmap_S_seq, <- list_fmap_compose.
      apply list_fmap_ext. intros _ i _. simpl.
      transitivity false; [apply Z.ltb_ge | symmetry; apply Z.ltb_ge]; lia.
Qed.

Lemma guarded_request_fresh (model : string) (now : Z)
    (rateLimits : gmap string RateLimitInfo) :
  rateLimits !! modelKey model = None →
  guarded_request model now rateLimits =
    (true,
     <[modelKey model :=
         {| requestCount := 1; lastReset := now; isBackingOff := false;
            nextAvailable := now |}]> rateLimits).
Proof.
  intros Hnone. unfold guarded_request, canMakeRequest, tracked. rewrite Hnone.
  unfold after_backoff, after_window, initializeModelLimit. simpl.
  rewrite Z.sub_diag. simpl.
  pose proof (quota_positive (modelKey model)) as Hpos.
  destruct (Z.ltb_spec 0 (quota (modelKey model))) as [_ | Hbad]; [|lia].
  unfold registerRequest, tracked. rewrite lookup_insert_eq. simpl.
  by rewrite insert_insert_eq.
Qed.

(** The protocol of the callers on a model that was never seen: of the
    guarded requests made within 60 seconds of the first one, exactly the
    first [quota] are admitted and all the others are refused. *)
Lemma guarded_requests_fresh (model : string) (first : Z) (times : list Z)
    (rateLimits : gmap string RateLimitInfo) :
  rateLimits !! modelKey model = None →
  Forall (λ t, (t - first ≤ 60000)%Z) times →
  guarded_requests model (first :: times) rateLimits =
    (λ i : nat, (Z.of_nat i <? quota (modelKey model))%Z)
      <$> seq 0 (S (length times)).
Proof.
  intros Hnone Htimes.
  cbn [guarded_requests length seq fmap list_fmap].
  rewrite guarded_request_fresh by done.
  pose proof (quota_positive (modelKey model)) as Hpos.
  f_equal.
  - symmetry. apply Z.ltb_lt. simpl. lia.
  - erewrite guarded_requests_in_window;
      [ | apply lookup_insert_eq | done | done | done ].
    rewrite <- fmap_S_seq, <- list_fmap_compose.
    apply list_fmap_ext. intros _ i _. simpl. f_equal. lia.
Qed.


End RateLimitProtocol.

(** ** The retry executors *)

Section RetryProperties.
Import Js Retry.
Context {T : Type}.
Variable operation : nat → outcome T.
Variable errors : nat → exn.

Lemma executeWithRetry_from_step (self : RetryUtil) (shouldRetry : exn → bool)
    (fuel c : nat) (last : option exn) :
  executeWithRetry_from operation self shouldRetry (S fuel) c last =
    match operation c with
    | Ok r => (Ok r, [Acquire; Attempt c])
    | Throw error =>
        if (c =? maxRetries self)%nat || negb (shouldRetry error)
        then (Throw error, [Acquire; Attempt c])
        else
          let res := executeWithRetry_from operation self shouldRetry fuel (S c)
                       (Some error) in
          (res.1, Acquire :: Attempt c :: Sleep (calculateDelay self c) :: res.2)
    end.
Proof.
  cbn [executeWithRetry_from]. destruct (operation c); [done|].
  destruct (_ || _); [done|]. by destruct (executeWithRetry_from _ _ _ _ _ _).
Qed.

Lemma withRetry_from_step (retries fuel c : nat) (delay : Z) (last : option exn) :
  withRetry_from operation retries (S fuel) (S c) delay last =
    match operation c with
    | Ok r => (Ok r, [Attempt c])
    | Throw error =>
        if (S c <=? retries)%nat then
          let res := withRetry_from operation retries fuel (S (S c)) (delay * 2)%Z
                       (Some error) in
          (res.1, Attempt c :: Sleep delay :: res.2)
        else
          let res := withRetry_from operation retries fuel (S (S c)) delay
                       (Some error) in
          (res.1, Attempt c :: res.2)
    end.
Proof.
  cbn [withRetry_from]. replace (S c - 1) with c by lia.
  destruct (operation c); [done|].
  destruct (_ <=? _)%nat; by destruct (withRetry_from _ _ _ _ _ _).
Qed.

Lemma calculateDelay_spec (self : RetryUtil) (retryCount : nat) :
  calculateDelay self retryCount =
    spec_delay (maxDelay self) (baseDelay self) (S retryCount).
Proof.
  unfold calculateDelay, spec_delay.
  replace (Z.of_nat (S retryCount) - 1)%Z with (Z.of_nat retryCount) by lia.
  apply Z.min_comm.
Qed.

(** [executeWithRetry], from iteration [c], when the operation fails up to
    its [k]-th invocation with errors that may be retried and succeeds at
    the next one, within the budget. *)
Lemma executeWithRetry_from_success (self : RetryUtil) (shouldRetry : exn → bool)
    (k : nat) (r : T) :
  (∀ i, i < k → operation i = Throw (errors i)) →
  (∀ i, i < k → shouldRetry (errors i) = true) →
  operation k = Ok r →
  k ≤ maxRetries self →
  ∀ d c last, c + d = k →
    let res := executeWithRetry_from operation self shouldRetry
                 (S (maxRetries self - c)) c last in
    res.1 = Ok r
    ∧ attempts res.2 = seq c (S d)
    ∧ sleeps res.2 = spec_delay (maxDelay self) (baseDelay self) <$> seq (S c) d.
Proof.
  intros Hfail Hretry Hok Hk.
  induction d as [|d IH]; intros c last Hc; rewrite executeWithRetry_from_step.
  - replace c with k by lia. rewrite Hok. done.
  - rewrite (Hfail c) by lia. rewrite (Hretry c) by lia.
    destruct (Nat.eqb_spec c (maxRetries self)) as [Heq | Hne]; [lia|].
    cbn [orb negb].
    replace (maxRetries self - c) with (S (maxRetries self - S c)) by lia.
    destruct (IH (S c) (Some (errors c)) ltac:(lia)) as (Hres & Hatt & Hsl).
    cbn [fst snd attempts sleeps].
    rewrite Hatt, Hsl, calculateDelay_spec. done.
Qed.

(** [executeWithRetry], from iteration [c], when every invocation within
    the budget fails with an error that may be retried. *)
Lemma executeWithRetry_from_exhausted (self : RetryUtil) (shouldRetry : exn → bool) :
  (∀ i, i ≤ maxRetries self → operation i = Throw (errors i)) →
  (∀ i, i < maxRetries self → shouldRetry (errors i) = true) →
  ∀ d c last, c + d = maxRetries self →
    let res := executeWithRetry_from operation self shouldRetry (S d) c last in
    res.1 = Throw (errors (maxRetries self))
    ∧ attempts res.2 = seq c (S d)
    ∧ sleeps res.2 = spec_delay (maxDelay self) (baseDelay self) <$> seq (S c) d.
Proof.
  intros Hfail Hretry.
  induction d as [|d IH]; intros c last Hc; rewrite executeWithRetry_from_step.
  - rewrite (Hfail c) by lia.
    destruct (Nat.eqb_spec c (maxRetries self)) as [Heq | Hne]; [|lia].
    cbn. by rewrite Heq.
  - rewrite (Hfail c) by lia. rewrite (Hretry c) by lia.
    destruct (Nat.eqb_spec c (maxRetries self)) as [Heq | Hne]; [lia|].
    cbn [orb negb].
    destruct (IH (S c) (Some (errors c)) ltac:(lia)) as (Hres & Hatt & Hsl).
    cbn [fst snd attempts sleeps].
    rewrite Hatt, Hsl, calculateDelay_spec. done.
Qed.

(** Whatever [shouldRetry] answers, an operation that fails at every
    invocation within the budget makes [executeWithRetry] throw one of its
    errors. *)
Lemma executeWithRetry_from_throws (self : RetryUtil) (shouldRetry : exn → bool) :
  (∀ i, i ≤ maxRetries self → operation i = Throw (errors i)) →
  ∀ d c last, c + d = maxRetries self →
    ∃ j, j ≤ maxRetries self ∧
      (executeWithRetry_from operation self shouldRetry (S d) c last).1
        = Throw (errors j).
Proof.
  intros Hfail.
  induction d as [|d IH]; intros c last Hc; rewrite executeWithRetry_from_step.
  - rewrite (Hfail c) by lia.
    destruct (Nat.eqb_spec c (maxRetries self)) as [Heq | Hne]; [|lia].
    exists c. split; [lia | done].
  - rewrite (Hfail c) by lia.
    destruct (Nat.eqb_spec c (maxRetries self)) as [Heq | Hne]; [lia|].
    destruct (shouldRetry (errors c)); cbn [orb negb].
    + destruct (IH (S c) (Some (errors c)) ltac:(lia)) as (j & Hj & Hres).
      exists j. done.
    + exists c. split; [lia | done].
Qed.

Lemma doubling_delays (delay : Z) (d : nat) :
  (λ i : nat, (delay * 2 * 2 ^ Z.of_nat i)%Z) <$> seq 0 d =
  (λ i : nat, (delay * 2 ^ Z.of_nat i)%Z) <$> seq 1 d.
Proof.
  rewrite <- fmap_S_seq, <- list_fmap_compose.
  apply list_fmap_ext. intros _ i _. simpl.
  rewrite Nat2Z.inj_succ, Z.pow_succ_r by lia. lia.
Qed.

(** [withRetry], from iteration [attempt], when the operation fails [k]
    times and then succeeds, within the budget. *)
Lemma withRetry_from_success (retries k : nat) (r : T) :
  (∀ i, i < k → operation i = Throw (errors i)) →
  operation k = Ok r →
  k ≤ retries →
  ∀ d c delay last, c + d = k →
    let res := withRetry_from operation retries (S (retries - c)) (S c) delay last in
    res.1 = Ok r
    ∧ attempts res.2 = seq c (S d)
    ∧ sleeps res.2 = (λ i : nat, (delay * 2 ^ Z.of_nat i)%Z) <$> seq 0 d.
Proof.
  intros Hfail Hok Hk.
  induction d as [|d IH]; intros c delay last Hc; rewrite withRetry_from_step.
  - replace c with k by lia. rewrite Hok. done.
  - rewrite (Hfail c) by lia.
    destruct (Nat.leb_spec (S c) retries) as [Hle | Hgt]; [|lia].
    replace (retries - c) with (S (retries - S c)) by lia.
    destruct (IH (S c) (delay * 2)%Z (Some (errors c)) ltac:(lia))
      as (Hres & Hatt & Hsl).
    cbn [fst snd attempts sleeps]. rewrite Hatt, Hsl, doubling_delays.
    cbn [seq fmap list_fmap]. rewrite Z.pow_0_r, Z.mul_1_r. done.
Qed.

(** [withRetry], from iteration [attempt], when every invocation within the
    budget fails: the last error is thrown. *)
Lemma withRetry_from_exhausted (retries : nat) :
  (∀ i, i ≤ retries → operation i = Throw (errors i)) →
  ∀ d c delay last, c + d = retries →
    let res := withRetry_from operation retries (S d) (S c) delay last in
    res.1 = Throw (errors retries)
    ∧ attempts res.2 = seq c (S d)
    ∧ sleeps res.2 = (λ i : nat, (delay * 2 ^ Z.of_nat i)%Z) <$> seq 0 d.
Proof.
  intros Hfail.
  induction d as [|d IH]; intros c delay last Hc; rewrite withRetry_from_step.
  - rewrite (Hfail c) by lia.
    destruct (Nat.leb_spec (S c) retries) as [Hle | Hgt]; [lia|].
    cbn. replace c with retries by lia. done.
  - rewrite (Hfail c) by lia.
    destruct (Nat.leb_spec (S c) retries) as [Hle | Hgt]; [|lia].
    destruct (IH (S c) (delay * 2)%Z (Some (errors c)) ltac:(lia))
      as (Hres & Hatt & Hsl).
    cbn [fst snd attempts sleeps]. rewrite Hatt, Hsl, doubling_delays.
    cbn [seq fmap list_fmap]. rewrite Z.pow_0_r, Z.mul_1_r. done.
Qed.
End RetryProperties.

Section RetryClaims.
Import Js Retry.

(** C5.  For an operation that fails [k] times, with errors that
    [shouldRetry] accepts (as the default [() => true] does), and then
    succeeds: with [maxRetries >= k] the executor returns the success; with
    [maxRetries < k] it throws, after exactly [maxRetries + 1] attempts; and
    the wait before the [n]-th retry is
    [min(maxDelay, baseDelay * 2^(n-1))], for every retry that is made. *)
Theorem executeWithRetry_fails_then_succeeds {T : Type}
    (operation : nat → outcome T) (errors : nat → exn)
    (self : RetryUtil) (shouldRetry : exn → bool) (k : nat) (r : T)
    (Hfail : ∀ i, i < k → operation i = Throw (errors i))
    (Hretry : ∀ i, i < k → shouldRetry (errors i) = true)
    (Hok : operation k = Ok r) :
  let res := executeWithRetry operation self shouldRetry in
  (k ≤ maxRetries self → res.1 = Ok r)
  ∧ (maxRetries self < k →
       res.1 = Throw (errors (maxRetries self))
       ∧ attempts res.2 = seq 0 (maxRetries self + 1))
  ∧ sleeps res.2 =
      spec_delay (maxDelay self) (baseDelay self) <$> seq 1 (k `min` maxRetries self).
Proof.
  intros res. subst res. unfold executeWithRetry.
  destruct (le_lt_dec k (maxRetries self)) as [Hle | Hgt].
  - pose proof (executeWithRetry_from_success operation errors self shouldRetry
                  k r Hfail Hretry Hok Hle k 0 None eq_refl) as H.
    rewrite Nat.sub_0_r in H. cbn zeta in H. destruct H as (Hres & _ & Hsl).
    rewrite Nat.min_l by done.
    split; [done | split; [lia | done]].
  - assert (Hfail' : ∀ i, i ≤ maxRetries self → operation i = Throw (errors i))
      by (intros i Hi; apply Hfail; lia).
    assert (Hretry' : ∀ i, i < maxRetries self → shouldRetry (errors i) = true)
      by (intros i Hi; apply Hretry; lia).
    pose proof (executeWithRetry_from_exhausted operation errors self shouldRetry
                  Hfail' Hretry' (maxRetries self) 0 None eq_refl) as H.
    cbn zeta in H. destruct H as (Hres & Hatt & Hsl).
    rewrite Nat.min_r by lia. rewrite Nat.add_1_r.
    split; [lia | split; [done | done]].
Qed.

(** The same for [withRetry], whose options have no largest delay: the wait
    before the [n]-th retry is [delay * 2^(n-1)]. *)
Lemma withRetry_fails_then_succeeds {T : Type}
    (operation : nat → outcome T) (errors : nat → exn)
    (retries : nat) (delay : Z) (k : nat) (r : T) :
  (∀ i, i < k → operation i = Throw (errors i)) →
  operation k = Ok r →
  let res := withRetry operation retries delay in
  (k ≤ retries → res.1 = Ok r)
  ∧ (retries < k →
       res.1 = Throw (errors retries) ∧ attempts res.2 = seq 0 (retries + 1))
  ∧ sleeps res.2 =
      (λ i : nat, (delay * 2 ^ Z.of_nat i)%Z) <$> seq 0 (k `min` retries).
Proof.
  intros Hfail Hok res. subst res. unfold withRetry.
  destruct (le_lt_dec k retries) as [Hle | Hgt].
  - pose proof (withRetry_from_success operation errors retries k r Hfail Hok Hle
                  k 0 delay None eq_refl) as H.
    rewrite Nat.sub_0_r in H. cbn zeta in H. destruct H as (Hres & _ & Hsl).
    rewrite Nat.min_l by done.
    split; [done | split; [lia | done]].
  - assert (Hfail' : ∀ i, i ≤ retries → operation i = Throw (errors i))
      by (intros i Hi; apply Hfail; lia).
    pose proof (withRetry_from_exhausted operation errors retries Hfail'
                  retries 0 delay None eq_refl) as H.
    cbn zeta in H. destruct H as (Hres & Hatt & Hsl).
    rewrite Nat.min_r by lia. rewrite Nat.add_1_r.
    split; [lia | split; [done | done]].
Qed.

Lemma executeWithRetry_fails_then_succeeds_witness :
  let operation := λ n : nat,
    if (n <? 2)%nat then Throw (ErrorObj "Server error") else Ok (VStr "payload") in
  (executeWithRetry operation apiConfig_retry always_retry).1 = Ok (VStr "payload")
  ∧ sleeps (executeWithRetry operation apiConfig_retry always_retry).2
      = [1000; 2000]%Z
  ∧ (executeWithRetry operation
       {| maxRetries := 1; baseDelay := 1000; maxDelay := 1500 |} always_retry).1
      = Throw (ErrorObj "Server error")
  ∧ attempts (executeWithRetry operation
       {| maxRetries := 1; baseDelay := 1000; maxDelay := 1500 |} always_retry).2
      = [0; 1]%nat.
Proof.
  intros operation.
  assert (Hfail : ∀ i, i < 2 → operation i = Throw ((λ _, ErrorObj "Server error") i))
    by (intros [|[|i]] Hi; [reflexivity | reflexivity | lia]).
  assert (Hretry : ∀ i, i < 2 →
            always_retry ((λ _ : nat, ErrorObj "Server error") i) = true)
    by reflexivity.
  assert (Hok : operation 2 = Ok (VStr "payload")) by reflexivity.
  destruct (executeWithRetry_fails_then_succeeds operation
              (λ _, ErrorObj "Server error") apiConfig_retry always_retry 2
              (VStr "payload") Hfail Hretry Hok) as (Hsuccess & _ & Hsleeps).
  destruct (executeWithRetry_fails_then_succeeds operation
              (λ _, ErrorObj "Server error")
              {| maxRetries := 1; baseDelay := 1000; maxDelay := 1500 |}
              always_retry 2 (VStr "payload") Hfail Hretry Hok)
    as (_ & Hfailure & _).
  split; [apply Hsuccess; simpl; lia|].
  split; [exact Hsleeps|].
  apply Hfailure. simpl. lia.
Defined.
End RetryClaims.

(** ** Summarization of search results *)

Section ToolsProperties.
Import Js Tools.
Variable reader : nat → value → outcome value.

Lemma get_non_nullish (v : value) (k : string) :
  nullish v = false → get v k = Ok (get_opt v k).
Proof. by destruct v. Qed.

Lemma summarizeWebpage_object (response : outcome value) :
  ∃ fields, summarizeWebpage response = VObj fields.
Proof.
  unfold summarizeWebpage.
  destruct (_ ≫= _) as [result | error] eqn:Hbody; [|by eexists].
  destruct response as [data | e]; [|done]. cbn in Hbody.
  destruct (get data "summary"); [|done]. cbn in Hbody.
  destruct (get data "key_points"); [|done]. cbn in Hbody.
  injection Hbody as <-. by eexists.
Qed.

Lemma summarize_one_entry (items : list value) (i : nat) (x : value)
    (summaries : list value) :
  items !! i = Some x →
  nullish x = false →
  truthy (get_opt x "link") = true →
  summarize_one reader (VArr items) i (get_opt x "link") summaries =
    summaries ++ option_list (summary_entry reader i x).
Proof.
  intros Hx Hnn Hlink. unfold summarize_one, summary_entry. rewrite Hlink.
  destruct (summarizeWebpage_object (reader i (get_opt x "link"))) as [fields ->].
  cbn [get get_opt index]. rewrite Hx. cbn [default].
  rewrite (get_non_nullish x) by done. cbn.
  destruct (truthy (obj_get fields "error")); cbn; [by rewrite app_nil_r | done].
Qed.

Lemma summary_entries_cons (i : nat) (x : value) (rest : list value) :
  summary_entries reader i (x :: rest) =
    option_list (summary_entry reader i x) ++ summary_entries reader (S i) rest.
Proof. cbn. by destruct (summary_entry reader i x). Qed.

Lemma links_cons (x : value) (rest : list value) :
  links (x :: rest) =
    (if truthy (get_opt x "link") then [get_opt x "link"] else []) ++ links rest.
Proof.
  unfold links. rewrite fmap_cons, filter_cons.
  destruct (truthy (get_opt x "link")) eqn:Ht; by case_decide.
Qed.

(** The loop visits every one of its [fuel] iterations. *)
Lemma summarize_from_all (items : list value) (fuel : nat) :
  ∀ i summaries requested,
    Forall (λ x, nullish x = false) (take fuel (drop i items)) →
    fuel ≤ length items - i →
    summarize_from reader (VArr items) fuel i summaries requested =
      (Ok (summaries ++ summary_entries reader i (take fuel (drop i items))),
       requested ++ links (take fuel (drop i items))).
Proof.
  induction fuel as [|fuel IH]; intros i summaries requested Hnn Hfuel.
  - cbn. by rewrite !app_nil_r.
  - assert (Hi : i < length items) by lia.
    apply lookup_lt_is_Some in Hi as [x Hx].
    rewrite (drop_S _ _ _ Hx) in Hnn |- *. cbn [take] in Hnn |- *.
    apply Forall_cons in Hnn as [Hx_nn Hnn].
    cbn [summarize_from index]. rewrite Hx. cbn [default].
    rewrite (get_non_nullish x) by done.
    rewrite summary_entries_cons, links_cons.
    destruct (truthy (get_opt x "link")) eqn:Hlink.
    + rewrite IH by (done || lia).
      rewrite (summarize_one_entry items i x) by done.
      by rewrite <- !app_assoc.
    + rewrite IH by (done || lia).
      unfold summary_entry. rewrite Hlink. done.
Qed.

(** Given search results whose [organic] is an array, the first three
    entries of which are objects: each of those entries that has a link is
    handed to [summarizeWebpage], in order, and every summary without an
    [error] is kept. *)
Lemma getHousingMarketData_summarizes_first_three (searchResults : value)
    (items : list value)
    (Horganic : get searchResults "organic" = Ok (VArr items))
    (Hitems : Forall (λ x, nullish x = false) (take 3 items)) :
  getHousingMarketData reader searchResults =
    (VObj [("searchResults", VArr items);
           ("summaries", VArr (summary_entries reader 0 (take 3 items)))],
     links (take 3 items)).
Proof.
  unfold getHousingMarketData. rewrite Horganic. cbn [truthy andb length_of].
  assert (Htake : take (3 `min` length items) items = take 3 items)
    by (by destruct items as [|a [|b [|c l]]]).
  destruct (Nat.ltb_spec 0 (length items)) as [Hlen | Hlen].
  - rewrite summarize_from_all; rewrite ?drop_0, ?Htake; [done | done | lia].
  - destruct items; [done | simpl in Hlen; lia].
Qed.
End ToolsProperties.

(** ** Content summaries of the chat route *)

Section ChatSummaries.
Import Js Chat.
Variable post : nat → string → outcome value.

Lemma obj_get_obj_set (fields : list (string * value)) (k k' : string) (v : value) :
  obj_get (obj_set fields k v) k' = if String.eqb k k' then v else obj_get fields k'.
Proof.
  induction fields as [|[k0 v0] fields IH]; cbn [obj_set obj_get].
  - done.
  - destruct (String.eqb k0 k) eqn:Hk0; cbn [obj_get].
    + apply String.eqb_eq in Hk0. subst k0. by destruct (String.eqb k k').
    + rewrite IH. destruct (String.eqb k0 k') eqn:Hk0'; [|done].
      apply String.eqb_eq in Hk0'. subst k0. by rewrite String.eqb_sym, Hk0.
Qed.

(** A truthy summary can only be read from an object. *)
Lemma yields_summary_data (response : outcome value) :
  yields_summary response = true →
  ∃ r fields, response = Ok r ∧ get r "data" = Ok (VObj fields)
    ∧ data_of response = VObj fields.
Proof.
  unfold yields_summary, summary_of, data_of.
  destruct response as [r | e]; [|done].
  destruct r as [ | | | | | |rfields]; try done.
  cbn [get_opt get].
  destruct (obj_get rfields "data") as [ | | | | | |fields] eqn:Hdata; try done.
  intros _. exists (VObj rfields), fields. cbn [get]. by rewrite Hdata.
Qed.

(** The [try] block returns from the function exactly when the request
    yields a summary. *)
Lemma try_url_yields (i : nat) (url : string) :
  try_catch (try_url post i url) (λ _, Ok None)
  = Ok (if yields_summary (post i url)
        then Some (found url (data_of (post i url))) else None).
Proof.
  unfold try_url, yields_summary, summary_of, data_of.
  destruct (post i url) as [r | e]; [|done].
  cbn [mbind outcome_bind bind].
  destruct r as [ | | | | | |rfields]; try done.
  cbn [get get_opt bind].
  destruct (obj_get rfields "data") as [ | |b|q|s|xs|fields];
    cbn [mbind outcome_bind bind]; try done.
  - by destruct b.
  - by destruct (truthy (VNum q)).
  - by destruct (truthy (VStr s)).
  - cbn [truthy get get_opt mbind outcome_bind bind mret outcome_ret].
    by destruct (truthy (obj_get fields "summary")).
Qed.

Lemma try_urls_policy (urls : list string) (i : nat) :
  let result := (try_urls post i urls).1 in
  let requested := (try_urls post i urls).2 in
  (∃ rest, urls = requested ++ rest)
  ∧ (∀ j url, requested !! j = Some url → S j < length requested →
       yields_summary (post (i + j) url) = false)
  ∧ ((∃ j url, urls !! j = Some url
        ∧ yields_summary (post (i + j) url) = true
        ∧ length requested = S j
        ∧ result = Some (found url (data_of (post (i + j) url))))
     ∨ ((∀ j url, urls !! j = Some url → yields_summary (post (i + j) url) = false)
        ∧ requested = urls ∧ result = None)).
Proof.
  revert i. induction urls as [|url urls IH]; intros i; cbn zeta.
  - cbn [try_urls fst snd]. split; [by exists []|]. split; [done|]. by right.
  - cbn [try_urls]. rewrite try_url_yields.
    destruct (yields_summary (post i url)) eqn:Hyields.
    + cbn [fst snd]. split; [by exists urls|].
      split; [intros [|j] u; cbn; [lia | done]|].
      left. exists 0, url. rewrite Nat.add_0_r. done.
    + specialize (IH (S i)). cbn zeta in IH.
      destruct (try_urls post (S i) urls) as [result requested].
      cbn [fst snd] in *. destruct IH as ([rest ->] & Hfail & Hend).
      split; [by exists rest|]. split.
      * intros [|j] u; cbn [lookup length]; simpl.
        -- intros [= <-] _. by rewrite Nat.add_0_r.
        -- intros Hu Hj. rewrite Nat.add_succ_r. apply Hfail; [done | lia].
      * destruct Hend as [(j & u & Hu & Hy & Hlen & ->) | (Hall & Hreq & ->)].
        -- left. exists (S j), u. rewrite Nat.add_succ_r.
           split; [done|]. split; [done|]. split; [by rewrite length_cons, Hlen | done].
        -- right. split; [|split; [by f_equal | done]].
           intros [|j] u; simpl.
           ++ intros [= <-]. by rewrite Nat.add_0_r.
           ++ intros Hu. rewrite Nat.add_succ_r. by apply Hall.
Qed.

(** C6.  The candidate urls handed to [getSummaryForCity] are requested in
    order, one after the other, up to the first one whose response yields a
    summary that is not empty, and none after it: the requested urls are a
    prefix of the list, no request but the last one yields a summary, and
    either the last request is the first to yield a summary, and the result
    is its data with [source] that url and [success: true], or no url of the
    list yields a summary, all of them are requested and the result is the
    object without a summary.  A request whose summary is a text yields a
    summary when the text is not empty. *)
Theorem getSummaryForCity_stops_at_first_summary (urls : list string) :
  let result := (getSummaryForCity post urls).1 in
  let requested := (getSummaryForCity post urls).2 in
  (∃ rest, urls = requested ++ rest)
  ∧ (∀ i url, requested !! i = Some url → S i < length requested →
       yields_summary (post i url) = false)
  ∧ ((∃ i url, urls !! i = Some url
        ∧ yields_summary (post i url) = true
        ∧ requested = take (S i) urls
        ∧ get_opt result "success" = VBool true
        ∧ get_opt result "source" = VStr url
        ∧ get_opt result "summary" = summary_of (post i url)
        ∧ ∀ key, key ≠ "source" → key ≠ "success" →
            get_opt result key = get_opt (data_of (post i url)) key)
     ∨ ((∀ i url, urls !! i = Some url → yields_summary (post i url) = false)
        ∧ requested = urls
        ∧ result = VObj [("summary", VNull);
                         ("source", default VUndefined (VStr <$> head urls));
                         ("success", VBool false)]))
  ∧ ∀ response text, summary_of response = VStr text →
      yields_summary response = negb (String.eqb text "").
Proof.
  cbn zeta. unfold getSummaryForCity.
  pose proof (try_urls_policy urls 0) as Hpolicy. cbn zeta in Hpolicy.
  destruct (try_urls post 0 urls) as [found_result requested].
  cbn [fst snd] in *. destruct Hpolicy as ([rest Hrest] & Hfail & Hend).
  split; [by exists rest|]. split; [exact Hfail|]. split.
  - destruct Hend as [(i & url & Hurl & Hyields & Hlen & ->) | (Hall & -> & ->)].
    + left. exists i, url. cbn [Nat.add] in *.
      split; [done|]. split; [done|]. split.
      { rewrite Hrest, <- Hlen. by rewrite take_app_length. }
      destruct (yields_summary_data _ Hyields) as (r & fields & _ & _ & Hdata).
      unfold summary_of. rewrite Hdata.
      cbn [default from_option id]. unfold found. cbn [spread get_opt].
      rewrite !obj_get_obj_set. cbn.
      split; [done|]. split; [done|]. split; [done|].
      intros key Hsource Hsuccess. rewrite !obj_get_obj_set.
      destruct (String.eqb_spec "success" key); [by subst|].
      destruct (String.eqb_spec "source" key); [by subst|]. done.
    + right. split; [exact Hall|]. split; [done|].
      cbn [default not_found]. by destruct urls.
  - intros response text Htext. unfold yields_summary. by rewrite Htext.
Qed.

End ChatSummaries.

(** For Austin, with a reader that has an empty summary for the first page,
    fails for the second and summarizes the third, three pages are
    requested, the third is the source of the result, and the ten others
    are left alone. *)
Lemma getSummaryForCity_stops_at_first_summary_witness :
  (Chat.getSummaryForCity Scenarios.third_page_works (Chat.getUrlsForCity "austin")).2
  = ["https://www.bestplaces.net/city/austin";
     "https://www.areavibes.com/austin";
     "https://www.city-data.com/city/austin.html"]
  ∧ (Chat.getSummaryForCity Scenarios.third_page_works (Chat.getUrlsForCity "austin")).1
    = Js.VObj [("summary", Js.VStr "A growing city.");
               ("title", Js.VStr "https://www.city-data.com/city/austin.html");
               ("source", Js.VStr "https://www.city-data.com/city/austin.html");
               ("success", Js.VBool true)]
  ∧ ∃ rest,
      Chat.getUrlsForCity "austin"
      = (Chat.getSummaryForCity Scenarios.third_page_works
           (Chat.getUrlsForCity "austin")).2 ++ rest
      ∧ length rest = 10.
Proof.
  split; [reflexivity|]. split; [reflexivity|].
  destruct (getSummaryForCity_stops_at_first_summary
              Scenarios.third_page_works (Chat.getUrlsForCity "austin"))
    as ([rest Hrest] & _).
  exists rest. split; [exact Hrest|].
  apply (f_equal length) in Hrest. rewrite length_app in Hrest.
  change (13 = 3 + length rest) in Hrest. lia.
Defined.

(** ** Failures at the boundary of the orchestrator *)

Section CallApiProperties.
Import Js Retry Orchestrator.
Variable world : Provider → list value → nat → outcome value.

Lemma retried_exhausted (provider : Provider) (args : list value) (errors : nat → exn) :
  (∀ n, n ≤ 2 → world provider args n = Throw (errors n)) →
  retried world provider (Ok args) = Throw (errors 2).
Proof.
  intros Hfail. unfold retried, withRetry.
  set (operation := λ n : nat, a ← (Ok args : outcome (list value));
                               world provider a n).
  assert (Hop : ∀ n, n ≤ 2 → operation n = Throw (errors n))
    by (intros n Hn; unfold operation; cbn; auto).
  by destruct (withRetry_from_exhausted operation errors 2 Hop
                 2 0 1000%Z None eq_refl) as (-> & _).
Qed.

Lemma retried_first_success (provider : Provider) (args : list value) (v : value) :
  world provider args 0 = Ok v → retried world provider (Ok args) = Ok v.
Proof. intros Hok. unfold retried, withRetry. cbn. by rewrite Hok. Qed.

Lemma one_arg_ok (params : value) (k : string) :
  nullish params = false → one_arg params k = Ok [get_opt params k].
Proof. intros H. unfold one_arg. by rewrite get_non_nullish. Qed.

Lemma two_args_ok (params : value) (k1 k2 : string) :
  nullish params = false →
  two_args params k1 k2 = Ok [get_opt params k1; get_opt params k2].
Proof. intros H. unfold two_args. by rewrite !get_non_nullish. Qed.

Lemma radar_search_ok (params : value) :
  nullish params = false → ∃ args, radar_search params = Ok args.
Proof. intros H. unfold radar_search. rewrite !get_non_nullish by done. by eexists. Qed.

(** The [try]/[catch] of [callApi] covers its whole body: no input makes
    it throw. *)
Lemma callApi_never_throws (apiName : string) (params : value) :
  ∃ result, callApi world apiName params = Ok result.
Proof. unfold callApi. destruct (callApi_switch _ _ _); by eexists. Qed.

Lemma callApi_catches (apiName : string) (params : value) (error : exn) :
  callApi_switch world apiName params = Throw error →
  callApi world apiName params = Ok (error_result apiName error).
Proof. intros H. unfold callApi. by rewrite H. Qed.

Lemma callApi_switch_all_fail (errors : nat → exn) (apiName : string) (params : value) :
  (∀ provider args n, world provider args n = Throw (errors n)) →
  apiName ∈ known_apis →
  nullish params = false →
  callApi_switch world apiName params = Throw (errors 2).
Proof.
  intros Hworld Hknown Hparams.
  unfold known_apis in Hknown.
  repeat (apply elem_of_cons in Hknown as [-> | Hknown]);
    try (by apply elem_of_nil in Hknown);
    unfold callApi_switch; cbn [String.eqb Ascii.eqb Bool.eqb];
    rewrite ?one_arg_ok, ?two_args_ok by done;
    try (by apply retried_exhausted).
  - destruct (radar_search_ok params Hparams) as [args ->].
    by apply retried_exhausted.
  - rewrite get_non_nullish by done. cbn.
    destruct (truthy (get_opt params "cityB"));
      rewrite ?one_arg_ok, ?two_args_ok by done; by apply retried_exhausted.
Qed.
End CallApiProperties.

Section RetryBoundary.
Import Js Retry Orchestrator.

(** C4, as amended.  When every invocation of the wrapped operation fails,
    both retry executors throw: [executeWithRetry] one of the operation's
    errors, [withRetry] the last one.  The failure becomes a result only
    one level up, in [callApi], whose [catch] turns what the executor
    threw into the object [{error, details}]; no exception passes
    [callApi]. *)
Theorem terminal_failure_thrown_by_executor_caught_by_callApi {T : Type}
    (operation : nat → outcome T) (errors : nat → exn)
    (self : RetryUtil) (shouldRetry : exn → bool) (retries : nat) (delay : Z)
    (world : Provider → list value → nat → outcome value)
    (apiName : string) (params : value)
    (Hfail : ∀ n, operation n = Throw (errors n))
    (Hworld : ∀ provider args n, world provider args n = Throw (errors n))
    (Hknown : apiName ∈ known_apis)
    (Hparams : nullish params = false) :
  (∃ j, j ≤ maxRetries self
        ∧ (executeWithRetry operation self shouldRetry).1 = Throw (errors j))
  ∧ (withRetry operation retries delay).1 = Throw (errors retries)
  ∧ callApi world apiName params = Ok (error_result apiName (errors 2)).
Proof.
  split; [|split].
  - unfold executeWithRetry.
    apply (executeWithRetry_from_throws operation errors self shouldRetry);
      [intros; apply Hfail | lia].
  - unfold withRetry.
    by destruct (withRetry_from_exhausted operation errors retries
                   (λ i _, Hfail i) retries 0 delay None eq_refl) as (-> & _).
  - apply callApi_catches. by apply callApi_switch_all_fail.
Qed.
End RetryBoundary.

(** ** Comparison of two cities *)

Section ComparisonProperties.
Import Js Fusion.

Lemma num_gt_lt (a b : Q) : num_gt a b = true ↔ (b < a)%Q.
Proof.
  unfold num_gt. change (b < a)%Q with (a > b)%Q. rewrite Qgt_alt.
  destruct (a ?= b)%Q; split; congruence.
Qed.

(** Equal scores are a win for neither city. *)
Lemma equal_scores_no_win (a b : Q) :
  (a == b)%Q → num_gt a b = false ∧ num_gt b a = false.
Proof.
  intros Heq. unfold num_gt.
  assert (H1 : (a ?= b)%Q = Eq) by by apply Qeq_alt.
  assert (H2 : (b ?= a)%Q = Eq) by (apply Qeq_alt; by symmetry).
  by rewrite H1, H2.
Qed.

Lemma num_gt_asym (a b : Q) : num_gt a b = true → num_gt b a = false.
Proof.
  unfold num_gt. rewrite <- (Qcompare_antisym a b).
  by destruct (a ?= b)%Q.
Qed.

Lemma compare_category_entry (name1 name2 : string) (scores1 scores2 : gmap string Q)
    (category : string) (acc : Tally) :
  tally_categories (compare_category name1 name2 scores1 scores2 category acc) =
    <[category := category_entry name1 name2 scores1 scores2 category]>
      (tally_categories acc).
Proof.
  unfold compare_category, category_entry.
  by repeat destruct (num_gt _ _).
Qed.

Lemma compare_category_wins (name1 name2 : string) (scores1 scores2 : gmap string Q)
    (category : string) (acc : Tally) :
  let t := compare_category name1 name2 scores1 scores2 category acc in
  city1Wins t = (if decide (beats scores1 scores2 category) then 1 else 0) + city1Wins acc
  ∧ city2Wins t = (if decide (beats scores2 scores1 category) then 1 else 0) + city2Wins acc.
Proof.
  cbn zeta. unfold compare_category.
  destruct (decide (beats scores1 scores2 category)) as [H12 | H12];
    destruct (decide (beats scores2 scores1 category)) as [H21 | H21];
    unfold beats in H12, H21.
  - apply num_gt_asym in H12. congruence.
  - by rewrite H12.
  - apply not_true_is_false in H12. by rewrite H12, H21.
  - apply not_true_is_false in H12, H21. by rewrite H12, H21.
Qed.

Lemma tally_over_list (name1 name2 : string) (scores1 scores2 : gmap string Q)
    (l : list string) :
  let t := foldr (compare_category name1 name2 scores1 scores2)
             {| tally_categories := ∅; city1Wins := 0; city2Wins := 0 |} l in
  city1Wins t = length (filter (beats scores1 scores2) l)
  ∧ city2Wins t = length (filter (beats scores2 scores1) l)
  ∧ ∀ category,
      tally_categories t !! category =
        if decide (category ∈ l)
        then Some (category_entry name1 name2 scores1 scores2 category)
        else None.
Proof.
  induction l as [|c l IH]; cbn [foldr].
  - split; [done | split; [done|]]. intros category. simpl. by rewrite lookup_empty.
  - destruct IH as (IH1 & IH2 & IH3).
    destruct (compare_category_wins name1 name2 scores1 scores2 c
                (foldr (compare_category name1 name2 scores1 scores2)
                   {| tally_categories := ∅; city1Wins := 0; city2Wins := 0 |} l))
      as [H1 H2].
    cbn zeta in *. rewrite H1, H2, IH1, IH2, !filter_cons. clear H1 H2 IH1 IH2.
    split; [by destruct (decide (beats scores1 scores2 c))|].
    split; [by destruct (decide (beats scores2 scores1 c))|].
    intros category. rewrite compare_category_entry.
    destruct (decide (c = category)) as [-> | Hne].
    + rewrite lookup_insert_eq. rewrite decide_True by apply list_elem_of_here. done.
    + rewrite lookup_insert_ne by done. rewrite IH3.
      destruct (decide (category ∈ l)) as [Hin | Hin].
      * rewrite decide_True by (by apply list_elem_of_further). done.
      * rewrite decide_False; [done|].
        intros [? | ?]%elem_of_cons; [by subst | done].
Qed.

Lemma size_filter_elements (P : string → Prop) `{!∀ x, Decision (P x)} (X : gset string) :
  size (filter P X) = length (filter P (elements X)).
Proof.
  unfold size, set_size. simpl. unfold filter at 1, set_filter.
  rewrite elements_list_to_set; [done|].
  apply NoDup_filter, NoDup_elements.
Qed.

Lemma tally_spec (name1 name2 : string) (scores1 scores2 : gmap string Q) :
  let t := tally name1 name2 scores1 scores2 in
  city1Wins t = category_wins scores1 scores2
  ∧ city2Wins t = category_wins scores2 scores1
  ∧ ∀ category,
      tally_categories t !! category =
        if decide (category ∈ allCategories scores1 scores2)
        then Some (category_entry name1 name2 scores1 scores2 category)
        else None.
Proof.
  unfold tally, set_fold, category_wins. cbn [compose].
  destruct (tally_over_list name1 name2 scores1 scores2
              (elements (allCategories scores1 scores2))) as (H1 & H2 & H3).
  cbn zeta in *. rewrite H1, H2, !size_filter_elements.
  split; [done|]. split.
  - unfold allCategories. by rewrite (union_comm_L (dom scores2)).
  - intros category. rewrite H3.
    repeat case_decide; try done; exfalso; set_solver.
Qed.
End ComparisonProperties.

Section Rounding.
Import Js.

(** [toFixed(1)] on a whole number. *)
Lemma tenths_integer (x : Q) (z : Z) :
  (x == inject_Z z)%Q → tenths x = (Z.abs z * 10)%Z.
Proof.
  intros Hx. unfold tenths. rewrite Hx.
  unfold Qfloor, Qabs, Qplus, Qmult, inject_Z. simpl.
  change (Z.pos (1 * 1 * 2)) with 2%Z. change (Z.pos (1 * 1)) with 1%Z.
  symmetry. apply (Z.div_unique _ 2 _ 1); lia.
Qed.

Lemma is_negative_lt (x : Q) : is_negative x = true ↔ (x < 0)%Q.
Proof.
  unfold is_negative. rewrite Qlt_alt. by destruct (Qcompare x 0).
Qed.

(** Rounding to one decimal keeps a whole number and moves any number by
    less than one tenth. *)
Lemma round1_integer (x : Q) (z : Z) :
  (x == inject_Z z)%Q → (round1 x == inject_Z z)%Q.
Proof.
  intros Hx. unfold round1. rewrite (tenths_integer x z Hx), Qred_correct.
  destruct (is_negative x) eqn:Hneg.
  - apply is_negative_lt in Hneg. rewrite Hx in Hneg.
    unfold Qlt, inject_Z in Hneg. simpl in Hneg.
    unfold Qeq, Qopp, inject_Z. simpl. lia.
  - assert (¬ (x < 0)%Q) as Hpos by (rewrite <- is_negative_lt; congruence).
    rewrite Hx in Hpos. unfold Qlt, inject_Z in Hpos. simpl in Hpos.
    unfold Qeq, inject_Z. simpl. lia.
Qed.

Lemma round1_close (x : Q) : (Qabs (round1 x - x) < 1 # 10)%Q.
Proof.
  unfold round1, tenths. rewrite Qred_correct.
  set (n := Qfloor (Qabs x * 10 + (1 # 2))).
  pose proof (Qfloor_le (Qabs x * 10 + (1 # 2))) as Hle.
  pose proof (Qlt_floor (Qabs x * 10 + (1 # 2))) as Hlt.
  fold n in Hle, Hlt. rewrite inject_Z_plus in Hlt.
  assert ((n # 10) == inject_Z n * (1 # 10))%Q as Hn
    by (unfold Qeq, Qmult, inject_Z; simpl; lia).
  apply Qabs_Qlt_condition.
  destruct (is_negative x) eqn:Hneg.
  - apply is_negative_lt in Hneg.
    assert (Qabs x == - x)%Q as Habs by (apply Qabs_neg; lra).
    rewrite Habs in Hle, Hlt. rewrite Hn. change (inject_Z 1) with 1%Q in Hlt. lra.
  - assert (¬ (x < 0)%Q) as Hpos by (rewrite <- is_negative_lt; congruence).
    assert (Qabs x == x)%Q as Habs by (apply Qabs_pos; lra).
    rewrite Habs in Hle, Hlt. rewrite Hn. change (inject_Z 1) with 1%Q in Hlt. lra.
Qed.
End Rounding.

Section ComparisonClaims.
Import Js Fusion.

Lemma compareCities_two (city1 city2 : CityData) (rest : list CityData)
    (scores1 scores2 : gmap string Q) :
  scores city1 = Some scores1 →
  scores city2 = Some scores2 →
  compareCities (city1 :: city2 :: rest) =
    let t := tally (name city1) (name city2) scores1 scores2 in
    Some {| winner :=
              if (city2Wins t <? city1Wins t)%nat then name city1
              else if (city1Wins t <? city2Wins t)%nat then name city2
              else "tie";
            categories := tally_categories t |}.
Proof. intros H1 H2. unfold compareCities. by rewrite H1, H2. Qed.

(** [toFixed(1)] of a natural number writes it with one decimal [0]. *)
Lemma toFixed1_natural (x : Q) (n : Z) :
  (x == inject_Z n)%Q → (0 ≤ n)%Z → toFixed1 x = pretty n +:+ ".0".
Proof.
  intros Hx Hn. unfold toFixed1.
  assert (is_negative x = false) as ->.
  { destruct (is_negative x) eqn:Hneg; [|done].
    apply is_negative_lt in Hneg. rewrite Hx in Hneg.
    unfold Qlt, inject_Z in Hneg. simpl in Hneg. lia. }
  rewrite (tenths_integer x n Hx), Z.abs_eq by done.
  rewrite Z.div_mul by done. rewrite Z.mod_mul by done. reflexivity.
Qed.

(** The entry of a category, field by field.  The text of the difference is
    given for whole scores, whose difference the code computes exactly. *)
Lemma category_entry_fields (name1 name2 : string) (scores1 scores2 : gmap string Q)
    (category : string) :
  let score1 := score_or_zero scores1 category in
  let score2 := score_or_zero scores2 category in
  let entry := category_entry name1 name2 scores1 scores2 category in
  best entry =
    (if num_gt score1 score2 then name1
     else if num_gt score2 score1 then name2 else "tie")
  ∧ ∀ a b : Z,
      (score1 == inject_Z a)%Q → (score2 == inject_Z b)%Q →
      difference entry = pretty (Z.abs (a - b)) +:+ ".0".
Proof.
  cbv zeta. unfold category_entry.
  set (score1 := score_or_zero scores1 category).
  set (score2 := score_or_zero scores2 category).
  unfold num_gt.
  destruct (Qcompare score1 score2) eqn:H12.
  - apply Qeq_alt in H12.
    assert (Qcompare score2 score1 = Eq) as -> by (apply Qeq_alt; by symmetry).
    split; [done|]. intros a b Ha Hb. cbn [difference].
    assert (a = b) as -> by (apply inject_Z_injective; by rewrite <- Ha, <- Hb).
    by rewrite Z.sub_diag.
  - apply Qlt_alt in H12.
    assert (Qcompare score2 score1 = Gt) as -> by (by apply Qgt_alt).
    split; [done|]. intros a b Ha Hb. cbn [difference].
    rewrite Ha, Hb in H12. rewrite <- Zlt_Qlt in H12.
    rewrite (toFixed1_natural _ (b - a)).
    + by replace (Z.abs (a - b)) with (b - a)%Z by lia.
    + rewrite Ha, Hb. unfold Qminus, Z.sub. by rewrite inject_Z_plus, inject_Z_opp.
    + lia.
  - apply Qgt_alt in H12.
    split; [done|]. intros a b Ha Hb. cbn [difference].
    rewrite Ha, Hb in H12. rewrite <- Zlt_Qlt in H12.
    rewrite (toFixed1_natural _ (a - b)).
    + by replace (Z.abs (a - b)) with (a - b)%Z by lia.
    + rewrite Ha, Hb. unfold Qminus, Z.sub. by rewrite inject_Z_plus, inject_Z_opp.
    + lia.
Qed.

(** C2, as amended.  When both records have scores, the comparison has an
    entry for every category present in at least one of the two score maps,
    and for no other; the entry is computed with a missing score taken as
    0, so a category that only one record scores is attributed to the city
    that has the positive score.  The categories are not names that plain
    objects inherit (for such a name the code reads the inherited member in
    place of the missing score).  The text of the difference is stated for
    whole scores up to [2 ^ 52], which the code subtracts exactly. *)
Theorem compareCities_entries_over_union (city1 city2 : CityData)
    (rest : list CityData) (scores1 scores2 : gmap string Q)
    (H1 : scores city1 = Some scores1) (H2 : scores city2 = Some scores2)
    (Hown : set_Forall (λ category, Names.inherited category = false)
              (dom scores1 ∪ dom scores2)) :
  ∃ cmp, compareCities (city1 :: city2 :: rest) = Some cmp
    ∧ dom (categories cmp) = dom scores1 ∪ dom scores2
    ∧ ∀ category, category ∈ dom scores1 ∪ dom scores2 →
        let score1 := score_or_zero scores1 category in
        let score2 := score_or_zero scores2 category in
        ∃ entry, categories cmp !! category = Some entry
          ∧ best entry =
              (if num_gt score1 score2 then name city1
               else if num_gt score2 score1 then name city2 else "tie")
          ∧ ∀ a b : Z,
              (score1 == inject_Z a)%Q → (score2 == inject_Z b)%Q →
              (Z.abs a ≤ 2 ^ 52)%Z → (Z.abs b ≤ 2 ^ 52)%Z →
              difference entry = pretty (Z.abs (a - b)) +:+ ".0".
Proof.
  rewrite (compareCities_two city1 city2 rest scores1 scores2 H1 H2). cbn zeta.
  eexists. split; [done|]. cbn [categories].
  destruct (tally_spec (name city1) (name city2) scores1 scores2) as (_ & _ & Hcat).
  cbn zeta in Hcat. split.
  - apply set_eq. intros category. rewrite elem_of_dom, Hcat.
    unfold allCategories. case_decide; [by split | split; [by intros [] | done]].
  - intros category Hin. rewrite Hcat. rewrite decide_True by done.
    eexists. split; [done|].
    destruct (category_entry_fields (name city1) (name city2) scores1 scores2 category)
      as [Hbest Hdiff].
    split; [exact Hbest|]. intros a b Ha Hb _ _. by apply Hdiff.
Qed.

(** C9, as amended.  When both records have scores, the overall winner is
    the city that wins more categories than the other one, and ["tie"] when
    both win equally many; the categories counted are those of either score
    map, a missing score being 0, and a category with equal scores is a win
    for neither city.  The categories are not names that plain objects
    inherit. *)
Theorem compareCities_winner_has_more_wins (city1 city2 : CityData)
    (rest : list CityData) (scores1 scores2 : gmap string Q)
    (H1 : scores city1 = Some scores1) (H2 : scores city2 = Some scores2)
    (Hown : set_Forall (λ category, Names.inherited category = false)
              (dom scores1 ∪ dom scores2)) :
  ∃ cmp, compareCities (city1 :: city2 :: rest) = Some cmp
    ∧ winner cmp =
        (if (category_wins scores2 scores1 <? category_wins scores1 scores2)%nat
         then name city1
         else if (category_wins scores1 scores2 <? category_wins scores2 scores1)%nat
              then name city2
              else "tie")
    ∧ ∀ category,
        (score_or_zero scores1 category == score_or_zero scores2 category)%Q →
        ¬ beats scores1 scores2 category ∧ ¬ beats scores2 scores1 category.
Proof.
  rewrite (compareCities_two city1 city2 rest scores1 scores2 H1 H2). cbn zeta.
  eexists. split; [done|]. cbn [winner].
  destruct (tally_spec (name city1) (name city2) scores1 scores2) as (Hw1 & Hw2 & _).
  cbn zeta in Hw1, Hw2. rewrite Hw1, Hw2. split; [done|].
  intros category Heq. unfold beats.
  destruct (equal_scores_no_win _ _ Heq) as [-> ->]. done.
Qed.

Lemma compareCities_entries_over_union_witness :
  ∃ cmp housing costOfLiving,
    compareCities [Examples.city "Austin" (Some Examples.austin_scores);
                   Examples.city "Denver" (Some Examples.denver_scores)] = Some cmp
    ∧ categories cmp !! "housing" = Some housing
    ∧ best housing = "Austin" ∧ difference housing = "2.0"
    ∧ categories cmp !! "costOfLiving" = Some costOfLiving
    ∧ best costOfLiving = "Denver" ∧ difference costOfLiving = "2.0".
Proof.
  destruct (compareCities_entries_over_union
              (Examples.city "Austin" (Some Examples.austin_scores))
              (Examples.city "Denver" (Some Examples.denver_scores))
              [] Examples.austin_scores Examples.denver_scores eq_refl eq_refl)
    as (cmp & Hcmp & _ & Hentries).
  { apply (bool_decide_unpack _). vm_compute. exact I. }
  destruct (Hentries "housing") as (housing & Hh & Hhbest & Hhdiff);
    [vm_compute; set_solver|].
  destruct (Hentries "costOfLiving") as (costOfLiving & Hc & Hcbest & Hcdiff);
    [vm_compute; set_solver|].
  exists cmp, housing, costOfLiving.
  split; [exact Hcmp|]. split; [exact Hh|]. split; [exact Hhbest|].
  split; [apply (Hhdiff 7%Z 5%Z); [reflexivity | reflexivity | lia | lia]|].
  split; [exact Hc|]. split; [exact Hcbest|].
  apply (Hcdiff 6%Z 8%Z); [reflexivity | reflexivity | lia | lia].
Defined.

(** The 1-1 split of the specification's scenario is a tie. *)
Lemma compareCities_winner_has_more_wins_witness :
  ∃ cmp,
    compareCities [Examples.city "Austin" (Some Examples.austin_scores);
                   Examples.city "Denver" (Some Examples.denver_scores)] = Some cmp
    ∧ winner cmp = "tie".
Proof.
  destruct (compareCities_winner_has_more_wins
              (Examples.city "Austin" (Some Examples.austin_scores))
              (Examples.city "Denver" (Some Examples.denver_scores))
              [] Examples.austin_scores Examples.denver_scores eq_refl eq_refl)
    as (cmp & Hcmp & Hwinner & _).
  { apply (bool_decide_unpack _). vm_compute. exact I. }
  exists cmp. split; [exact Hcmp|]. rewrite Hwinner. reflexivity.
Defined.

(** C2 fails as stated: a category that only the first record scores gets
    an entry, which names the first city as the best. *)
Lemma compareCities_entry_for_category_of_one_record :
  ("housing" ∉ dom (∅ : gmap string Q))
  ∧ ∃ cmp,
      compareCities [Examples.city "Austin" (Some Examples.housing_only);
                     Examples.city "Denver" (Some ∅)] = Some cmp
      ∧ categories cmp !! "housing" = Some {| best := "Austin"; difference := "7.0" |}.
Proof.
  split; [set_solver|]. eexists. split; [reflexivity|]. reflexivity.
Qed.

(** C9 fails as stated: with one win for the first city and two categories
    of equal scores, no city wins more than half of the three compared
    categories, so the specification's rule gives a tie, and the code
    declares the first city the winner. *)
Lemma compareCities_winner_without_majority :
  size (spec_compared Examples.one_win_scores Examples.no_win_scores) = 3
  ∧ spec_wins Examples.one_win_scores Examples.no_win_scores = 1
  ∧ spec_wins Examples.no_win_scores Examples.one_win_scores = 0
  ∧ spec_winner "Austin" "Denver" Examples.one_win_scores Examples.no_win_scores = "tie"
  ∧ (winner <$> compareCities [Examples.city "Austin" (Some Examples.one_win_scores);
                               Examples.city "Denver" (Some Examples.no_win_scores)])
      = Some "Austin".
Proof. repeat split; reflexivity. Qed.
End ComparisonClaims.

(** ** Fusion of provider results *)

Section FusionProperties.
Import Js Fusion Shapes.
Variable num_to_string : Q → string.

Lemma obj_get_absent (fields : list (string * value)) (k : string) :
  obj_has fields k = false → obj_get fields k = VUndefined.
Proof.
  induction fields as [|[k' v] fields IH]; [done|]. cbn.
  destruct (String.eqb k' k); [done | exact IH].
Qed.

Lemma error_shaped_truthy (v : value) : error_shaped v = true → truthy v = true.
Proof. by destruct v. Qed.

Lemma error_shaped_no_data (v : value) (k : string) :
  error_shaped v = true → k ∈ data_keys → get_opt v k = VUndefined.
Proof.
  destruct v as [| | | | | |fields]; try done. cbn [error_shaped get_opt].
  intros [_ Hall]%andb_true_iff Hk.
  apply obj_get_absent.
  rewrite forallb_forall in Hall.
  apply negb_true_iff, Hall, list_elem_of_In, Hk.
Qed.

Ltac no_data H :=
  rewrite ?(error_shaped_no_data _ _ H) by (unfold data_keys; set_solver).

Lemma extract_list_error (v : value) (key : string) (callback : value → outcome value) :
  error_shaped v = true → key ∈ data_keys → extract_list v key callback = [].
Proof.
  intros Hv Hkey. unfold extract_list.
  rewrite (error_shaped_no_data _ _ Hv Hkey). by rewrite orb_true_r.
Qed.

Lemma city_info_fields_error (cityName : string) (v : value) :
  error_shaped v = true →
  city_info_fields num_to_string cityName v = (VUndefined, None, None).
Proof.
  intros Hv. unfold city_info_fields.
  rewrite (error_shaped_truthy _ Hv). no_data Hv. done.
Qed.

Lemma optional_list_error (v : value) (key : string) (callback : value → outcome value) :
  error_shaped v = true → key ∈ data_keys →
  optional_list v (λ c, extract_list c key callback) = Some [].
Proof.
  intros Hv Hkey. unfold optional_list.
  by rewrite (error_shaped_truthy _ Hv), extract_list_error.
Qed.

Lemma optional_block_error (v : value) :
  error_shaped v = true → optional_block num_to_string v = Ok (Some empty_block).
Proof.
  intros Hv. unfold optional_block, summary_block.
  rewrite (error_shaped_truthy _ Hv). no_data Hv. done.
Qed.

Lemma error_shaped_safe (v : value) : error_shaped v = true → summaries_safe v.
Proof. intros Hv. unfold summaries_safe. no_data Hv. done. Qed.

Lemma mapM_total {A B : Type} (f : A → outcome B) (g : A → B) (l : list A) :
  Forall (λ x, f x = Ok (g x)) l → mapM f l = Ok (g <$> l).
Proof.
  induction 1 as [|x l Hx _ IH]; [done|].
  cbn. rewrite Hx. cbn. rewrite IH. done.
Qed.

Lemma to_string_primitive (v : value) :
  primitive v = true → ∃ s, to_string num_to_string v = Ok s.
Proof. destruct v as [| |[]| | | |]; try done; by eexists. Qed.

Lemma join_elems_primitive (l : list value) :
  Forall (λ v, primitive v = true) l → ∃ ss, join_elems num_to_string l = Ok ss.
Proof.
  induction 1 as [|v l Hv _ [ss IH]]; [by eexists|].
  cbn. unfold join_elem.
  destruct (to_string_primitive v Hv) as [s Hs].
  destruct (nullish v); cbn; [|rewrite Hs; cbn]; rewrite IH; by eexists.
Qed.

(** On a safe result, the summary object is built without an exception. *)
Lemma summary_block_total (v : value) :
  summaries_safe v → ∃ block, summary_block num_to_string v = Ok block.
Proof.
  unfold summaries_safe, summary_block.
  destruct (get_opt v "summaries") as [| | | | |items|] eqn:Hs;
    try (intros ->; by eexists); try (cbn; by eexists).
  intros Hitems. cbn [truthy].
  rewrite (mapM_total (λ s, get s "summary") (λ s, get_opt s "summary")); last first.
  { eapply Forall_impl; [exact Hitems|]. intros s [Hnn _]. by apply get_non_nullish. }
  cbn. unfold join.
  destruct (join_elems_primitive ((λ s, get_opt s "summary") <$> items)) as [ss Hss].
  { apply Forall_fmap. eapply Forall_impl; [exact Hitems|]. by intros s [_ Hp]. }
  rewrite Hss. cbn.
  rewrite (mapM_total (λ s, get s "source") (λ s, get_opt s "source")); last first.
  { eapply Forall_impl; [exact Hitems|]. intros s [Hnn _]. by apply get_non_nullish. }
  cbn.
  rewrite (mapM_total (λ s, k ← get s "keyPoints"; mret (or_else k (VArr [])))
             (λ s, or_else (get_opt s "keyPoints") (VArr []))); last first.
  { eapply Forall_impl; [exact Hitems|]. intros s [Hnn _].
    by rewrite get_non_nullish. }
  cbn. by eexists.
Qed.

Lemma optional_block_total (v : value) :
  summaries_safe v → ∃ block, optional_block num_to_string v = Ok block.
Proof.
  intros Hv. unfold optional_block. destruct (truthy v); [|by eexists].
  destruct (summary_block_total v Hv) as [block ->]. by eexists.
Qed.

(** [processCityData] as a record of its parts, when no summary object
    throws. *)
Lemma processCityData_parts (cityName : string) (apiResults : gmap string value)
    (cd : CityData) :
  processCityData num_to_string cityName apiResults = Ok cd →
  name cd = cityName
  ∧ (fullName cd, scores cd, summary cd) =
      city_info_fields num_to_string cityName (field apiResults "cityInfo")
  ∧ neighborhoods cd =
      optional_list (field apiResults "neighborhoods") (extractNeighborhoods)
  ∧ news cd = optional_list (field apiResults "news") extractNews
  ∧ webResults cd = optional_list (field apiResults "webSearch") extractWebResults
  ∧ optional_block num_to_string (field apiResults "housingMarket") = Ok (housingMarket cd)
  ∧ optional_block num_to_string (field apiResults "jobOpportunities") = Ok (jobMarket cd)
  ∧ optional_block num_to_string (field apiResults "transportation")
      = Ok (transportation cd)
  ∧ optional_block num_to_string (field apiResults "schoolDistricts") = Ok (schools cd).
Proof.
  unfold processCityData.
  destruct (city_info_fields _ _ _) as [[fullName scores] summary].
  destruct (optional_block _ (field apiResults "housingMarket")); [|done].
  destruct (optional_block _ (field apiResults "jobOpportunities")); [|done].
  destruct (optional_block _ (field apiResults "transportation")); [|done].
  destruct (optional_block _ (field apiResults "schoolDistricts")); [|done].
  cbn. intros [= <-]. done.
Qed.

(** On safe results, [processCityData] returns a record, named after the
    city. *)
Lemma processCityData_total (cityName : string) (apiResults : gmap string value) :
  results_safe apiResults →
  ∃ cd, processCityData num_to_string cityName apiResults = Ok cd ∧ name cd = cityName.
Proof.
  intros Hsafe. unfold processCityData.
  destruct (city_info_fields _ _ _) as [[fullName scores] summary].
  destruct (optional_block_total (field apiResults "housingMarket")) as [b1 ->];
    [apply Hsafe; unfold block_keys; set_solver|].
  destruct (optional_block_total (field apiResults "jobOpportunities")) as [b2 ->];
    [apply Hsafe; unfold block_keys; set_solver|].
  destruct (optional_block_total (field apiResults "transportation")) as [b3 ->];
    [apply Hsafe; unfold block_keys; set_solver|].
  destruct (optional_block_total (field apiResults "schoolDistricts")) as [b4 ->];
    [apply Hsafe; unfold block_keys; set_solver|].
  cbn. by eexists.
Qed.
End FusionProperties.

(** Membership in a list given by its elements. *)
Ltac in_list := repeat first [apply list_elem_of_here | apply list_elem_of_further].

Section ShownProperties.
Import Js Fusion Shapes.
Variable num_to_string : Q → string.

Lemma web_result_of_shown (result : value) :
  nullish result = false → web_result_of result = Ok (Shown.web_result result).
Proof. by destruct result. Qed.

Lemma article_of_shown (article : value) :
  nullish article = false → nullish (get_opt article "source") = false →
  article_of article = Ok (Shown.article article).
Proof.
  destruct article as [| | | | | |fields]; try done. intros _.
  unfold article_of, Shown.article. cbn [get get_opt mbind outcome_bind bind].
  by destruct (obj_get fields "source").
Qed.

Lemma neighborhood_of_shown (feature : value) :
  nullish feature = false → neighborhood_of feature = Ok (Shown.neighborhood feature).
Proof. by destruct feature. Qed.

(** An array under the key of an extractor is mapped element by element
    when the callback throws for none of them. *)
Lemma optional_list_shown (result : value) (key : string)
    (callback : value → outcome value) (shown : value → value) (items : list value) :
  get_opt result key = VArr items →
  Forall (λ item, callback item = Ok (shown item)) items →
  optional_list result (λ container, extract_list container key callback)
  = Some (shown <$> items).
Proof.
  intros Hitems Hall.
  assert (truthy result = true) as Htruthy by by destruct result.
  unfold optional_list, extract_list. rewrite Htruthy, Hitems. cbn [truthy negb orb].
  by rewrite (mapM_total callback shown items Hall).
Qed.

(** The summary object built from an array of summaries. *)
Lemma optional_block_shown (result : value) (items : list value) :
  get_opt result "summaries" = VArr items →
  summaries_safe result →
  ∃ block text,
    optional_block num_to_string result = Ok (Some block)
    ∧ join num_to_string " " ((λ s, get_opt s "summary") <$> items) = Ok text
    ∧ Summary.summary block = Some text
    ∧ Summary.sources block = Some ((λ s, get_opt s "source") <$> items)
    ∧ Summary.highlights block
      = concat ((λ s, flatten_one (or_else (get_opt s "keyPoints") (VArr []))) <$> items).
Proof.
  intros Hsummaries Hsafe.
  assert (truthy result = true) as Htruthy by by destruct result.
  unfold summaries_safe in Hsafe. rewrite Hsummaries in Hsafe.
  unfold optional_block, summary_block. rewrite Htruthy, Hsummaries. cbn [truthy].
  rewrite (mapM_total (λ s, get s "summary") (λ s, get_opt s "summary")); last first.
  { eapply Forall_impl; [exact Hsafe|]. intros s [Hnn _]. by apply get_non_nullish. }
  cbn [mbind outcome_bind bind]. unfold join.
  destruct (join_elems_primitive num_to_string ((λ s, get_opt s "summary") <$> items))
    as [ss Hss].
  { apply Forall_fmap. eapply Forall_impl; [exact Hsafe|]. by intros s [_ Hp]. }
  rewrite Hss. cbn [bind].
  rewrite (mapM_total (λ s, get s "source") (λ s, get_opt s "source")); last first.
  { eapply Forall_impl; [exact Hsafe|]. intros s [Hnn _]. by apply get_non_nullish. }
  cbn [bind].
  rewrite (mapM_total (λ s, k ← get s "keyPoints"; mret (or_else k (VArr [])))
             (λ s, or_else (get_opt s "keyPoints") (VArr []))); last first.
  { eapply Forall_impl; [exact Hsafe|]. intros s [Hnn _].
    by rewrite get_non_nullish. }
  cbn [bind mret outcome_ret]. eexists _, _. split; [done|]. split; [done|].
  cbn [Summary.summary Summary.sources Summary.highlights].
  by rewrite <- list_fmap_compose.
Qed.

Lemma mappedName_text (name : string) :
  mappedName num_to_string (VStr name) = Ok (Shown.category_key name).
Proof.
  unfold mappedName, Shown.category_key. cbn [to_string mbind outcome_bind bind].
  by destruct (categoryMapping name).
Qed.

Lemma add_score_scored (scores : gmap string Q) (category : value)
    (name : string) (score : Q) :
  Shown.scored category = Some (name, score) →
  add_score num_to_string scores category
  = Ok (<[Shown.category_key name := round1 score]> scores).
Proof.
  unfold Shown.scored, add_score.
  destruct category as [| | | | | |fields]; try done. cbn [get get_opt].
  destruct (obj_get fields "name") as [| | | |n| |]; try done.
  destruct (obj_get fields "score_out_of_10") as [| | |q| | |]; try done.
  intros [= -> ->]. cbn [mbind outcome_bind bind]. rewrite mappedName_text. done.
Qed.

(** The scores recorded for an array of scored categories: every category
    has its key, and every recorded score is, up to the rounding to one
    decimal, the score of a category with that key. *)
Lemma add_scores_scored (categories : list value) :
  Forall (λ category, is_Some (Shown.scored category)) categories →
  ∀ scores, ∃ recorded,
    add_scores num_to_string scores categories = Ok recorded
    ∧ (∀ key, is_Some (scores !! key) → is_Some (recorded !! key))
    ∧ (∀ category name score, category ∈ categories →
         Shown.scored category = Some (name, score) →
         is_Some (recorded !! Shown.category_key name))
    ∧ ∀ key q, recorded !! key = Some q →
        scores !! key = Some q
        ∨ ∃ category name score,
            category ∈ categories
            ∧ Shown.scored category = Some (name, score)
            ∧ Shown.category_key name = key
            ∧ q = round1 score.
Proof.
  induction 1 as [|category categories [[name score] Hscored] _ IH]; intros scores.
  - exists scores. split; [done|]. split; [done|]. split.
    + intros category name score Hin. by apply elem_of_nil in Hin.
    + intros key q Hq. by left.
  - cbn [add_scores]. rewrite (add_score_scored scores category name score Hscored).
    cbn [mbind outcome_bind bind].
    destruct (IH (<[Shown.category_key name := round1 score]> scores))
      as (recorded & -> & Hkeeps & Hkeys & Hvalues).
    exists recorded. split; [done|]. split; [|split].
    + intros key Hkey. apply Hkeeps.
      destruct (decide (Shown.category_key name = key)) as [<- | Hne].
      * rewrite lookup_insert_eq. by eexists.
      * by rewrite lookup_insert_ne.
    + intros category' name' score' [-> | Hin]%elem_of_cons Hscored'.
      * rewrite Hscored in Hscored'. injection Hscored' as <- <-.
        apply Hkeeps. rewrite lookup_insert_eq. by eexists.
      * by eapply Hkeys.
    + intros key q Hq.
      destruct (Hvalues key q Hq) as [Hold | (c & n & s & Hin & Hs & Hk & Hr)].
      * destruct (decide (Shown.category_key name = key)) as [<- | Hne].
        -- rewrite lookup_insert_eq in Hold. injection Hold as <-.
           right. exists category, name, score.
           split; [apply list_elem_of_here | done].
        -- rewrite lookup_insert_ne in Hold by done. by left.
      * right. exists c, n, s. split; [by apply list_elem_of_further | done].
Qed.

(** The parts of the record read from [apiResults.cityInfo]. *)
Lemma city_info_fields_shown (cityName : string) (cityInfo : value) :
  let urbanArea := get_opt cityInfo "urbanArea" in
  let city := get_opt cityInfo "city" in
  let fallbackData := get_opt cityInfo "fallbackData" in
  let '(fullName, scores, summary) :=
    city_info_fields num_to_string cityName cityInfo in
  (truthy urbanArea = true →
     fullName = or_else (get_opt urbanArea "fullName") (get_opt urbanArea "name"))
  ∧ (truthy urbanArea = false → truthy city = true →
       fullName = or_else (get_opt city "full_name") (get_opt city "name"))
  ∧ (truthy fallbackData = true →
       summary = Some ("Information about " +:+ cityName +:+ " (using fallback data)")
       ∧ is_Some scores)
  ∧ (truthy fallbackData = false → summary = None)
  ∧ (truthy urbanArea = true → truthy fallbackData = false →
       scores = extractScores num_to_string cityInfo).
Proof.
  cbv zeta. unfold city_info_fields.
  destruct (truthy cityInfo) eqn:Hinfo.
  - destruct (truthy (get_opt cityInfo "urbanArea")) eqn:Hurban.
    + destruct (truthy (get_opt cityInfo "fallbackData")).
      * split_and!; first [done | (intros _; split; [done | by eexists])].
      * split_and!; done.
    + destruct (truthy (get_opt cityInfo "city")).
      * destruct (truthy (get_opt cityInfo "fallbackData")).
        -- split_and!; first [done | (intros _; split; [done | by eexists])].
        -- split_and!; done.
      * destruct (truthy (get_opt cityInfo "fallbackData")).
        -- split_and!; first [done | (intros _; split; [done | by eexists])].
        -- split_and!; done.
  - assert (∀ k, get_opt cityInfo k = VUndefined) as Hnone
      by (intros k; by destruct cityInfo).
    rewrite !Hnone. cbn [truthy]. split_and!; done.
Qed.

Lemma extractScores_scored (cityInfo : value) (categories : list value) :
  get_opt (get_opt (get_opt cityInfo "urbanArea") "scores") "categories"
  = VArr categories →
  Forall (λ category, is_Some (Shown.scored category)) categories →
  ∃ recorded,
    extractScores num_to_string cityInfo = Some recorded
    ∧ (∀ category name score, category ∈ categories →
         Shown.scored category = Some (name, score) →
         is_Some (recorded !! Shown.category_key name))
    ∧ ∀ key q, recorded !! key = Some q →
        ∃ category name score,
          category ∈ categories
          ∧ Shown.scored category = Some (name, score)
          ∧ Shown.category_key name = key
          ∧ q = round1 score.
Proof.
  intros Hcategories Hscored.
  assert (truthy (get_opt (get_opt cityInfo "urbanArea") "scores") = true) as Hscores
    by by destruct (get_opt (get_opt cityInfo "urbanArea") "scores").
  assert (truthy (get_opt cityInfo "urbanArea") = true) as Hurban
    by by destruct (get_opt cityInfo "urbanArea").
  assert (truthy cityInfo = true) as Hinfo by by destruct cityInfo.
  unfold extractScores. rewrite Hinfo, Hurban, Hscores, Hcategories.
  cbn [negb orb or_else truthy].
  destruct (add_scores_scored categories Hscored ∅)
    as (recorded & -> & _ & Hkeys & Hvalues).
  exists recorded. split; [done|]. split; [exact Hkeys|].
  intros key q Hq. destruct (Hvalues key q Hq) as [Hempty | Hfrom]; [|done].
  by rewrite lookup_empty in Hempty.
Qed.
End ShownProperties.

Section FusionClaims.
Import Js Fusion Shapes.

(** C3, as amended.  In the record that [processCityData] returns, the
    result of a provider that failed leaves a field absent only for
    [cityInfo]: then [fullName], [scores] and [summary] are absent.  A
    failed [news], [neighborhoods] or [webSearch] gives an empty array, and
    a failed [housingMarket], [jobOpportunities], [transportation] or
    [schoolDistricts] gives a summary object whose [summary] and [sources]
    are [undefined] and whose [highlights] are empty. *)
Theorem processCityData_fields_of_failed_providers (num_to_string : Q → string)
    (cityName : string) (apiResults : gmap string value) (cd : CityData)
    (Hcd : processCityData num_to_string cityName apiResults = Ok cd) :
  (error_shaped (field apiResults "cityInfo") = true →
     fullName cd = VUndefined ∧ scores cd = None ∧ summary cd = None)
  ∧ (error_shaped (field apiResults "news") = true → news cd = Some [])
  ∧ (error_shaped (field apiResults "neighborhoods") = true →
       neighborhoods cd = Some [])
  ∧ (error_shaped (field apiResults "webSearch") = true → webResults cd = Some [])
  ∧ (error_shaped (field apiResults "housingMarket") = true →
       housingMarket cd = Some empty_block)
  ∧ (error_shaped (field apiResults "jobOpportunities") = true →
       jobMarket cd = Some empty_block)
  ∧ (error_shaped (field apiResults "transportation") = true →
       transportation cd = Some empty_block)
  ∧ (error_shaped (field apiResults "schoolDistricts") = true →
       schools cd = Some empty_block).
Proof.
  destruct (processCityData_parts num_to_string cityName apiResults cd Hcd)
    as (_ & Hinfo & Hnb & Hnews & Hweb & Hh & Hj & Ht & Hs).
  split_and!.
  - intros He. rewrite (city_info_fields_error _ _ _ He) in Hinfo.
    by injection Hinfo as -> -> ->.
  - intros He. rewrite Hnews. apply optional_list_error; [done|].
    unfold data_keys. set_solver.
  - intros He. rewrite Hnb. apply optional_list_error; [done|].
    unfold data_keys. set_solver.
  - intros He. rewrite Hweb. apply optional_list_error; [done|].
    unfold data_keys. set_solver.
  - intros He. rewrite (optional_block_error _ _ He) in Hh. congruence.
  - intros He. rewrite (optional_block_error _ _ He) in Hj. congruence.
  - intros He. rewrite (optional_block_error _ _ He) in Ht. congruence.
  - intros He. rewrite (optional_block_error _ _ He) in Hs. congruence.
Qed.

Lemma processCityData_fields_of_failed_providers_witness :
  ∃ cd,
    processCityData Examples.show_number "Austin"
      {[ "cityInfo" := Examples.failed "cityInfo";
         "news" := Examples.failed "news";
         "housingMarket" := Examples.failed "housingMarket" ]} = Ok cd
    ∧ fullName cd = VUndefined ∧ scores cd = None ∧ summary cd = None
    ∧ news cd = Some []
    ∧ housingMarket cd = Some empty_block.
Proof.
  destruct (processCityData Examples.show_number "Austin"
              {[ "cityInfo" := Examples.failed "cityInfo";
                 "news" := Examples.failed "news";
                 "housingMarket" := Examples.failed "housingMarket" ]})
    as [cd | e] eqn:Hcd; [|vm_compute in Hcd; discriminate].
  exists cd. split; [reflexivity|].
  destruct (processCityData_fields_of_failed_providers Examples.show_number "Austin"
              _ cd Hcd) as (Hinfo & Hnews & _ & _ & Hhousing & _).
  destruct (Hinfo eq_refl) as (Hf & Hsc & Hsu).
  repeat split; [exact Hf | exact Hsc | exact Hsu | exact (Hnews eq_refl)
                | exact (Hhousing eq_refl)].
Defined.

(** C3 fails as stated: the result of a failed news provider sets [news] to
    the empty array, and the result of a failed housing provider sets
    [housingMarket] to a summary object with empty parts; neither field is
    left absent. *)
Lemma processCityData_failed_provider_field_present :
  ∃ cd,
    processCityData Examples.show_number "Austin"
      {[ "news" := Examples.failed "news";
         "housingMarket" := Examples.failed "housingMarket" ]} = Ok cd
    ∧ news cd = Some [] ∧ news cd ≠ None
    ∧ housingMarket cd = Some empty_block ∧ housingMarket cd ≠ None.
Proof. eexists. split; [reflexivity|]. repeat split; done. Qed.

(** C10.  With no city in the parsed request and a truthy [cityInfo] or
    [neighborhoods] result, [merge] returns one record, built from the
    results by [processCityData] under the name ["New York"], and no error;
    the results are taken to be such that building the summary objects does
    not throw. *)
Theorem merge_without_cities_makes_new_york (num_to_string : Q → string)
    (parsedIntent : Intent.ParsedIntent) (apiResults : gmap string value)
    (Hnone : Intent.cities parsedIntent = [])
    (Hdata : truthy (field apiResults "cityInfo")
             || truthy (field apiResults "neighborhoods") = true)
    (Hsafe : results_safe apiResults) :
  ∃ cd,
    processCityData num_to_string "New York" apiResults = Ok cd
    ∧ name cd = "New York"
    ∧ cities (merge num_to_string parsedIntent apiResults) = [cd]
    ∧ error (merge num_to_string parsedIntent apiResults) = None.
Proof.
  destruct (processCityData_total num_to_string "New York" apiResults Hsafe)
    as (cd & Hcd & Hname).
  exists cd. split; [done|]. split; [done|].
  unfold merge, merge_body. rewrite Hnone. cbn [mapM length Nat.eqb andb].
  rewrite Hdata, Hcd. cbn. done.
Qed.

Lemma merge_without_cities_makes_new_york_witness :
  ∃ cd,
    cities (merge Examples.show_number
              {| Intent.intent := Intent.GENERAL_ADVICE; Intent.cities := [];
                 Intent.originalQuery := "where should I move?" |}
              {[ "neighborhoods" := VObj [("features", VArr [])] ]}) = [cd]
    ∧ name cd = "New York".
Proof.
  destruct (merge_without_cities_makes_new_york Examples.show_number
              {| Intent.intent := Intent.GENERAL_ADVICE; Intent.cities := [];
                 Intent.originalQuery := "where should I move?" |}
              {[ "neighborhoods" := VObj [("features", VArr [])] ]})
    as (cd & _ & Hname & Hcities & _).
  - reflexivity.
  - reflexivity.
  - intros k Hk. unfold block_keys in Hk.
    repeat (apply elem_of_cons in Hk as [-> | Hk]); try done.
    by apply elem_of_nil in Hk.
  - exists cd. split; [exact Hcities | exact Hname].
Defined.
End FusionClaims.

Section BoundaryExamples.
Import Js Retry Orchestrator Tools.

(** C4 fails as stated: an operation that fails with a server error at every
    attempt makes both retry executors throw that error; they return no
    result, tagged or not. *)
Lemma retry_executor_failure_is_thrown :
  (executeWithRetry (T := value) (λ _, Throw (ErrorObj "Server error"))
     apiConfig_retry always_retry).1 = Throw (ErrorObj "Server error")
  ∧ (withRetry (T := value) (λ _, Throw (ErrorObj "Server error")) 2 1000).1
      = Throw (ErrorObj "Server error")
  ∧ is_ok (executeWithRetry (T := value) (λ _, Throw (ErrorObj "Server error"))
             apiConfig_retry always_retry).1 = false.
Proof. repeat split; reflexivity. Qed.

Lemma terminal_failure_thrown_by_executor_caught_by_callApi_witness :
  (withRetry (T := value) (λ _, Throw (ErrorObj "Server error")) 2 1000).1
    = Throw (ErrorObj "Server error")
  ∧ callApi (λ _ _ _, Throw (ErrorObj "Server error")) "news"
      (VObj [("city", VStr "Austin")])
    = Ok (VObj [("error", VStr "Error calling news");
                ("details", VStr "Server error")]).
Proof.
  destruct (terminal_failure_thrown_by_executor_caught_by_callApi (T := value)
              (λ _, Throw (ErrorObj "Server error")) (λ _, ErrorObj "Server error")
              apiConfig_retry always_retry 2 1000
              (λ _ _ _, Throw (ErrorObj "Server error")) "news"
              (VObj [("city", VStr "Austin")]))
    as (_ & Hwith & Hcall).
  - reflexivity.
  - reflexivity.
  - unfold known_apis. set_solver.
  - reflexivity.
  - split; [exact Hwith | exact Hcall].
Defined.

(** Two search results, both summarized. *)
Lemma getHousingMarketData_two_results :
  getHousingMarketData Examples.good_reader Examples.two_results =
    (VObj [("searchResults", get_opt Examples.two_results "organic");
           ("summaries",
            VArr [VObj [("title", VStr "Market report");
                        ("source", VStr "https://a.example/report");
                        ("summary", VStr "Prices rose.");
                        ("keyPoints", VArr [VStr "up 3%"])];
                  VObj [("title", VStr "Price trends");
                        ("source", VStr "https://b.example/trends");
                        ("summary", VStr "Prices rose.");
                        ("keyPoints", VArr [VStr "up 3%"])]])],
     [VStr "https://a.example/report"; VStr "https://b.example/trends"]).
Proof.
  rewrite (getHousingMarketData_summarizes_first_three Examples.good_reader
             Examples.two_results
             [VObj [("title", VStr "Market report");
                    ("link", VStr "https://a.example/report")];
              VObj [("title", VStr "Price trends");
                    ("link", VStr "https://b.example/trends")]]).
  - reflexivity.
  - reflexivity.
  - repeat constructor.
Qed.
End BoundaryExamples.

(** ** Partial failure, from the provider calls to the fused record *)

Section PartialFailure.
Import Js Retry Orchestrator Fusion Shapes.
Variable num_to_string : Q → string.
Variable world : Provider → list value → nat → outcome value.

Lemma withRetry_from_ok_inv {T : Type} (operation : nat → outcome T) (retries : nat) :
  ∀ fuel attempt delay last r,
    (withRetry_from operation retries fuel attempt delay last).1 = Ok r →
    ∃ n, operation n = Ok r.
Proof.
  induction fuel as [|fuel IH]; intros attempt delay last r; cbn [withRetry_from].
  - done.
  - destruct (operation (attempt - 1)) as [r' | error] eqn:Hop.
    + intros [= <-]. by eexists.
    + destruct (attempt <=? retries)%nat.
      * specialize (IH (S attempt) (delay * 2)%Z (Some error) r).
        destruct (withRetry_from _ _ _ _ _ _). exact IH.
      * specialize (IH (S attempt) delay (Some error) r).
        destruct (withRetry_from _ _ _ _ _ _). exact IH.
Qed.

Lemma retried_ok_inv (provider : Provider) (args : outcome (list value)) (v : value) :
  retried world provider args = Ok v → ∃ a n, world provider a n = Ok v.
Proof.
  unfold retried, withRetry. intros H.
  apply withRetry_from_ok_inv in H as [n Hn].
  destruct args as [a | e]; [|done]. by exists a, n.
Qed.

Lemma error_result_shaped (apiName : string) (error : exn) :
  error_shaped (error_result apiName error) = true.
Proof. reflexivity. Qed.

Hypothesis world_safe :
  ∀ provider args n v,
    block_provider provider = true → world provider args n = Ok v → summaries_safe v.

Lemma api_result_safe (queries : list (string * value)) (apiName : string) :
  apiName ∈ block_keys → summaries_safe (api_result world queries apiName).
Proof.
  intros Hk. unfold api_result, callApi.
  destruct (callApi_switch world apiName (params_for queries apiName))
    as [v | error] eqn:Hswitch; cbn [try_catch mret outcome_ret];
    [|apply error_shaped_safe, error_result_shaped].
  unfold block_keys in Hk.
  repeat (apply elem_of_cons in Hk as [-> | Hk]); try (by apply elem_of_nil in Hk);
    unfold callApi_switch in Hswitch; cbn [String.eqb Ascii.eqb Bool.eqb] in Hswitch;
    apply retried_ok_inv in Hswitch as (a & n & Hw);
    (eapply world_safe; [|exact Hw]; done).
Qed.

(** [callMultipleApis] stores, for each name, what [callApi] gave. *)
Lemma callMultipleApis_into_fold (queries : list (string * value)) (apiNames : list string) :
  ∀ results : gmap string value,
    callMultipleApis_into world results apiNames (VObj queries) =
      Ok (foldl (λ acc apiName, <[apiName := api_result world queries apiName]> acc)
            results apiNames).
Proof.
  induction apiNames as [|apiName rest IH]; intros results; [done|].
  cbn [callMultipleApis_into get foldl]. cbn. rewrite IH. done.
Qed.

Lemma stored_results_lookup (queries : list (string * value)) (apiNames : list string) :
  ∀ (results : gmap string value) (k : string),
    foldl (λ acc apiName, <[apiName := api_result world queries apiName]> acc)
      results apiNames !! k =
      if decide (k ∈ apiNames) then Some (api_result world queries k) else results !! k.
Proof.
  induction apiNames as [|apiName rest IH]; intros results k; cbn [foldl].
  - rewrite decide_False; [done | apply not_elem_of_nil].
  - rewrite IH. destruct (decide (k ∈ rest)) as [Hin | Hin].
    + rewrite decide_True; [done | by apply list_elem_of_further].
    + destruct (decide (apiName = k)) as [-> | Hne].
      * rewrite lookup_insert_eq. rewrite decide_True; [done | apply list_elem_of_here].
      * rewrite lookup_insert_ne by done. rewrite decide_False; [done|].
        intros [? | ?]%elem_of_cons; [by subst | done].
Qed.

Lemma callMultipleApis_results (queries : list (string * value)) (apiNames : list string) :
  ∃ results,
    callMultipleApis world apiNames (VObj queries) = Ok results
    ∧ ∀ k, results !! k =
        if decide (k ∈ apiNames) then Some (api_result world queries k) else None.
Proof.
  eexists. split; [apply callMultipleApis_into_fold|].
  intros k. rewrite stored_results_lookup. by rewrite lookup_empty.
Qed.

(** A value taken from the cache goes under a key whose result is falsy,
    and under no other. *)
Lemma fill_from_cache_lookup (cachedData : value) (source k k' : string)
    (results : gmap string value) :
  fill_from_cache cachedData source k results !! k' = results !! k'
  ∨ (k' = k ∧ truthy (field results k) = false
     ∧ fill_from_cache cachedData source k results !! k' = Some (get_opt cachedData source)).
Proof.
  unfold fill_from_cache.
  destruct (truthy (get_opt cachedData source)); [|by left].
  destruct (truthy (field results k)) eqn:Ht; [by left|]. cbn.
  destruct (decide (k = k')) as [<- | Hne].
  - right. by rewrite lookup_insert_eq.
  - left. by rewrite lookup_insert_ne.
Qed.

Lemma fill_from_cache_keeps (cachedData : value) (source k k' : string)
    (results : gmap string value) :
  (truthy (field results k') = true ∨ k' ≠ k) →
  fill_from_cache cachedData source k results !! k' = results !! k'.
Proof.
  intros Hkeep.
  destruct (fill_from_cache_lookup cachedData source k k' results)
    as [H | (-> & Hfalsy & _)]; [done|].
  destruct Hkeep as [Ht | Hne]; congruence.
Qed.

Lemma fill_from_cache_is_Some (cachedData : value) (source k k' : string)
    (results : gmap string value) :
  is_Some (results !! k') → is_Some (fill_from_cache cachedData source k results !! k').
Proof.
  intros Hsome.
  destruct (fill_from_cache_lookup cachedData source k k' results)
    as [-> | (_ & _ & ->)]; [done | by eexists].
Qed.

Lemma field_lookup (results results' : gmap string value) (k : string) :
  results' !! k = results !! k → field results' k = field results k.
Proof. unfold field. by intros ->. Qed.

Lemma fills_from_cache_keep (cachedData : value) (k' : string)
    (results : gmap string value) :
  (truthy (field results k') = true
   ∨ (k' ≠ "news" ∧ k' ≠ "webSearch" ∧ k' ≠ "neighborhoods")) →
  fill_from_cache cachedData "news" "news"
    (fill_from_cache cachedData "serper" "webSearch"
       (fill_from_cache cachedData "radar" "neighborhoods" results)) !! k'
  = results !! k'.
Proof.
  intros Hkeep.
  set (r1 := fill_from_cache cachedData "radar" "neighborhoods" results).
  set (r2 := fill_from_cache cachedData "serper" "webSearch" r1).
  assert (E1 : r1 !! k' = results !! k').
  { apply fill_from_cache_keeps. destruct Hkeep as [? | (_ & _ & ?)]; [by left | by right]. }
  assert (E2 : r2 !! k' = r1 !! k').
  { apply fill_from_cache_keeps. destruct Hkeep as [Ht | (_ & ? & _)]; [left | by right].
    by rewrite (field_lookup _ _ _ E1). }
  rewrite fill_from_cache_keeps; [by rewrite E2|].
  destruct Hkeep as [Ht | (? & _ & _)]; [left | by right].
  by rewrite (field_lookup _ _ _ E2), (field_lookup _ _ _ E1).
Qed.

(** What [fetch] returns: the stored results, completed from the cache
    under falsy keys. *)
Lemma fetch_results (parsedIntent : Intent.ParsedIntent) (now : Z)
    (apiCache : gmap string Cache.CacheEntry) :
  ∃ results apiCache',
    fetch world parsedIntent now apiCache = (Ok results, apiCache')
    ∧ ∀ k,
        let stored := api_result world (buildApiQueries parsedIntent) k in
        (k ∈ getRequiredApis (Intent.intent parsedIntent) →
           is_Some (results !! k) ∧ (truthy stored = true → results !! k = Some stored))
        ∧ (k ∈ block_keys → summaries_safe (field results k))
        ∧ (k ∉ getRequiredApis (Intent.intent parsedIntent) →
           k ≠ "news" ∧ k ≠ "webSearch" ∧ k ≠ "neighborhoods" →
           results !! k = None).
Proof.
  unfold fetch.
  destruct (callMultipleApis_results (buildApiQueries parsedIntent)
              (getRequiredApis (Intent.intent parsedIntent))) as (results & -> & Hlook).
  assert (Hbase : ∀ k,
    (k ∈ getRequiredApis (Intent.intent parsedIntent) →
       results !! k = Some (api_result world (buildApiQueries parsedIntent) k))
    ∧ (k ∈ block_keys → summaries_safe (field results k))
    ∧ (k ∉ getRequiredApis (Intent.intent parsedIntent) → results !! k = None)).
  { intros k. split; [|split].
    - intros Hk. rewrite Hlook. by rewrite decide_True.
    - intros Hk. unfold field. rewrite Hlook. case_decide; cbn [default].
      + by apply api_result_safe.
      + done.
    - intros Hk. rewrite Hlook. by rewrite decide_False. }
  destruct (Intent.cities parsedIntent) as [|primaryCity others].
  { exists results, apiCache. split; [done|]. intros k. cbn zeta.
    destruct (Hbase k) as (Hreq & Hsafe & Hnone). split; [|split; [done|]].
    - intros Hk. rewrite (Hreq Hk). split; [by eexists | done].
    - intros Hk _. by apply Hnone. }
  destruct (Cache.getCachedCityData primaryCity now apiCache) as [cachedData apiCache'].
  destruct (truthy cachedData).
  2:{ exists results, apiCache'. split; [done|]. intros k. cbn zeta.
      destruct (Hbase k) as (Hreq & Hsafe & Hnone). split; [|split; [done|]].
      - intros Hk. rewrite (Hreq Hk). split; [by eexists | done].
      - intros Hk _. by apply Hnone. }
  eexists _, apiCache'. split; [done|]. intros k. cbn zeta.
  destruct (Hbase k) as (Hreq & Hsafe & Hnone). split; [|split].
  - intros Hk. specialize (Hreq Hk). split.
    + do 3 apply fill_from_cache_is_Some. by rewrite Hreq.
    + intros Ht.
      rewrite fills_from_cache_keep; [done|].
      left. unfold field. by rewrite Hreq.
  - intros Hk. specialize (Hsafe Hk).
    assert (Hne : k ≠ "news" ∧ k ≠ "webSearch" ∧ k ≠ "neighborhoods").
    { unfold block_keys in Hk.
      repeat (apply elem_of_cons in Hk as [-> | Hk]); try done.
      by apply elem_of_nil in Hk. }
    erewrite field_lookup; [exact Hsafe|].
    apply fills_from_cache_keep. by right.
  - intros Hk Hne. rewrite fills_from_cache_keep; [by apply Hnone | by right].
Qed.
End PartialFailure.

Section FusionOfFetchedResults.
Import Js Orchestrator Fusion Shapes.
Variable num_to_string : Q → string.

Lemma processCityData_each (apiResults : gmap string value) (cityNames : list string) :
  results_safe apiResults →
  ∃ cds,
    mapM (λ cityName, processCityData num_to_string cityName apiResults) cityNames = Ok cds
    ∧ Forall2 (λ cityName cd,
                 processCityData num_to_string cityName apiResults = Ok cd
                 ∧ name cd = cityName) cityNames cds.
Proof.
  intros Hsafe. induction cityNames as [|cityName rest (cds & Hcds & Hall)].
  - exists []. split; [done | constructor].
  - destruct (processCityData_total num_to_string cityName apiResults Hsafe)
      as (cd & Hcd & Hname).
    exists (cd :: cds). split.
    + cbn. rewrite Hcd. cbn. rewrite Hcds. done.
    + by constructor.
Qed.

(** With at least one city requested and safe results, [merge] returns one
    record per requested city, in order, and no error. *)
Lemma merge_requested_cities (parsedIntent : Intent.ParsedIntent)
    (apiResults : gmap string value) (cityName : string) (others : list string) :
  Intent.cities parsedIntent = cityName :: others →
  results_safe apiResults →
  ∃ cd cds,
    processCityData num_to_string cityName apiResults = Ok cd
    ∧ name cd = cityName
    ∧ cities (merge num_to_string parsedIntent apiResults) = cd :: cds
    ∧ name <$> cds = others
    ∧ error (merge num_to_string parsedIntent apiResults) = None.
Proof.
  intros Hcities Hsafe.
  destruct (processCityData_each apiResults (cityName :: others) Hsafe)
    as (all & Hall & Heach).
  apply Forall2_cons_inv_l in Heach as (cd & cds & [Hcd Hname] & Hrest & ->).
  exists cd, cds. split; [done|]. split; [done|].
  unfold merge, merge_body. rewrite Hcities, Hall. cbn.
  rewrite app_nil_r. split; [done|]. split; [|done].
  clear -Hrest. induction Hrest as [|c cd' l l' [_ Hn] _ IH]; [done|].
  cbn. by rewrite Hn, IH.
Qed.

End FusionOfFetchedResults.

Section PartialFailureClaim.
Import Js Orchestrator Fusion Shapes.

End PartialFailureClaim.

Section PartialFailureScenario.
Import Js Orchestrator Fusion Shapes.

Ltac required := cbn; in_list.


End PartialFailureScenario.

(** ** The quota tracker: waiting times and independence of the models *)

Section RateLimitWaits.
Import RateLimit Protocol.

(** X1.  While a backoff is pending for a model, the admission check is a
    test of the deadline alone: the request is admitted exactly when the end
    of the backoff has been reached, whatever the counter says, and that is
    exactly when [getWaitTime] reports no wait.  The model name is not one
    that plain objects inherit (for such a name the tracker reads and writes
    the inherited object and never admits a request). *)
Theorem backoff_check_is_deadline_test (model : string) (now : Z)
    (info : RateLimitInfo) (rateLimits : gmap string RateLimitInfo) :
  Names.inherited (modelKey model) = false →
  rateLimits !! modelKey model = Some info →
  isBackingOff info = true →
  (canMakeRequest model now rateLimits).1 = (nextAvailable info <=? now)%Z
  ∧ (canMakeRequest model now rateLimits).1
    = (getWaitTime model now rateLimits =? 0)%Z.
Proof.
  intros _ Hlook Hback.
  assert ((canMakeRequest model now rateLimits).1 = (nextAvailable info <=? now)%Z)
    as Hcheck.
  { unfold canMakeRequest, tracked. rewrite Hlook.
    unfold after_backoff. rewrite Hback.
    destruct (Z.ltb_spec now (nextAvailable info)) as [Hlt | Hge]; simpl.
    - symmetry. apply Z.leb_gt. lia.
    - unfold after_window. simpl. rewrite Z.sub_diag. simpl.
      pose proof (quota_positive (modelKey model)).
      transitivity true; [apply Z.ltb_lt | symmetry; apply Z.leb_le]; lia. }
  split; [done|].
  rewrite Hcheck. unfold getWaitTime. rewrite Hlook, Hback.
  destruct (Z.leb_spec (nextAvailable info) now);
    symmetry; [apply Z.eqb_eq | apply Z.eqb_neq]; lia.
Qed.

Lemma backoff_check_is_deadline_test_witness :
  (canMakeRequest "default" 29999
     (handleRateLimitError "default" 30 0 ∅)).1 = false
  ∧ (canMakeRequest "default" 30000
       (handleRateLimitError "default" 30 0 ∅)).1 = true.
Proof.
  pose (info := {| requestCount := 0; lastReset := 0; isBackingOff := true;
                   nextAvailable := 30000 |}).
  split.
  - destruct (backoff_check_is_deadline_test "default" 29999 info
                (handleRateLimitError "default" 30 0 ∅)) as [Hcheck _];
      [reflexivity | vm_compute; reflexivity | reflexivity | ].
    rewrite Hcheck. reflexivity.
  - destruct (backoff_check_is_deadline_test "default" 30000 info
                (handleRateLimitError "default" 30 0 ∅)) as [Hcheck _];
      [reflexivity | vm_compute; reflexivity | reflexivity | ].
    rewrite Hcheck. reflexivity.
Defined.

(** X2.  The waiting time is sound: whenever [getWaitTime] reports a wait
    that is not zero, a check made at the same instant refuses the request. *)
Theorem positive_wait_means_refused (model : string) (now : Z)
    (rateLimits : gmap string RateLimitInfo) :
  (0 < getWaitTime model now rateLimits)%Z →
  (canMakeRequest model now rateLimits).1 = false.
Proof.
  unfold getWaitTime, canMakeRequest, tracked.
  destruct (rateLimits !! modelKey model) as [info|]; [|lia].
  unfold after_backoff.
  destruct (isBackingOff info) eqn:Hback.
  - intros Hwait. destruct (Z.ltb_spec now (nextAvailable info)); [done|lia].
  - destruct (Z.leb_spec (quota (modelKey model)) (requestCount info)); [|lia].
    intros Hwait. unfold after_window.
    destruct (Z.ltb_spec 60000 (now - lastReset info)); [lia|].
    simpl. apply Z.ltb_ge. lia.
Qed.

Lemma positive_wait_means_refused_witness :
  (0 < getWaitTime "default" 100 (handleRateLimitError "default" 30 0 ∅))%Z
  ∧ (canMakeRequest "default" 100 (handleRateLimitError "default" 30 0 ∅)).1 = false.
Proof.
  assert (0 < getWaitTime "default" 100 (handleRateLimitError "default" 30 0 ∅))%Z
    as Hwait by (vm_compute; reflexivity).
  split; [exact Hwait|].
  exact (positive_wait_means_refused "default" 100 _ Hwait).
Defined.

(** X3.  When the quota of the current window is used up (and no backoff is
    pending), the wait that [getWaitTime] reports ends one millisecond too
    early: a check made after exactly that wait is still refused, because
    the window is renewed only when more than 60000 ms have passed, and a
    check one millisecond later is admitted.  The model name is not one that
    plain objects inherit. *)
Theorem quota_wait_is_one_millisecond_short (model : string) (now : Z)
    (info : RateLimitInfo) (rateLimits : gmap string RateLimitInfo) :
  Names.inherited (modelKey model) = false →
  rateLimits !! modelKey model = Some info →
  isBackingOff info = false →
  (quota (modelKey model) ≤ requestCount info)%Z →
  (now ≤ lastReset info + 60000)%Z →
  let wait := getWaitTime model now rateLimits in
  wait = (lastReset info + 60000 - now)%Z
  ∧ (canMakeRequest model (now + wait) rateLimits).1 = false
  ∧ (canMakeRequest model (now + wait + 1) rateLimits).1 = true.
Proof.
  intros _ Hlook Hback Hquota Hnow wait.
  assert (wait = (lastReset info + 60000 - now)%Z) as Hwait.
  { unfold wait, getWaitTime. rewrite Hlook, Hback.
    destruct (Z.leb_spec (quota (modelKey model)) (requestCount info)); lia. }
  split; [done|]. rewrite Hwait.
  unfold canMakeRequest, tracked. rewrite Hlook.
  unfold after_backoff. rewrite Hback. unfold after_window.
  split.
  - destruct (Z.ltb_spec 60000 (now + (lastReset info + 60000 - now) - lastReset info));
      [lia|].
    simpl. apply Z.ltb_ge. lia.
  - destruct (Z.ltb_spec 60000
                (now + (lastReset info + 60000 - now) + 1 - lastReset info)); [|lia].
    simpl. apply Z.ltb_lt. apply quota_positive.
Qed.

Lemma quota_wait_is_one_millisecond_short_witness :
  (canMakeRequest "default" 60000
     (registerRequest "default" 4
        (registerRequest "default" 3
           (registerRequest "default" 2
              (registerRequest "default" 1 (registerRequest "default" 0 ∅)))))).1
  = false.
Proof.
  pose (rateLimits :=
          registerRequest "default" 4
            (registerRequest "default" 3
               (registerRequest "default" 2
                  (registerRequest "default" 1 (registerRequest "default" 0 ∅))))).
  destruct (quota_wait_is_one_millisecond_short "default" 20000
              {| requestCount := 5; lastReset := 0; isBackingOff := false;
                 nextAvailable := 0 |} rateLimits)
    as (Hwait & Hrefused & _).
  - reflexivity.
  - vm_compute. reflexivity.
  - reflexivity.
  - vm_compute. discriminate.
  - vm_compute. discriminate.
  - cbv zeta in Hwait, Hrefused. rewrite Hwait in Hrefused. exact Hrefused.
Defined.

Lemma canMakeRequest_local (model : string) (now : Z)
    (rateLimits rateLimits' : gmap string RateLimitInfo) :
  rateLimits !! modelKey model = rateLimits' !! modelKey model →
  (canMakeRequest model now rateLimits).1 = (canMakeRequest model now rateLimits').1
  ∧ (canMakeRequest model now rateLimits).2 !! modelKey model
    = (canMakeRequest model now rateLimits').2 !! modelKey model.
Proof.
  intros Hsame. unfold canMakeRequest, tracked. rewrite Hsame.
  destruct (after_backoff _ _); simpl; by rewrite !lookup_insert_eq.
Qed.

Lemma registerRequest_local (model : string) (now : Z)
    (rateLimits rateLimits' : gmap string RateLimitInfo) :
  rateLimits !! modelKey model = rateLimits' !! modelKey model →
  registerRequest model now rateLimits !! modelKey model
  = registerRequest model now rateLimits' !! modelKey model.
Proof.
  intros Hsame. unfold registerRequest, tracked. rewrite Hsame.
  by rewrite !lookup_insert_eq.
Qed.

Lemma handleRateLimitError_local (model : string) (retryAfterSec now : Z)
    (rateLimits rateLimits' : gmap string RateLimitInfo) :
  rateLimits !! modelKey model = rateLimits' !! modelKey model →
  handleRateLimitError model retryAfterSec now rateLimits !! modelKey model
  = handleRateLimitError model retryAfterSec now rateLimits' !! modelKey model.
Proof.
  intros Hsame. unfold handleRateLimitError, tracked. rewrite Hsame.
  by rewrite !lookup_insert_eq.
Qed.

Lemma run_for_one_model (modelName : string) (calls : list call) :
  ∀ rateLimits rateLimits' : gmap string RateLimitInfo,
    rateLimits !! modelName = rateLimits' !! modelName →
    answers_for modelName (run calls rateLimits).1
    = (run (calls_for modelName calls) rateLimits').1.
Proof.
  unfold answers_for, calls_for.
  induction calls as [|c calls IH]; intros rateLimits rateLimits' Hsame; [done|].
  rewrite filter_cons.
  destruct (decide (call_model c = modelName)) as [Hc | Hc].
  - destruct c as [m t | m t | m s t]; simpl in Hc; subst modelName; cbn [run].
    + destruct (canMakeRequest_local m t rateLimits rateLimits' Hsame) as [Hok Hnext].
      destruct (canMakeRequest m t rateLimits) as [ok next].
      destruct (canMakeRequest m t rateLimits') as [ok' next'].
      simpl in Hok, Hnext. subst ok'.
      specialize (IH next next' Hnext).
      destruct (run calls next) as [answers final].
      destruct (run (filter _ calls) next') as [answers' final'].
      cbn [fst] in IH |- *. rewrite filter_cons. cbn [fst].
      rewrite decide_True by done. by rewrite IH.
    + apply IH. by apply registerRequest_local.
    + apply IH. by apply handleRateLimitError_local.
  - destruct c as [m t | m t | m s t]; simpl in Hc; cbn [run].
    + pose proof (canMakeRequest_other m modelName t rateLimits Hc) as Hframe.
      destruct (canMakeRequest m t rateLimits) as [ok next]. simpl in Hframe.
      specialize (IH next rateLimits').
      destruct (run calls next) as [answers final]. cbn [fst] in IH |- *.
      rewrite filter_cons. cbn [fst]. rewrite decide_False by done.
      apply IH. by rewrite Hframe.
    + apply IH. unfold registerRequest. by rewrite lookup_insert_ne.
    + apply IH. unfold handleRateLimitError. by rewrite lookup_insert_ne.
Qed.

(** X4.  The models are tracked independently: in a run of calls none of
    which is for a model name that plain objects inherit, the answers given
    for one model are those of the run from which the calls for all other
    models have been removed.  (A call for the model [__proto__] writes on
    [Object.prototype] and so changes what every other model reads.) *)
Theorem other_models_do_not_interfere (modelName : string) (calls : list call)
    (rateLimits : gmap string RateLimitInfo) :
  Forall (λ c, Names.inherited (call_model c) = false) calls →
  answers_for modelName (run calls rateLimits).1
  = (run (calls_for modelName calls) rateLimits).1.
Proof. intros _. by apply run_for_one_model. Qed.

Lemma other_models_do_not_interfere_witness :
  answers_for "default"
    (run [CanMakeRequest "" 0; HandleRateLimitError "gemini-1.5-pro" 30 5;
          CanMakeRequest "gemini-1.5-pro" 10; RegisterRequest "" 20;
          CanMakeRequest "" 30] ∅).1
  = [("default", true); ("default", true)].
Proof.
  rewrite (other_models_do_not_interfere "default"
             [CanMakeRequest "" 0; HandleRateLimitError "gemini-1.5-pro" 30 5;
              CanMakeRequest "gemini-1.5-pro" 10; RegisterRequest "" 20;
              CanMakeRequest "" 30] ∅).
  - vm_compute. reflexivity.
  - repeat constructor.
Defined.

End RateLimitWaits.

(** ** Cache statistics *)

Section CacheStatistics.
Import Js Cache CacheStats.

Lemma count_entry_comm (now : Z) (k1 k2 : string) (e1 e2 : CacheEntry) (stats : Stats) :
  count_entry now k1 e1 (count_entry now k2 e2 stats)
  = count_entry now k2 e2 (count_entry now k1 e1 stats).
Proof.
  unfold count_entry, count_api.
  destruct (expiry e1 <=? now)%Z, (expiry e2 <=? now)%Z; cbn; try reflexivity.
  repeat (destruct (startsWith k1 _)); repeat (destruct (startsWith k2 _));
    reflexivity.
Qed.

Lemma getCacheStats_fold (now : Z) (initial : Stats) (apiCache : gmap string CacheEntry) :
  let stats := map_fold (count_entry now) initial apiCache in
  total stats = total initial
  ∧ expired stats + active stats = expired initial + active initial + size apiCache.
Proof.
  cbn zeta.
  apply (map_fold_weak_ind
           (λ stats cache,
              total stats = total initial
              ∧ expired stats + active stats
                = expired initial + active initial + size cache)).
  - rewrite map_size_empty. split; [done | lia].
  - intros key entry cache stats Hfresh [Htotal Hsplit].
    rewrite map_size_insert_None by done.
    unfold count_entry. destruct (expiry entry <=? now)%Z; cbn; split; lia.
Qed.

(** X5.  In the statistics of the cache every entry is counted once, as
    expired or as active: [total] is the number of entries and the sum of
    [expired] and [active]. *)
Theorem getCacheStats_total_is_expired_plus_active (now : Z)
    (apiCache : gmap string CacheEntry) :
  let stats := getCacheStats now apiCache in
  total stats = size apiCache ∧ total stats = expired stats + active stats.
Proof.
  cbn zeta. unfold getCacheStats.
  destruct (getCacheStats_fold now
              {| total := size apiCache; expired := 0; active := 0;
                 byApi := {| radar := 0; serper := 0; news := 0; city := 0 |} |}
              apiCache) as [Htotal Hsplit].
  cbn in Htotal, Hsplit. split; [done | lia].
Qed.

Lemma clearApiCache_empty (apiCache : gmap string CacheEntry) :
  clearApiCache apiCache = ∅.
Proof.
  unfold clearApiCache.
  assert (∀ (keys : gset string) (key : string),
            set_fold (λ key cache, delete key cache) apiCache keys !! key
            = if decide (key ∈ keys) then None else apiCache !! key) as Hfold.
  { apply (set_fold_ind_L
             (λ (cache : gmap string CacheEntry) (keys : gset string),
                ∀ key, cache !! key
                       = if decide (key ∈ keys) then None else apiCache !! key)).
    - intros key. by rewrite decide_False by apply not_elem_of_empty.
    - intros k keys cache Hk IH key.
      destruct (decide (k = key)) as [-> | Hne].
      + rewrite lookup_delete_eq.
        by rewrite decide_True by (apply elem_of_union_l; by apply elem_of_singleton).
      + rewrite lookup_delete_ne by done. rewrite IH.
        destruct (decide (key ∈ keys)) as [Hin | Hout].
        * by rewrite decide_True by (by apply elem_of_union_r).
        * rewrite decide_False; [done|].
          intros [Heq%elem_of_singleton | ?]%elem_of_union; [by subst | done]. }
  apply map_eq. intros key. rewrite Hfold, lookup_empty.
  destruct (decide (key ∈ dom apiCache)) as [|Hout]; [done|].
  by apply not_elem_of_dom.
Qed.

(** No key that the module builds begins with one of the prefixes that the
    statistics look for. *)
Lemma cacheKey_not_counted (resource : Resource) (counts : ByApi) :
  count_api (cacheKey resource) counts = counts.
Proof. by destruct resource. Qed.

Lemma cache_after_module_keys (history : list operation) :
  module_keys (cache_after history).
Proof.
  unfold cache_after.
  assert (∀ cache, module_keys cache → module_keys (fold_left apply_operation history cache))
    as Hall; [|apply Hall; intros key entry; by rewrite lookup_empty].
  induction history as [|op history IH]; intros cache Hkeys; [done|].
  cbn [fold_left]. apply IH. clear IH.
  destruct op as [resource d now | resource now | ]; cbn [apply_operation].
  - intros key entry. unfold storeInCache.
    destruct (decide (cacheKey resource = key)) as [<- | Hne].
    + by exists resource.
    + rewrite lookup_insert_ne by done. apply Hkeys.
  - unfold getFromCache.
    destruct (cache !! cacheKey resource) as [cachedItem|]; [|done].
    destruct (_ <? _)%Z; [|done].
    intros key entry Hlook. cbn [snd] in Hlook.
    apply lookup_delete_Some in Hlook as [_ Hlook].
    by apply (Hkeys key entry).
  - rewrite clearApiCache_empty. intros key entry. by rewrite lookup_empty.
Qed.

Lemma byApi_of_module_keys (now : Z) (initial : Stats) (apiCache : gmap string CacheEntry) :
  module_keys apiCache →
  byApi (map_fold (count_entry now) initial apiCache) = byApi initial.
Proof.
  revert apiCache.
  apply (map_fold_weak_ind
           (λ stats cache, module_keys cache → byApi stats = byApi initial)).
  - done.
  - intros key entry cache stats Hfresh IH Hkeys.
    assert (module_keys cache) as Hrest.
    { intros k e Hk. apply (Hkeys k e).
      rewrite lookup_insert_ne; [done|]. intros ->. congruence. }
    destruct (Hkeys key entry) as [resource ->]; [apply lookup_insert_eq|].
    unfold count_entry. destruct (expiry entry <=? now)%Z; cbn [byApi].
    + by apply IH.
    + rewrite cacheKey_not_counted. by apply IH.
Qed.

(** X6.  The counters per provider of the statistics are dead: the keys that
    the module stores begin with [radar_], [serper_], [news_] and
    [city_data_], the statistics look for [radar:], [serper:], [news:] and
    [city:], so after any history of stores, lookups and clearings all four
    counters are zero, however many entries are active. *)
Theorem getCacheStats_byApi_always_zero (history : list operation) (now : Z) :
  byApi (getCacheStats now (cache_after history))
  = {| radar := 0; serper := 0; news := 0; city := 0 |}.
Proof.
  unfold getCacheStats.
  rewrite byApi_of_module_keys; [done|]. apply cache_after_module_keys.
Qed.

Lemma counters_ignore_total (now : Z) (apiCache : gmap string CacheEntry) :
  ∀ a b : Stats,
    expired a = expired b → active a = active b → byApi a = byApi b →
    expired (map_fold (count_entry now) a apiCache)
    = expired (map_fold (count_entry now) b apiCache)
    ∧ active (map_fold (count_entry now) a apiCache)
      = active (map_fold (count_entry now) b apiCache)
    ∧ byApi (map_fold (count_entry now) a apiCache)
      = byApi (map_fold (count_entry now) b apiCache).
Proof.
  induction apiCache as [|key entry cache Hfresh IH] using map_ind;
    intros a b Hexpired Hactive HbyApi.
  - by rewrite !map_fold_empty.
  - rewrite !map_fold_insert_L by (done || intros; apply count_entry_comm).
    destruct (IH a b Hexpired Hactive HbyApi) as (IHe & IHa & IHb).
    set (fa := map_fold (count_entry now) a cache) in *.
    set (fb := map_fold (count_entry now) b cache) in *.
    unfold count_entry.
    destruct (expiry entry <=? now)%Z; cbn [expired active byApi];
      by rewrite IHe, IHa, IHb.
Qed.

(** X7.  At the instant at which an entry reaches the age [CACHE_TTL] the
    two readers of the cache disagree: [getFromCache] still returns the data
    (it expires entries that are older than [CACHE_TTL]), while
    [getCacheStats] already counts the entry as expired (it compares with
    [>=]). *)
Theorem lookup_and_statistics_disagree_at_expiry (cacheKey : string) (d : value)
    (stored : Z) (apiCache : gmap string CacheEntry) :
  let now := (stored + CACHE_TTL)%Z in
  let cache := storeInCache cacheKey d stored apiCache in
  (getFromCache cacheKey now cache).1 = d
  ∧ expired (getCacheStats now cache)
    = S (expired (getCacheStats now (delete cacheKey apiCache)))
  ∧ active (getCacheStats now cache)
    = active (getCacheStats now (delete cacheKey apiCache)).
Proof.
  cbn zeta. split.
  - unfold getFromCache, storeInCache. rewrite lookup_insert_eq. cbn.
    destruct (Z.ltb_spec CACHE_TTL (stored + CACHE_TTL - stored)); [lia | done].
  - unfold getCacheStats, storeInCache.
    rewrite <- insert_delete_eq.
    rewrite map_fold_insert_L;
      [ | intros; apply count_entry_comm | apply lookup_delete_eq ].
    match goal with
    | |- context [count_entry ?t ?k ?e ?s] =>
        replace (count_entry t k e s)
          with {| total := total s; expired := S (expired s); active := active s;
                  byApi := byApi s |}
          by (unfold count_entry; cbn [expiry];
              by destruct (Z.leb_spec (stored + CACHE_TTL) (stored + CACHE_TTL));
                [|lia])
    end.
    cbn [expired active].
    match goal with
    | |- context [map_fold _ ?a (delete _ _)] =>
        destruct (counters_ignore_total (stored + CACHE_TTL) (delete cacheKey apiCache)
                    a {| total := size (delete cacheKey apiCache); expired := 0;
                         active := 0;
                         byApi := {| radar := 0; serper := 0; news := 0; city := 0 |} |})
          as (He & Ha & _); [done | done | done | ]
    end.
    by rewrite He, Ha.
Qed.

End CacheStatistics.

(** ** The cached providers *)

Section CachedProviders.
Import Js Cache Retry Integrations.

(** X8.  A response of the search provider that is truthy is served from
    the cache by every later call with the same query and options made
    within the time to live of the entry: the second call makes no request,
    whatever the state of the network and of the API key, returns the same
    data and leaves the cache as it is. *)
Theorem getSerperData_second_call_from_cache (post post' : nat → outcome value)
    (api_key api_key' : value) (query options : string) (now later now' later' : Z)
    (apiCache : gmap string CacheEntry) (response d : value) :
  truthy (getFromCache ("serper_" +:+ query +:+ "_" +:+ options) now apiCache).1 = false →
  truthy api_key = true →
  (withRetry post 2 1000).1 = Ok response →
  get response "data" = Ok d →
  truthy d = true →
  (now' - later ≤ CACHE_TTL)%Z →
  ∃ trace cache,
    getSerperData post api_key query options now later apiCache = (d, trace, cache)
    ∧ getSerperData post' api_key' query options now' later' cache = (d, [], cache).
Proof.
  intros Hmiss Hkey Hresponse Hdata Htruthy Hfresh.
  unfold getSerperData.
  destruct (getFromCache _ now apiCache) as [cachedData cache] eqn:Hlookup.
  cbn [fst] in Hmiss. rewrite Hmiss, Hkey. cbn [negb].
  destruct (withRetry post 2 1000) as [r trace]. cbn [fst] in Hresponse. subst r.
  cbn [mbind outcome_bind bind]. rewrite Hdata.
  eexists _, _. split; [reflexivity|].
  rewrite (getFromCache_fresh _ _ {| data := d; timestamp := later;
                                     expiry := later + CACHE_TTL |});
    [ | apply lookup_insert_eq | done ].
  cbn [data]. by rewrite Htruthy.
Qed.

Lemma getSerperData_second_call_from_cache_witness :
  ∃ trace cache,
    getSerperData Scenarios.post_ok (VStr "key") "austin" "{}" 0 150 ∅
    = (Scenarios.serper_payload, trace, cache)
    ∧ getSerperData Scenarios.post_fails VUndefined "austin" "{}" 86400150 86400200 cache
      = (Scenarios.serper_payload, [], cache).
Proof.
  apply (getSerperData_second_call_from_cache Scenarios.post_ok Scenarios.post_fails
           (VStr "key") VUndefined "austin" "{}" 0 150 86400150 86400200 ∅
           (VObj [("data", Scenarios.serper_payload)]) Scenarios.serper_payload).
  - reflexivity.
  - reflexivity.
  - reflexivity.
  - reflexivity.
  - reflexivity.
  - unfold CACHE_TTL. lia.
Defined.

(** X9.  A failure is not cached.  When the three attempts of the request
    fail, the call returns the error object built from the last error after
    the attempts and the two waits of 1000 and 2000 ms, and stores nothing:
    the cache is the one the lookup left. *)
Theorem getSerperData_failure_is_not_cached (post : nat → outcome value)
    (errors : nat → exn) (api_key : value) (query options : string) (now later : Z)
    (apiCache : gmap string CacheEntry) :
  truthy (getFromCache ("serper_" +:+ query +:+ "_" +:+ options) now apiCache).1 = false →
  truthy api_key = true →
  (∀ n, n ≤ 2 → post n = Throw (errors n)) →
  getSerperData post api_key query options now later apiCache
  = (api_error (errors 2),
     [Attempt 0; Sleep 1000; Attempt 1; Sleep 2000; Attempt 2],
     (getFromCache ("serper_" +:+ query +:+ "_" +:+ options) now apiCache).2).
Proof.
  intros Hmiss Hkey Hfail.
  unfold getSerperData.
  destruct (getFromCache _ now apiCache) as [cachedData cache] eqn:Hlookup.
  cbn [fst snd] in Hmiss |- *. rewrite Hmiss, Hkey. cbn [negb].
  unfold withRetry. cbn [withRetry_from Nat.sub Nat.leb].
  rewrite !Hfail by lia. reflexivity.
Qed.

Lemma getSerperData_failure_is_not_cached_witness :
  getSerperData Scenarios.post_fails (VStr "key") "austin" "{}" 0 3200 ∅
  = (api_error (ErrorObj "Request failed with status code 500"),
     [Attempt 0; Sleep 1000; Attempt 1; Sleep 2000; Attempt 2], ∅).
Proof.
  rewrite (getSerperData_failure_is_not_cached Scenarios.post_fails
             (λ _, ErrorObj "Request failed with status code 500")
             (VStr "key") "austin" "{}" 0 3200 ∅).
  - reflexivity.
  - reflexivity.
  - reflexivity.
  - intros n _. reflexivity.
Defined.

(** X10.  A response that is falsy (an empty body, [0], [null], [false]) is
    stored but never served: the guard [if (cachedData)] takes it for a
    miss, so the next call with the same query and options sends the request
    again, as if nothing were cached. *)
Theorem getSerperData_falsy_response_is_requested_again
    (post post' : nat → outcome value) (api_key api_key' : value)
    (query options : string) (now later now' later' : Z)
    (apiCache : gmap string CacheEntry) (response d : value) :
  truthy (getFromCache ("serper_" +:+ query +:+ "_" +:+ options) now apiCache).1 = false →
  truthy api_key = true →
  truthy api_key' = true →
  (withRetry post 2 1000).1 = Ok response →
  get response "data" = Ok d →
  truthy d = false →
  ∃ trace cache,
    getSerperData post api_key query options now later apiCache = (d, trace, cache)
    ∧ cache !! ("serper_" +:+ query +:+ "_" +:+ options)
      = Some {| data := d; timestamp := later; expiry := later + CACHE_TTL |}
    ∧ (getSerperData post' api_key' query options now' later' cache).1.2
      = (withRetry post' 2 1000).2.
Proof.
  intros Hmiss Hkey Hkey' Hresponse Hdata Hfalsy.
  unfold getSerperData.
  destruct (getFromCache _ now apiCache) as [cachedData cache] eqn:Hlookup.
  cbn [fst] in Hmiss. rewrite Hmiss, Hkey. cbn [negb].
  destruct (withRetry post 2 1000) as [r trace]. cbn [fst] in Hresponse. subst r.
  cbn [mbind outcome_bind bind]. rewrite Hdata.
  eexists _, _. split; [reflexivity|]. split; [apply lookup_insert_eq|].
  set (key := "serper_" +:+ query +:+ "_" +:+ options).
  assert (truthy (getFromCache key now' (storeInCache key d later cache)).1 = false)
    as Hagain.
  { unfold getFromCache, storeInCache. rewrite lookup_insert_eq. cbn [timestamp data].
    by destruct (_ <? _)%Z. }
  destruct (getFromCache key now' (storeInCache key d later cache)) as [cached' cache'].
  cbn [fst] in Hagain. rewrite Hagain, Hkey'. cbn [negb].
  destruct (withRetry post' 2 1000) as [r' trace'].
  by destruct (r' ≫= _).
Qed.

Lemma getSerperData_falsy_response_is_requested_again_witness :
  ∃ trace cache,
    getSerperData Scenarios.post_empty (VStr "key") "austin" "{}" 0 150 ∅
    = (VStr "", trace, cache)
    ∧ cache !! "serper_austin_{}"
      = Some {| data := VStr ""; timestamp := 150; expiry := 150 + CACHE_TTL |}
    ∧ (getSerperData Scenarios.post_empty (VStr "key") "austin" "{}" 200 350 cache).1.2
      = [Attempt 0].
Proof.
  apply (getSerperData_falsy_response_is_requested_again
           Scenarios.post_empty Scenarios.post_empty (VStr "key") (VStr "key")
           "austin" "{}" 0 150 200 350 ∅ (VObj [("data", VStr "")]) (VStr "")).
  - reflexivity.
  - reflexivity.
  - reflexivity.
  - reflexivity.
  - reflexivity.
  - reflexivity.
Defined.

End CachedProviders.

(** ** The retry executors, for every operation *)

Section RetryShapes.
Import Js Retry.
Context {T : Type}.
Variable operation : nat → outcome T.

Lemma executeWithRetry_from_shape (self : RetryUtil) (shouldRetry : exn → bool) :
  ∀ d c last, c + d = maxRetries self →
    let res := executeWithRetry_from operation self shouldRetry (S d) c last in
    ∃ k, c ≤ k ≤ maxRetries self
      ∧ res.1 = operation k
      ∧ attempts res.2 = seq c (S (k - c))
      ∧ sleeps res.2 = calculateDelay self <$> seq c (k - c)
      ∧ (∀ i, c ≤ i < k → ∃ e, operation i = Throw e ∧ shouldRetry e = true)
      ∧ (∀ e, operation k = Throw e → k = maxRetries self ∨ shouldRetry e = false).
Proof.
  induction d as [|d IH]; intros c last Hc; rewrite executeWithRetry_from_step.
  - exists c. destruct (operation c) as [r | error] eqn:Hop.
    + rewrite Nat.sub_diag. split_and!; first [done | lia | (intros; lia)].
    + destruct (Nat.eqb_spec c (maxRetries self)) as [_ | Hne]; [|lia].
      rewrite Nat.sub_diag. cbn [orb fst snd].
      split_and!; first [done | lia | (intros; lia) | (intros; left; lia)].
  - destruct (operation c) as [r | error] eqn:Hop.
    + exists c. rewrite Nat.sub_diag. rewrite Hop.
      split_and!; first [done | lia | (intros; lia)].
    + destruct (Nat.eqb_spec c (maxRetries self)) as [Heq | Hne]; [lia|].
      destruct (shouldRetry error) eqn:Hretry; cbn [orb negb].
      * destruct (IH (S c) (Some error) ltac:(lia))
          as (k & Hk & Hres & Hatt & Hsl & Hbefore & Hlast).
        exists k. cbn [fst snd attempts sleeps]. rewrite Hatt, Hsl.
        replace (k - c) with (S (k - S c)) by lia.
        split_and!; first [done | lia | idtac].
        intros i Hi. destruct (decide (i = c)) as [-> | Hne'].
        -- by exists error.
        -- apply Hbefore. lia.
      * exists c. rewrite Nat.sub_diag, Hop. cbn [fst snd].
        split_and!; first [done | lia | (intros; lia) | idtac].
        intros e [= <-]. by right.
Qed.

(** X11.  [RetryUtil.executeWithRetry], for every operation and every
    [shouldRetry]: the operation is invoked at consecutive attempts
    [0, ..., k] with [k <= maxRetries], the executor sleeps
    [calculateDelay] of the attempt between two invocations, and the result
    is the outcome of the last invocation.  The last invocation is the first
    that succeeds or fails with an error that is not to be retried, or the
    one that uses up the budget. *)
Theorem executeWithRetry_stops_at_first_final_outcome (self : RetryUtil)
    (shouldRetry : exn → bool) :
  let res := executeWithRetry operation self shouldRetry in
  ∃ k, k ≤ maxRetries self
    ∧ res.1 = operation k
    ∧ attempts res.2 = seq 0 (S k)
    ∧ sleeps res.2 = calculateDelay self <$> seq 0 k
    ∧ (∀ i, i < k → ∃ e, operation i = Throw e ∧ shouldRetry e = true)
    ∧ (∀ e, operation k = Throw e → k = maxRetries self ∨ shouldRetry e = false).
Proof.
  cbn zeta. unfold executeWithRetry.
  destruct (executeWithRetry_from_shape self shouldRetry (maxRetries self) 0 None
              ltac:(lia)) as (k & Hk & Hres & Hatt & Hsl & Hbefore & Hlast).
  rewrite Nat.sub_0_r in Hatt, Hsl.
  exists k. split_and!; first [done | lia | idtac].
  intros i Hi. apply Hbefore. lia.
Qed.

Lemma calculateDelay_capped (self : RetryUtil) (retryCount : nat) :
  (calculateDelay self retryCount ≤ maxDelay self)%Z.
Proof. unfold calculateDelay. lia. Qed.

Lemma capped_sum (cap : Z) (delays : list Z) :
  Forall (λ ms, ms ≤ cap)%Z delays →
  (foldr Z.add 0 delays ≤ Z.of_nat (length delays) * cap)%Z.
Proof.
  induction 1 as [|ms delays Hms _ IH]; cbn [foldr length]; [lia|].
  rewrite Nat2Z.inj_succ. lia.
Qed.

(** X12.  The time that [RetryUtil.executeWithRetry] spends sleeping is
    bounded, whatever the operation does: no wait is longer than [maxDelay]
    and there are at most [maxRetries] of them. *)
Theorem executeWithRetry_total_wait_bounded (self : RetryUtil)
    (shouldRetry : exn → bool) :
  (0 ≤ maxDelay self)%Z →
  let waits := sleeps (executeWithRetry operation self shouldRetry).2 in
  length waits ≤ maxRetries self
  ∧ Forall (λ ms, ms ≤ maxDelay self)%Z waits
  ∧ (foldr Z.add 0 waits ≤ Z.of_nat (maxRetries self) * maxDelay self)%Z.
Proof.
  intros Hcap waits. unfold waits, executeWithRetry.
  destruct (executeWithRetry_from_shape self shouldRetry (maxRetries self) 0 None
              ltac:(lia)) as (k & Hk & _ & _ & Hsl & _).
  rewrite Hsl, Nat.sub_0_r.
  assert (Forall (λ ms, ms ≤ maxDelay self)%Z (calculateDelay self <$> seq 0 k))
    as Hall.
  { apply Forall_fmap, Forall_forall. intros i _. apply calculateDelay_capped. }
  split_and!; [rewrite length_fmap, length_seq; lia | done | ].
  etransitivity; [by apply capped_sum|].
  rewrite length_fmap, length_seq. nia.
Qed.

Lemma withRetry_from_shape (retries : nat) :
  ∀ d c delay last, c + d = retries →
    let res := withRetry_from operation retries (S d) (S c) delay last in
    ∃ k, c ≤ k ≤ retries
      ∧ res.1 = operation k
      ∧ attempts res.2 = seq c (S (k - c))
      ∧ sleeps res.2 = (λ i : nat, (delay * 2 ^ Z.of_nat i)%Z) <$> seq 0 (k - c)
      ∧ (∀ i, c ≤ i < k → ∃ e, operation i = Throw e)
      ∧ (∀ e, operation k = Throw e → k = retries).
Proof.
  induction d as [|d IH]; intros c delay last Hc; rewrite withRetry_from_step.
  - exists c. rewrite Nat.sub_diag. destruct (operation c) as [r | error] eqn:Hop.
    + split_and!; first [done | lia | (intros; lia)].
    + destruct (Nat.leb_spec (S c) retries) as [Hle | Hgt]; [lia|].
      cbn. split_and!; first [done | lia | (intros; lia)].
  - destruct (operation c) as [r | error] eqn:Hop.
    + exists c. rewrite Nat.sub_diag, Hop.
      split_and!; first [done | lia | (intros; lia)].
    + destruct (Nat.leb_spec (S c) retries) as [Hle | Hgt]; [|lia].
      destruct (IH (S c) (delay * 2)%Z (Some error) ltac:(lia))
        as (k & Hk & Hres & Hatt & Hsl & Hbefore & Hlast).
      exists k. cbn [fst snd attempts sleeps]. rewrite Hatt, Hsl.
      replace (k - c) with (S (k - S c)) by lia.
      split_and!; first [done | lia | idtac].
      * rewrite doubling_delays. cbn [seq fmap list_fmap].
        by rewrite Z.pow_0_r, Z.mul_1_r.
      * intros i Hi. destruct (decide (i = c)) as [-> | Hne'].
        -- by exists error.
        -- apply Hbefore. lia.
Qed.

(** X13.  [withRetry] of the tools, for every operation: the operation is
    invoked at consecutive attempts [0, ..., k] with [k <= retries], the
    wait before the retry [i + 1] is [delay * 2^i] with no upper limit, the
    result is the outcome of the last invocation, and the last invocation is
    the first that succeeds or the one that uses up the budget. *)
Theorem withRetry_stops_at_first_success (retries : nat) (delay : Z) :
  let res := withRetry operation retries delay in
  ∃ k, k ≤ retries
    ∧ res.1 = operation k
    ∧ attempts res.2 = seq 0 (S k)
    ∧ sleeps res.2 = (λ i : nat, (delay * 2 ^ Z.of_nat i)%Z) <$> seq 0 k
    ∧ (∀ i, i < k → ∃ e, operation i = Throw e)
    ∧ (∀ e, operation k = Throw e → k = retries).
Proof.
  cbn zeta. unfold withRetry.
  destruct (withRetry_from_shape retries retries 0 delay None ltac:(lia))
    as (k & Hk & Hres & Hatt & Hsl & Hbefore & Hlast).
  rewrite Nat.sub_0_r in Hatt, Hsl.
  exists k. split_and!; first [done | lia | idtac].
  intros i Hi. apply Hbefore. lia.
Qed.

Lemma executor_from_agrees (config : Executor.RetryConfig) :
  Executor.backoffFactor config = 2%Z →
  ∀ fuel attempt last,
    let a := Executor.executeWithRetry_from operation config fuel attempt last in
    let b := executeWithRetry_from operation (Executor.as_RetryUtil config)
               always_retry fuel attempt last in
    a.1 = match b.1 with
          | Ok r => Ok r
          | Throw e => Throw (Executor.last_or_failed (Some e))
          end
    ∧ attempts a.2 = attempts b.2
    ∧ sleeps a.2 = sleeps b.2.
Proof.
  intros Hfactor.
  induction fuel as [|fuel IH]; intros attempt last; cbn zeta.
  - cbn. split; [|done]. by destruct last.
  - cbn [Executor.executeWithRetry_from executeWithRetry_from].
    destruct (operation attempt) as [r | error]; [done|].
    cbn [Executor.as_RetryUtil maxRetries always_retry negb orb].
    rewrite orb_false_r.
    destruct (attempt =? Executor.maxRetries config)%nat eqn:Hlast; [done|].
    destruct (IH (S attempt) (Some error)) as (Hres & Hatt & Hsl).
    destruct (Executor.executeWithRetry_from operation config fuel (S attempt)
                (Some error)) as [ra ta].
    destruct (executeWithRetry_from operation (Executor.as_RetryUtil config)
                always_retry fuel (S attempt) (Some error)) as [rb tb].
    cbn [fst snd attempts sleeps] in *.
    rewrite Hatt, Hsl. split; [done|]. split; [done|].
    f_equal. unfold Executor.calculateBackoff, calculateDelay.
    by rewrite Hfactor.
Qed.

(** X14.  The retry loop of [APIExecutor] with the backoff factor 2 behaves
    as [RetryUtil.executeWithRetry] with the same numbers and the default
    [shouldRetry]: the same invocations, the same waits and the same result,
    except that an error that is falsy (a thrown [undefined], [null], [0],
    empty string or [false]) is replaced by the error
    ['Operation failed after retries']. *)
Theorem APIExecutor_retries_as_RetryUtil (config : Executor.RetryConfig) :
  Executor.backoffFactor config = 2%Z →
  let a := Executor.executeWithRetry operation config in
  let b := executeWithRetry operation (Executor.as_RetryUtil config) always_retry in
  a.1 = match b.1 with
        | Ok r => Ok r
        | Throw e => Throw (if Executor.truthy_exn e then e
                            else ErrorObj "Operation failed after retries")
        end
  ∧ attempts a.2 = attempts b.2
  ∧ sleeps a.2 = sleeps b.2.
Proof.
  intros Hfactor. cbn zeta. unfold Executor.executeWithRetry, executeWithRetry.
  apply (executor_from_agrees config Hfactor).
Qed.

End RetryShapes.

Section RetryShapeExamples.
Import Js Retry.

Lemma executeWithRetry_total_wait_bounded_witness :
  (foldr Z.add 0
     (sleeps (executeWithRetry Scenarios.post_fails apiConfig_retry always_retry).2)
   ≤ 30000)%Z.
Proof.
  destruct (executeWithRetry_total_wait_bounded Scenarios.post_fails apiConfig_retry
              always_retry) as (_ & _ & Hsum).
  - cbn. lia.
  - exact Hsum.
Defined.

Lemma APIExecutor_retries_as_RetryUtil_witness :
  (Executor.executeWithRetry Scenarios.third_time_lucky Executor.defaultRetryConfig).1
  = Ok (VStr "done")
  ∧ sleeps
      (Executor.executeWithRetry Scenarios.third_time_lucky
         Executor.defaultRetryConfig).2
    = [1000; 2000]%Z.
Proof.
  destruct (APIExecutor_retries_as_RetryUtil Scenarios.third_time_lucky
              Executor.defaultRetryConfig eq_refl) as (Hres & _ & Hsl).
  split.
  - rewrite Hres. reflexivity.
  - rewrite Hsl. reflexivity.
Defined.

End RetryShapeExamples.

(** ** The tools, for every search result and every reader *)

Section SummaryBudget.
Import Js Tools.
Variable reader : nat → value → outcome value.

Lemma summarize_one_length (organic : value) (i : nat) (link : value)
    (summaries : list value) :
  length (summarize_one reader organic i link summaries) ≤ S (length summaries).
Proof.
  unfold summarize_one.
  destruct (get (summarizeWebpage (reader i link)) "error") as [error|];
    cbn [mbind outcome_bind bind]; [|lia].
  destruct (truthy error); cbn [negb mret outcome_ret]; [lia|].
  destruct (get (index organic i) "title"); cbn [mbind outcome_bind bind]; [|lia].
  destruct (get (summarizeWebpage (reader i link)) "summary");
    cbn [mbind outcome_bind bind]; [|lia].
  destruct (get (summarizeWebpage (reader i link)) "keyPoints");
    cbn [mbind outcome_bind bind]; [|lia].
  unfold mret, outcome_ret. rewrite length_app. cbn [length]. lia.
Qed.

Lemma summarize_from_lengths (organic : value) (fuel : nat) :
  ∀ i summaries requested,
    let res := summarize_from reader organic fuel i summaries requested in
    length res.2 ≤ length requested + fuel
    ∧ ∀ out, res.1 = Ok out →
        length out + length requested ≤ length summaries + length res.2.
Proof.
  induction fuel as [|fuel IH]; intros i summaries requested; cbn zeta.
  - cbn. split; [lia|]. intros out [= <-]. lia.
  - cbn [summarize_from].
    destruct (get (index organic i) "link") as [link|]; [|cbn; split; [lia | done]].
    destruct (truthy link).
    + destruct (IH (S i) (summarize_one reader organic i link summaries)
                  (requested ++ [link])) as [Hreq Hout].
      rewrite length_app in Hreq, Hout. cbn [length] in Hreq, Hout.
      split; [lia|]. intros out Hres. specialize (Hout out Hres).
      pose proof (summarize_one_length organic i link summaries). lia.
    + destruct (IH (S i) summaries requested) as [Hreq Hout].
      split; [lia|]. intros out Hres. specialize (Hout out Hres). lia.
Qed.

(** X15.  [getHousingMarketData] asks the reader service for at most three
    summaries, whatever the search returned, and it returns at most one
    summary for each page it asked for. *)
Theorem getHousingMarketData_requests_at_most_three (searchResults : value) :
  let res := getHousingMarketData reader searchResults in
  length res.2 ≤ 3
  ∧ ∀ summaries, get_opt res.1 "summaries" = VArr summaries →
      length summaries ≤ length res.2.
Proof.
  cbn zeta. unfold getHousingMarketData.
  destruct (get searchResults "organic") as [organic|];
    [|cbn; split; [lia | done]].
  destruct (truthy organic && (0 <? length_of organic)%nat).
  - destruct (summarize_from_lengths organic (Nat.min 3 (length_of organic)) 0 [] [])
      as [Hreq Hout].
    destruct (summarize_from reader organic (Nat.min 3 (length_of organic)) 0 [] [])
      as [[out|] requested]; cbn [fst snd length] in *.
    + split; [lia|]. intros summaries [= <-]. specialize (Hout out eq_refl). lia.
    + split; [lia | done].
  - cbn. split; [lia|]. intros summaries [= <-]. cbn. lia.
Qed.

End SummaryBudget.

Section SearchFailure.
Import Js Tools Fusion.
Variable reader : nat → value → outcome value.
Variable num_to_string : Q → string.

(** X16.  A failed web search is not reported by [getHousingMarketData]:
    when [searchWeb] returns an error object (the API key is missing or the
    request failed), the housing data are an object with no [error], an
    empty list of search results and an empty list of summaries, no page is
    summarized, and fusion turns the object into a housing block whose
    summary is the empty string. *)
Theorem getHousingMarketData_hides_search_failure (api_key : value)
    (response : outcome value) :
  truthy (get_opt (searchWeb api_key response) "error") = true →
  getHousingMarketData reader (searchWeb api_key response)
  = (VObj [("searchResults", VArr []); ("summaries", VArr [])], [])
  ∧ optional_block num_to_string
      (getHousingMarketData reader (searchWeb api_key response)).1
    = Ok (Some {| Summary.summary := Some ""; Summary.sources := Some [];
                  Summary.highlights := [] |}).
Proof.
  intros Herror.
  assert (getHousingMarketData reader (searchWeb api_key response)
          = (VObj [("searchResults", VArr []); ("summaries", VArr [])], []))
    as Hresult.
  { unfold searchWeb in *.
    destruct (truthy api_key); cbn [negb] in *; [|reflexivity].
    destruct response as [data | error];
      cbn [mbind outcome_bind bind] in *; [|reflexivity].
    destruct (get data "organic") as [organic|];
      cbn [mbind outcome_bind bind] in *; [|reflexivity].
    destruct (get data "knowledgeGraph") as [knowledgeGraph|];
      cbn [mbind outcome_bind bind] in *; [|reflexivity].
    destruct (get data "answerBox") as [answerBox|];
      cbn [mbind outcome_bind bind] in *; [|reflexivity].
    cbn in Herror. discriminate. }
  split; [done|]. rewrite Hresult. reflexivity.
Qed.

End SearchFailure.

Section FallbackCityInfo.
Import Js MoreTools Fusion.
Variable num_to_string : Q → string.

Lemma fallback_city_info_fields (name : string) (cityName searchResult : value) :
  city_info_fields num_to_string name (getFallbackCityInfo cityName searchResult)
  = (VUndefined, Some ∅,
     Some ("Information about " +:+ name +:+ " (using fallback data)")).
Proof. reflexivity. Qed.

(** X17.  The fallback of [getCityInfo] never carries a score: its
    [estimatedScores] are all texts, which [processCityData] skips.  A city
    record built from it has the empty score table (not an absent one) and
    the fallback summary, so two such records are compared, and the
    comparison is a tie without any category. *)
Theorem fallback_city_info_compares_as_empty_tie (name1 name2 : string)
    (cityName searchResult : value) (apiResults : gmap string value)
    (city1 city2 : CityData) :
  field apiResults "cityInfo" = getFallbackCityInfo cityName searchResult →
  processCityData num_to_string name1 apiResults = Ok city1 →
  processCityData num_to_string name2 apiResults = Ok city2 →
  scores city1 = Some ∅
  ∧ summary city1 = Some ("Information about " +:+ name1 +:+ " (using fallback data)")
  ∧ compareCities [city1; city2] = Some {| winner := "tie"; categories := ∅ |}.
Proof.
  intros Hinfo H1 H2.
  apply processCityData_parts in H1 as (_ & Hfields1 & _).
  apply processCityData_parts in H2 as (_ & Hfields2 & _).
  rewrite Hinfo, fallback_city_info_fields in Hfields1, Hfields2.
  injection Hfields1 as _ Hscores1 Hsummary1.
  injection Hfields2 as _ Hscores2 _.
  split; [done|]. split; [done|].
  unfold compareCities. rewrite Hscores1, Hscores2.
  unfold tally, allCategories. rewrite dom_empty_L, union_empty_l_L, set_fold_empty.
  reflexivity.
Qed.

End FallbackCityInfo.

Section ParallelCalls.
Import Js MoreTools.

Lemma executeInParallel_from_all (maxConcurrent : nat) :
  0 < maxConcurrent →
  ∀ fuel functions results,
    length functions ≤ fuel →
    executeInParallel_from maxConcurrent fuel functions results
    = results ++ omap settled functions.
Proof.
  intros Hpositive.
  induction fuel as [|fuel IH]; intros functions results Hfuel.
  - destruct functions; [|cbn in Hfuel; lia]. cbn. by rewrite app_nil_r.
  - destruct functions as [|call functions]; [cbn; by rewrite app_nil_r|].
    cbn [executeInParallel_from].
    rewrite IH; last first.
    { rewrite length_drop. cbn [length] in *. lia. }
    rewrite <- app_assoc, <- omap_app. by rewrite take_drop.
Qed.

Lemma settled_calls_length (functions : list (outcome value)) :
  length (omap settled functions) ≤ length functions.
Proof.
  induction functions as [|call functions IH]; [done|].
  cbn. destruct (settled call); cbn; lia.
Qed.

(** X18.  [executeInParallel] returns the results of the calls that
    succeeded with a value other than [null], in the order of the calls and
    whatever the size of the chunks; a call that throws or is timed out
    leaves no slot, so the results of the calls after it move forward by
    one position. *)
Theorem executeInParallel_drops_failed_calls (maxConcurrent : nat)
    (functions : list (outcome value)) :
  0 < maxConcurrent →
  executeInParallel maxConcurrent functions = omap settled functions
  ∧ length (executeInParallel maxConcurrent functions) ≤ length functions
  ∧ ∀ before error after,
      functions = before ++ Throw error :: after →
      executeInParallel maxConcurrent functions
      = executeInParallel maxConcurrent (before ++ after).
Proof.
  intros Hpositive.
  assert (∀ calls, executeInParallel maxConcurrent calls = omap settled calls) as Hall.
  { intros calls. unfold executeInParallel.
    by rewrite executeInParallel_from_all by done. }
  split; [apply Hall|]. split.
  - rewrite Hall. apply settled_calls_length.
  - intros before error after ->. rewrite !Hall, !omap_app. done.
Qed.

End ParallelCalls.

Section ToolExamples.
Import Js Tools MoreTools Fusion.

Lemma getHousingMarketData_hides_search_failure_witness :
  getHousingMarketData Examples.good_reader
    (searchWeb (VStr "key") (Throw (ErrorObj "Network Error")))
  = (VObj [("searchResults", VArr []); ("summaries", VArr [])], []).
Proof.
  apply (getHousingMarketData_hides_search_failure Examples.good_reader
           Examples.show_number (VStr "key") (Throw (ErrorObj "Network Error"))).
  reflexivity.
Defined.

Lemma fallback_city_info_compares_as_empty_tie_witness :
  ∃ city1 city2,
    processCityData Examples.show_number "Austin" Scenarios.fallback_results = Ok city1
    ∧ processCityData Examples.show_number "Denver" Scenarios.fallback_results = Ok city2
    ∧ compareCities [city1; city2] = Some {| winner := "tie"; categories := ∅ |}.
Proof.
  destruct (processCityData Examples.show_number "Austin" Scenarios.fallback_results)
    as [city1|] eqn:H1; [|vm_compute in H1; discriminate].
  destruct (processCityData Examples.show_number "Denver" Scenarios.fallback_results)
    as [city2|] eqn:H2; [|vm_compute in H2; discriminate].
  exists city1, city2. split; [done|]. split; [done|].
  apply (fallback_city_info_compares_as_empty_tie Examples.show_number
           "Austin" "Denver" (VStr "Austin") (VObj []) Scenarios.fallback_results
           city1 city2); [reflexivity | exact H1 | exact H2].
Defined.

Lemma executeInParallel_drops_failed_calls_witness :
  executeInParallel 5
    [Ok (VStr "city info"); Throw (ErrorObj "Operation timed out"); Ok (VStr "jobs")]
  = [VStr "city info"; VStr "jobs"].
Proof.
  destruct (executeInParallel_drops_failed_calls 5
              [Ok (VStr "city info"); Throw (ErrorObj "Operation timed out");
               Ok (VStr "jobs")]) as [Hresults _]; [lia|].
  rewrite Hresults. reflexivity.
Defined.

End ToolExamples.

(** ** Orchestration: which providers are called, and with what *)

Section RequiredProviders.
Import Js Intent Orchestrator Shapes.
Variable world : Provider → list value → nat → outcome value.

(** X19.  For every intent the required providers are distinct names that
    the [switch] of [callApi] knows, the web search coming first: a request
    never produces an ["Unknown API"] result and no result overwrites
    another. *)
Theorem required_apis_are_known_and_distinct (intent : QueryIntent) :
  NoDup (getRequiredApis intent)
  ∧ Forall (λ apiName, apiName ∈ known_apis) (getRequiredApis intent)
  ∧ head (getRequiredApis intent) = Some "webSearch".
Proof.
  split; [|split; [|by destruct intent]].
  - apply (bool_decide_unpack _). by destruct intent; vm_compute.
  - apply (bool_decide_unpack _). by destruct intent; vm_compute.
Qed.

(** X20.  When the parsed request names no city, the providers that take a
    city are not skipped: [buildApiQueries] has an entry for the web search
    only, so every other provider gets the whole query object as its
    parameters and is called with [undefined] for the city. *)
Theorem providers_called_with_undefined_city (parsedIntent : ParsedIntent) :
  cities parsedIntent = [] →
  let params := params_for (buildApiQueries parsedIntent) in
  callApi_switch world "cityInfo" (params "cityInfo")
  = retried world GetCityInfo (Ok [VUndefined])
  ∧ callApi_switch world "news" (params "news")
    = retried world GetNewsData (Ok [VUndefined])
  ∧ callApi_switch world "housingMarket" (params "housingMarket")
    = retried world GetHousingMarketData (Ok [VUndefined])
  ∧ callApi_switch world "jobOpportunities" (params "jobOpportunities")
    = retried world GetJobOpportunitiesData (Ok [VUndefined; VUndefined])
  ∧ callApi_switch world "schoolDistricts" (params "schoolDistricts")
    = retried world GetSchoolDistrictInfo (Ok [VUndefined])
  ∧ callApi_switch world "transportation" (params "transportation")
    = retried world GetPublicTransportationInfo (Ok [VUndefined])
  ∧ callApi_switch world "costOfLiving" (params "costOfLiving")
    = retried world GetReliableCityData (Ok [VUndefined])
  ∧ callApi_switch world "webSearch" (params "webSearch")
    = retried world GetSerperData (Ok [VStr (originalQuery parsedIntent)]).
Proof.
  intros Hnone. cbn zeta. unfold buildApiQueries. rewrite Hnone.
  split_and!; reflexivity.
Qed.

(** X21.  The neighbourhood search never has coordinates: no entry of
    [buildApiQueries] has a [latitude] or a [longitude], so for every parsed
    request the place search is called with both [undefined]. *)
Theorem neighborhoods_searched_without_coordinates (parsedIntent : ParsedIntent) :
  callApi_switch world "neighborhoods"
    (params_for (buildApiQueries parsedIntent) "neighborhoods")
  = retried world GetRadarData
      (Ok [VObj [("type", VStr "search"); ("latitude", VUndefined);
                 ("longitude", VUndefined); ("radius", VNum 5000);
                 ("categories", VArr [VStr "residential"; VStr "neighborhood"]);
                 ("limit", VNum 20)]]).
Proof.
  unfold buildApiQueries.
  destruct (cities parsedIntent) as [|primaryCity [|secondCity others]]; reflexivity.
Qed.

(** X22.  The cost-of-living provider.  With two cities the comparison of
    the two is called; with one city the single-city data are fetched; and
    when the second city is the empty string the guard [if (params.cityB)]
    fails and the single-city provider is called with [undefined], since the
    parameters have no [city]. *)
Theorem costOfLiving_dispatch (parsedIntent : ParsedIntent)
    (primaryCity : string) (others : list string) :
  cities parsedIntent = primaryCity :: others →
  callApi_switch world "costOfLiving"
    (params_for (buildApiQueries parsedIntent) "costOfLiving")
  = match others with
    | [] => retried world GetReliableCityData (Ok [VStr primaryCity])
    | secondCity :: _ =>
        if String.eqb secondCity ""
        then retried world GetReliableCityData (Ok [VUndefined])
        else retried world CompareCostOfLiving (Ok [VStr primaryCity; VStr secondCity])
    end.
Proof.
  intros Hcities. unfold buildApiQueries. rewrite Hcities.
  destruct others as [|secondCity others]; [reflexivity|].
  cbn. by destruct (String.eqb secondCity "").
Qed.

End RequiredProviders.

Section RequiredProviderExamples.
Import Js Intent Orchestrator Shapes.

Lemma providers_called_with_undefined_city_witness :
  callApi_switch Examples.only_search_works "housingMarket"
    (params_for (buildApiQueries Scenarios.housing_without_city) "housingMarket")
  = retried Examples.only_search_works GetHousingMarketData (Ok [VUndefined]).
Proof.
  destruct (providers_called_with_undefined_city Examples.only_search_works
              Scenarios.housing_without_city eq_refl) as (_ & _ & Hhousing & _).
  exact Hhousing.
Defined.

Lemma costOfLiving_dispatch_witness :
  callApi_switch Examples.only_search_works "costOfLiving"
    (params_for (buildApiQueries Scenarios.austin_or_denver) "costOfLiving")
  = retried Examples.only_search_works CompareCostOfLiving
      (Ok [VStr "austin"; VStr "denver"]).
Proof.
  exact (costOfLiving_dispatch Examples.only_search_works Scenarios.austin_or_denver
           "austin" ["denver"] eq_refl).
Defined.

End RequiredProviderExamples.

(** ** Fusion: comparisons and extractors on every input *)

Section ComparisonSymmetry.
Import Js Fusion.

Lemma category_entry_swap (name1 name2 : string) (scores1 scores2 : gmap string Q)
    (category : string) :
  category_entry name2 name1 scores2 scores1 category
  = category_entry name1 name2 scores1 scores2 category.
Proof.
  unfold category_entry.
  destruct (num_gt (score_or_zero scores1 category) (score_or_zero scores2 category))
    eqn:H12.
  - by rewrite (num_gt_asym _ _ H12).
  - by destruct (num_gt (score_or_zero scores2 category)
                   (score_or_zero scores1 category)).
Qed.

(** X23.  The comparison does not depend on the order of the two cities:
    with the cities exchanged, [compareCities] gives the same winner and the
    same entry for every category (and it gives no comparison in the same
    cases). *)
Theorem compareCities_is_symmetric (city1 city2 : CityData)
    (rest rest' : list CityData) :
  compareCities (city2 :: city1 :: rest') = compareCities (city1 :: city2 :: rest).
Proof.
  unfold compareCities.
  destruct (scores city1) as [scores1|], (scores city2) as [scores2|]; try done.
  destruct (tally_spec (name city1) (name city2) scores1 scores2) as (H1 & H2 & H3).
  destruct (tally_spec (name city2) (name city1) scores2 scores1) as (H1' & H2' & H3').
  cbn zeta in *. f_equal. f_equal.
  - rewrite H1, H2, H1', H2'.
    destruct (Nat.ltb_spec (category_wins scores2 scores1)
                (category_wins scores1 scores2));
      destruct (Nat.ltb_spec (category_wins scores1 scores2)
                  (category_wins scores2 scores1)); try done; lia.
  - apply map_eq. intros category. rewrite H3, H3'.
    unfold allCategories. rewrite (union_comm_L (dom scores2)).
    destruct (decide (category ∈ dom scores1 ∪ dom scores2)); [|done].
    by rewrite category_entry_swap.
Qed.

Lemma num_gt_irrefl (a : Q) : num_gt a a = false.
Proof. by apply equal_scores_no_win. Qed.

Lemma tally_of_equal_scores (name1 name2 : string) (scores : gmap string Q) :
  let t := tally name1 name2 scores scores in
  city1Wins t = 0 ∧ city2Wins t = 0
  ∧ ∀ category entry,
      tally_categories t !! category = Some entry →
      entry = {| best := "tie"; difference := "0.0" |}.
Proof.
  cbn zeta. unfold tally.
  apply (set_fold_ind_L
           (λ (t : Tally) (_ : gset string),
              city1Wins t = 0 ∧ city2Wins t = 0
              ∧ ∀ category entry,
                  tally_categories t !! category = Some entry →
                  entry = {| best := "tie"; difference := "0.0" |})).
  - split; [done|]. split; [done|]. intros category entry.
    cbn [tally_categories]. by rewrite lookup_empty.
  - intros c X t _ (Hw1 & Hw2 & Hall).
    unfold compare_category. rewrite num_gt_irrefl.
    cbn [city1Wins city2Wins tally_categories].
    split; [done|]. split; [done|]. intros category entry.
    destruct (decide (c = category)) as [-> | Hne].
    + rewrite lookup_insert_eq. by intros [= <-].
    + rewrite lookup_insert_ne by done. apply Hall.
Qed.

End ComparisonSymmetry.

Section MergeComparison.
Import Js Fusion.
Variable num_to_string : Q → string.

Lemma mapM_Ok_inv {A B : Type} (f : A → outcome B) (l : list A) (ys : list B) :
  mapM f l = Ok ys → Forall2 (λ x y, f x = Ok y) l ys.
Proof.
  revert ys. induction l as [|x l IH]; intros ys.
  - intros [= <-]. constructor.
  - cbn. destruct (f x) as [y|] eqn:Hx; [|done]. cbn.
    destruct (mapM f l) as [ys'|]; [|done]. cbn.
    intros [= <-]. constructor; [done | by apply IH].
Qed.

Lemma mapM_Throw {A B : Type} (f : A → outcome B) (l : list A) (x : A) :
  x ∈ l → is_ok (f x) = false → is_ok (mapM f l) = false.
Proof.
  induction 1 as [x l | x x' l _ IH]; intros Hx; cbn.
  - by destruct (f x).
  - destruct (f x'); [|done]. cbn.
    specialize (IH Hx). by destruct (mapM f l).
Qed.

(** The scores of a city record do not depend on the name of the city. *)
Lemma city_info_scores_any_name (name1 name2 : string) (cityInfo : value) :
  (city_info_fields num_to_string name1 cityInfo).1.2
  = (city_info_fields num_to_string name2 cityInfo).1.2.
Proof.
  unfold city_info_fields.
  destruct (truthy cityInfo); [|done].
  destruct (truthy (get_opt cityInfo "urbanArea")),
    (truthy (get_opt cityInfo "city")),
    (truthy (get_opt cityInfo "fallbackData")); done.
Qed.

(** X24.  The comparison that [merge] makes has no winner: the records of
    all requested cities are built from the one result of the city
    provider, the one fetched for the first city, so the two records that
    are compared have the same scores; the winner is ["tie"] and every
    category is a tie with difference ["0.0"]. *)
Theorem merge_comparison_is_always_a_tie (parsedIntent : Intent.ParsedIntent)
    (apiResults : gmap string value) (cmp : Comparison) :
  comparison (merge num_to_string parsedIntent apiResults) = Some cmp →
  winner cmp = "tie"
  ∧ ∀ category entry,
      categories cmp !! category = Some entry →
      entry = {| best := "tie"; difference := "0.0" |}.
Proof.
  unfold merge, merge_body.
  destruct (mapM _ (Intent.cities parsedIntent)) as [requested|] eqn:Hrequested;
    cbn [mbind outcome_bind bind]; [|done].
  apply mapM_Ok_inv in Hrequested.
  destruct (Intent.cities parsedIntent) as [|cityName others] eqn:Hcities.
  - apply Forall2_nil_inv_l in Hrequested as ->. cbn [length Nat.eqb andb].
    destruct (truthy (field apiResults "cityInfo")
              || truthy (field apiResults "neighborhoods")).
    + destruct (processCityData num_to_string "New York" apiResults); done.
    + done.
  - cbn [length Nat.eqb andb]. unfold mbind, outcome_bind, mret, outcome_ret.
    cbn [bind comparison]. rewrite app_nil_r.
    destruct (2 <=? length requested)%nat; [|done].
    apply Forall2_cons_inv_l in Hrequested as (city1 & cds & H1 & Hrest & ->).
    destruct others as [|other others];
      [apply Forall2_nil_inv_l in Hrest as ->; done|].
    apply Forall2_cons_inv_l in Hrest as (city2 & cds' & H2 & _ & ->).
    apply processCityData_parts in H1 as (_ & Hfields1 & _).
    apply processCityData_parts in H2 as (_ & Hfields2 & _).
    pose proof (city_info_scores_any_name cityName other (field apiResults "cityInfo"))
      as Hsame.
    rewrite <- Hfields1, <- Hfields2 in Hsame. cbn [fst snd] in Hsame.
    unfold compareCities. rewrite Hsame.
    destruct (scores city2) as [scores2|]; [|done].
    destruct (tally_of_equal_scores (name city1) (name city2) scores2)
      as (Hw1 & Hw2 & Hall).
    cbn zeta in *. intros [= <-]. cbn [winner categories].
    rewrite Hw1, Hw2. done.
Qed.

End MergeComparison.

Section Extractors.
Import Js Fusion Shapes.
Variable num_to_string : Q → string.

Lemma article_of_without_source (article : value) :
  nullish (get_opt article "source") = true → is_ok (article_of article) = false.
Proof.
  unfold article_of.
  destruct article as [| | | | | |fields]; try done; cbn.
  - by destruct (obj_get fields "source").
Qed.

Lemma article_of_with_source (article : value) :
  nullish article = false → nullish (get_opt article "source") = false →
  is_ok (article_of article) = true.
Proof.
  unfold article_of.
  destruct article as [| | | | | |fields]; try done; cbn.
  by destruct (obj_get fields "source").
Qed.

Lemma mapM_length {A B : Type} (f : A → outcome B) (l : list A) (ys : list B) :
  mapM f l = Ok ys → length ys = length l.
Proof. intros H%mapM_Ok_inv. symmetry. by eapply Forall2_length. Qed.

Lemma mapM_all_ok {A B : Type} (f : A → outcome B) (l : list A) :
  Forall (λ x, is_ok (f x) = true) l → is_ok (mapM f l) = true.
Proof.
  induction 1 as [|x l Hx _ IH]; [done|]. cbn.
  destruct (f x); [|done]. cbn. by destruct (mapM f l).
Qed.

(** X25.  The news of a city are all or nothing.  One article without a
    [source] (or a [null] among the articles) makes the callback of [map]
    throw, and [extractNews] then returns no article at all; when every
    article has a source, every article is kept. *)
Theorem extractNews_all_or_nothing (newsInfo : value) (articles : list value) :
  get_opt newsInfo "articles" = VArr articles →
  (Exists (λ article, nullish (get_opt article "source") = true) articles →
   extractNews newsInfo = [])
  ∧ (Forall (λ article, nullish article = false
                        ∧ nullish (get_opt article "source") = false) articles →
     length (extractNews newsInfo) = length articles).
Proof.
  intros Harticles.
  assert (truthy newsInfo = true) as Htruthy by by destruct newsInfo.
  unfold extractNews, extract_list. rewrite Harticles, Htruthy. cbn [truthy negb orb].
  split.
  - intros (article & Hin & Hbad)%Exists_exists.
    pose proof (mapM_Throw article_of articles article Hin
                  (article_of_without_source article Hbad)) as Hthrow.
    by destruct (mapM article_of articles).
  - intros Hgood.
    assert (is_ok (mapM article_of articles) = true) as Hok.
    { apply mapM_all_ok. eapply Forall_impl; [exact Hgood|].
      intros article [? ?]. by apply article_of_with_source. }
    destruct (mapM article_of articles) as [result|] eqn:Hresult; [|done].
    by apply mapM_length in Hresult.
Qed.

Lemma summary_block_null_entry (result : value) (items : list value) (item : value) :
  get_opt result "summaries" = VArr items →
  item ∈ items → nullish item = true →
  is_ok (optional_block num_to_string result) = false.
Proof.
  intros Hsummaries Hin Hnull.
  assert (truthy result = true) as Htruthy by by destruct result.
  unfold optional_block, summary_block. rewrite Htruthy, Hsummaries. cbn [truthy].
  pose proof (mapM_Throw (λ s, get s "summary") items item Hin) as Hthrow.
  destruct (mapM (λ s, get s "summary") items); [|done].
  discriminate Hthrow. by destruct item.
Qed.

Lemma processCityData_block_throws (cityName : string) (apiResults : gmap string value)
    (k : string) :
  k ∈ block_keys →
  is_ok (optional_block num_to_string (field apiResults k)) = false →
  is_ok (processCityData num_to_string cityName apiResults) = false.
Proof.
  intros Hk Hthrow. unfold processCityData.
  destruct (city_info_fields _ _ _) as [[fullName scores] summary].
  unfold block_keys in Hk.
  destruct (optional_block _ (field apiResults "housingMarket")) eqn:H1; [|done].
  destruct (optional_block _ (field apiResults "jobOpportunities")) eqn:H2; [|done].
  destruct (optional_block _ (field apiResults "transportation")) eqn:H3; [|done].
  destruct (optional_block _ (field apiResults "schoolDistricts")) eqn:H4; [|done].
  exfalso.
  repeat (apply elem_of_cons in Hk as [-> | Hk];
          [first [rewrite H1 in Hthrow | rewrite H2 in Hthrow
                 | rewrite H3 in Hthrow | rewrite H4 in Hthrow]; discriminate|]).
  by apply elem_of_nil in Hk.
Qed.

(** X26.  One [null] among the summaries of one provider costs the whole
    answer: building the summary object throws, [merge] catches the
    exception, and the fused data have no city at all, no comparison, and
    the error ["Failed to process API data"], whatever the other providers
    returned. *)
Theorem merge_fails_on_one_null_summary (parsedIntent : Intent.ParsedIntent)
    (apiResults : gmap string value) (k : string) (items : list value) (item : value) :
  Intent.cities parsedIntent ≠ [] →
  k ∈ block_keys →
  get_opt (field apiResults k) "summaries" = VArr items →
  item ∈ items → nullish item = true →
  merge num_to_string parsedIntent apiResults
  = {| cities := []; comparison := None; generalInfo := None;
       originalQuery := Intent.originalQuery parsedIntent;
       intent := Intent.intent parsedIntent;
       error := Some "Failed to process API data" |}.
Proof.
  intros Hcities Hk Hsummaries Hin Hnull.
  pose proof (summary_block_null_entry _ _ _ Hsummaries Hin Hnull) as Hblock.
  unfold merge, merge_body.
  destruct (Intent.cities parsedIntent) as [|cityName others]; [done|].
  pose proof (processCityData_block_throws cityName apiResults k Hk Hblock) as Hthrow.
  cbn [mapM]. destruct (processCityData num_to_string cityName apiResults); done.
Qed.

End Extractors.

Section FusionExamples.
Import Js Fusion Shapes.

Lemma merge_comparison_is_always_a_tie_witness :
  ∃ cmp,
    comparison (merge Examples.show_number Scenarios.austin_or_denver
                  Scenarios.scored_results) = Some cmp
    ∧ winner cmp = "tie".
Proof.
  destruct (comparison (merge Examples.show_number Scenarios.austin_or_denver
                          Scenarios.scored_results)) as [cmp|] eqn:Hcmp;
    [|vm_compute in Hcmp; discriminate].
  exists cmp. split; [done|].
  exact (proj1 (merge_comparison_is_always_a_tie Examples.show_number
                  Scenarios.austin_or_denver Scenarios.scored_results cmp Hcmp)).
Defined.

Lemma extractNews_all_or_nothing_witness :
  extractNews Scenarios.news_with_anonymous_article = [].
Proof.
  destruct (extractNews_all_or_nothing Scenarios.news_with_anonymous_article
              [VObj [("title", VStr "Rents fall");
                     ("source", VObj [("name", VStr "Gazette")])];
               VObj [("title", VStr "New transit line")]] eq_refl) as [Hnone _].
  apply Hnone. apply Exists_cons_tl, Exists_cons_hd. reflexivity.
Defined.

Lemma merge_fails_on_one_null_summary_witness :
  cities (merge Examples.show_number Examples.austin_request
            Scenarios.results_with_null_summary) = []
  ∧ error (merge Examples.show_number Examples.austin_request
             Scenarios.results_with_null_summary)
    = Some "Failed to process API data".
Proof.
  rewrite (merge_fails_on_one_null_summary Examples.show_number
             Examples.austin_request Scenarios.results_with_null_summary
             "housingMarket"
             [VObj [("summary", VStr "Prices rose."); ("source", VStr "a")]; VNull]
             VNull).
  - split; reflexivity.
  - discriminate.
  - apply list_elem_of_here.
  - reflexivity.
  - apply list_elem_of_further, list_elem_of_here.
  - reflexivity.
Defined.

End FusionExamples.

(** ** Rule-based intents and the requests they lead to *)

Section IntentRules.
Import Js Intent Rules Orchestrator.

Ltac next_rule :=
  match goal with
  | |- context [if mentions ?text ?alternatives then _ else _] =>
      destruct (mentions text alternatives) eqn:?
  end.

(** What the rules need of the locations: a query is a comparison only
    when at least two locations were found in it, it is a plain request for
    city information only when at least one was found, and it falls to
    general advice or to the rest only when none was found. *)
Lemma determineIntent_locations (text : string) (locations : list string) :
  (determineIntent text locations = CITY_COMPARISON → 2 ≤ length locations)
  ∧ (determineIntent text locations = CITY_INFO → 1 ≤ length locations)
  ∧ (determineIntent text locations = GENERAL_ADVICE → locations = [])
  ∧ (determineIntent text locations = OTHER → locations = []).
Proof.
  unfold determineIntent.
  destruct ((mentions text ["compare"; "comparing"; "comparison"]
             || mentions text ["vs"; "versus"]))%bool;
    destruct (Nat.ltb_spec 1 (length locations)); cbn [andb];
    try (split_and!; intros; (done || lia));
    repeat (next_rule; [split_and!; intros; done|]);
    (destruct (Nat.ltb_spec 0 (length locations));
     [split_and!; intros; (done || lia)|]);
    (assert (locations = []) by (destruct locations; [done | cbn in *; lia]));
    next_rule; split_and!; intros; done.
Qed.

(** X27.  A query that the rules take for a comparison names at least two
    cities and leads to the comparison of the cost of living of the first
    two found: the provider is among the required ones and its parameters
    are the two cities. *)
Theorem rule_based_comparison_compares_first_two_cities (query : string)
    (locations : list string) :
  intent (parse_by_rules query locations) = CITY_COMPARISON →
  ∃ cityA cityB others,
    locations = cityA :: cityB :: others
    ∧ "costOfLiving" ∈ getRequiredApis (intent (parse_by_rules query locations))
    ∧ obj_get (buildApiQueries (parse_by_rules query locations)) "costOfLiving"
      = VObj [("cityA", VStr cityA); ("cityB", VStr cityB)].
Proof.
  intros Hintent.
  destruct (determineIntent_locations query locations) as (Htwo & _).
  cbn [parse_by_rules intent] in Hintent. specialize (Htwo Hintent).
  destruct locations as [|cityA [|cityB others]]; cbn in Htwo; try lia.
  exists cityA, cityB, others. split; [done|].
  cbn [parse_by_rules intent]. rewrite Hintent.
  split; [|reflexivity].
  cbn. repeat first [apply list_elem_of_here | apply list_elem_of_further].
Qed.

(** X28.  The rules fall back to [GENERAL_ADVICE] or [OTHER] only for a
    query in which no city was found, and such a query leads to one provider
    call only, the web search, made with the query as the user wrote it. *)
Theorem rule_based_fallback_is_one_web_search (query : string)
    (locations : list string) :
  intent (parse_by_rules query locations) = GENERAL_ADVICE
  ∨ intent (parse_by_rules query locations) = OTHER →
  locations = []
  ∧ getRequiredApis (intent (parse_by_rules query locations)) = ["webSearch"]
  ∧ buildApiQueries (parse_by_rules query locations)
    = [("webSearch", VObj [("query", VStr query)])].
Proof.
  intros Hintent.
  destruct (determineIntent_locations query locations)
    as (_ & _ & Hadvice & Hother).
  cbn [parse_by_rules intent] in *.
  assert (locations = []) as -> by (destruct Hintent; auto).
  split; [done|].
  split; [by destruct Hintent as [-> | ->] | reflexivity].
Qed.

Lemma mentions_of_includes (text pattern : string) (alternatives : list string) :
  pattern ∈ alternatives →
  includes (toLowerCase text) pattern = true →
  mentions text alternatives = true.
Proof.
  intros Hin Hincludes. unfold mentions. apply existsb_exists.
  exists pattern. split; [by apply list_elem_of_In | done].
Qed.

(** X29.  The alternative [price] of the cost-of-living rule is dead: it is
    also an alternative of the housing rule, which is tried first, so a
    query that mentions a price is a comparison, a neighbourhood
    recommendation or a housing-market query, and never a cost-of-living
    query. *)
Theorem price_never_means_cost_of_living (text : string) (locations : list string) :
  includes (toLowerCase text) "price" = true →
  determineIntent text locations
  ∈ [CITY_COMPARISON; NEIGHBORHOOD_RECOMMENDATION; HOUSING_MARKET].
Proof.
  intros Hprice. unfold determineIntent.
  destruct (_ && _); [apply list_elem_of_here|].
  next_rule; [apply list_elem_of_further, list_elem_of_here|].
  rewrite (mentions_of_includes text "price");
    [ | repeat first [apply list_elem_of_here | apply list_elem_of_further] | done ].
  apply list_elem_of_further, list_elem_of_further, list_elem_of_here.
Qed.

End IntentRules.

Section IntentExamples.
Import Js Intent Rules Orchestrator.

Lemma rule_based_comparison_compares_first_two_cities_witness :
  ∃ cityA cityB others,
    ["austin"; "denver"] = cityA :: cityB :: others
    ∧ "costOfLiving"
      ∈ getRequiredApis
          (intent (parse_by_rules "Austin vs. Denver for a family" ["austin"; "denver"]))
    ∧ obj_get
        (buildApiQueries
           (parse_by_rules "Austin vs. Denver for a family" ["austin"; "denver"]))
        "costOfLiving"
      = VObj [("cityA", VStr cityA); ("cityB", VStr cityB)].
Proof.
  apply (rule_based_comparison_compares_first_two_cities
           "Austin vs. Denver for a family" ["austin"; "denver"]).
  vm_compute. reflexivity.
Defined.

Lemma rule_based_fallback_is_one_web_search_witness :
  buildApiQueries (parse_by_rules "hello there" [])
  = [("webSearch", VObj [("query", VStr "hello there")])].
Proof.
  destruct (rule_based_fallback_is_one_web_search "hello there" [])
    as (_ & _ & Hqueries).
  - right. vm_compute. reflexivity.
  - exact Hqueries.
Defined.

Lemma price_never_means_cost_of_living_witness :
  determineIntent "What is the price of bread in Lisbon?" ["lisbon"]
  ∈ [CITY_COMPARISON; NEIGHBORHOOD_RECOMMENDATION; HOUSING_MARKET].
Proof.
  apply (price_never_means_cost_of_living "What is the price of bread in Lisbon?"
           ["lisbon"]).
  vm_compute. reflexivity.
Defined.

End IntentExamples.

(** ** The token bucket *)

Section TokenBucketProperties.
Import TokenBucket.

Lemma acquireToken_without_capacity (now woken : Z) (self : RateLimiter) :
  maxTokens self = NaN →
  (acquireToken now woken self).1 = None
  ∧ maxTokens (acquireToken now woken self).2 = NaN.
Proof.
  intros Hmax. unfold acquireToken, refillTokens. cbn [tokens].
  rewrite Hmax. cbn [min lift lt]. done.
Qed.

(** X30.  The token bucket of the process never delays a request.  Its
    capacity is read from [apiConfig.rateLimit.burstSize], a property that
    the configuration does not have, so the number of tokens is [NaN] from
    the start; the test [tokens < 1] is then false at every call, and
    [acquireToken] returns without waiting, however many calls are made and
    however close together they are. *)
Theorem token_bucket_never_waits (constructed : Z) (calls : list (Z * Z)) :
  Forall (λ waited, waited = None)
    (acquisitions calls (new apiConfig_burstSize apiConfig_refillRate constructed)).
Proof.
  assert (∀ self, maxTokens self = NaN →
            Forall (λ waited, waited = None) (acquisitions calls self)) as Hall;
    [|by apply Hall].
  induction calls as [|[now woken] calls IH]; intros self Hmax; [constructor|].
  cbn [acquisitions].
  destruct (acquireToken_without_capacity now woken self Hmax) as [Hwait Hnext].
  destruct (acquireToken now woken self) as [waited next]. cbn [fst snd] in *.
  constructor; [done | by apply IH].
Qed.

(** With a capacity the bucket does delay: a bucket of one token that is
    asked twice at the same instant makes the second call wait a second. *)
Lemma token_bucket_with_capacity_waits :
  ∃ wait : Q,
    acquisitions [(0, 0); (0, 1000)]%Z (new (Num 1) (Num 1) 0)
    = [None; Some (Num wait)]
    ∧ (wait == 1000)%Q.
Proof. eexists. split; [vm_compute; reflexivity | vm_compute; reflexivity]. Qed.

End TokenBucketProperties.
